(** * XML Organizer: a shallow embedding of [xml_organizer.py]

    The development follows the source file top to bottom: Python strings and
    [pathlib] paths, the enums, the catalog tables and the in-memory caches,
    the audit functions, the extractor [get_xml_info], the atomic transaction
    [atomic_process_file], the retry controller
    [process_single_file_with_retry], [process_batch] and the reconciler.

    State is threaded explicitly through a [World] record (filesystem, SQLite
    tables, module-level caches, clock, log).  What the program cannot decide
    by itself (library tables, the wall clock, I/O faults) is collected in an
    [Env] record.

    The model is sequential: the files of a batch are processed one after the
    other, so the locks play no role.  The audit log file written by
    [audit_log] is not modelled; of the operational log only the entries
    listed in [LogMsg] are kept. *)

From Stdlib Require Import ZArith NArith String Ascii Lia.
From stdpp Require Import gmap list.

Local Open Scope N_scope.

(** ** Python strings

    A [str] is a sequence of Unicode code points. *)

Definition str := list N.

Definition lit (s : string) : str :=
  map (fun a => N_of_ascii a) (list_ascii_of_string s).

Arguments lit : simpl never.

(** Truthiness of a string ([if s:], [if not s:]). *)
Definition truthy (s : str) : bool :=
  match s with [] => false | _ => true end.

(** [str.isspace] for one code point; the same class is matched by [\s] in a
    [re] pattern over [str] and removed by [str.strip()]. *)
Definition is_space (c : N) : bool :=
  ((9 <=? c) && (c <=? 13)) || ((28 <=? c) && (c <=? 32))
  || (c =? 133) || (c =? 160) || (c =? 5760)
  || ((8192 <=? c) && (c <=? 8202)) || (c =? 8232) || (c =? 8233)
  || (c =? 8239) || (c =? 8287) || (c =? 12288).

(** The character class [[.\-/\\]]. *)
Definition is_punct (c : N) : bool :=
  (c =? 46) || (c =? 45) || (c =? 47) || (c =? 92).

(** [re.sub(r'[.\-/\\]', '', name)] *)
Definition sub_punct (name : str) : str :=
  List.filter (fun c => negb (is_punct c)) name.

(** [re.sub(r'\s+', ' ', name)]: [in_run] tells that the previous character
    belonged to the whitespace run being replaced. *)
Fixpoint sub_ws (in_run : bool) (name : str) : str :=
  match name with
  | [] => []
  | c :: rest =>
      if is_space c
      then if in_run then sub_ws true rest else 32 :: sub_ws true rest
      else c :: sub_ws false rest
  end.

Fixpoint lstrip (s : str) : str :=
  match s with
  | [] => []
  | c :: rest => if is_space c then lstrip rest else s
  end.

Fixpoint rstrip (s : str) : str :=
  match s with
  | [] => []
  | c :: rest =>
      match rstrip rest with
      | [] => if is_space c then [] else [c]
      | r => c :: r
      end
  end.

(** [s.strip()] *)
Definition strip (s : str) : str := rstrip (lstrip s).

(** [s.upper()] maps every code point through the Unicode uppercase table
    (one code point may become several, as in the German sharp s). *)
Definition upper (upper_char : N -> list N) (s : str) : str :=
  List.flat_map upper_char s.

(** What the idempotence argument needs from the uppercase table.  CPython's
    table satisfies all five clauses. *)
Record CaseTableOk (upper_char : N -> list N) : Prop := {
  upper_space : forall c, is_space c = true -> upper_char c = [c];
  upper_punct : forall c, is_punct c = true -> upper_char c = [c];
  upper_nonspace : forall c, is_space c = false ->
      upper_char c <> [] /\ Forall (fun d => is_space d = false) (upper_char c);
  upper_nonpunct : forall c, is_punct c = false ->
      Forall (fun d => is_punct d = false) (upper_char c);
  upper_fixed : forall c d, In d (upper_char c) -> upper_char d = [d]
}.

(** The ASCII part of the table, used in the worked examples. *)
Definition ascii_upper_char (c : N) : list N :=
  if (97 <=? c) && (c <=? 122) then [c - 32] else [c].

(** [standardize_company_name] *)
Definition standardize_company_name (upper_char : N -> list N) (name : str) : str :=
  let name := sub_punct name in
  let name := strip (sub_ws false name) in
  upper upper_char name.

(** ** More string operations used by the program *)

Definition str_eqb (a b : str) : bool := bool_decide (a = b).

Fixpoint startswith (p s : str) : bool :=
  match p, s with
  | [], _ => true
  | a :: p', b :: s' => (a =? b) && startswith p' s'
  | _ :: _, [] => false
  end.

(** [s.endswith(p)] *)
Definition endswith (p s : str) : bool := startswith (rev p) (rev s).

(** [p in s] for strings *)
Fixpoint contains (p s : str) : bool :=
  startswith p s || match s with [] => false | _ :: s' => contains p s' end.

(** [s.replace(old, '')] for a non-empty [old]: occurrences are removed from
    left to right without overlap; [skip] counts the characters of the current
    occurrence that remain to be dropped. *)
Fixpoint remove_all_aux (old : str) (skip : nat) (s : str) : str :=
  match s with
  | [] => []
  | c :: rest =>
      match skip with
      | S k => remove_all_aux old k rest
      | O => if startswith old s
             then remove_all_aux old (length old - 1) rest
             else c :: remove_all_aux old 0 rest
      end
  end.

Definition remove_all (old s : str) : str := remove_all_aux old 0 s.

(** [s.split(sep)] for a one-character separator *)
Fixpoint split_on (sep : N) (s : str) : list str :=
  match s with
  | [] => [[]]
  | c :: rest =>
      if c =? sep then [] :: split_on sep rest
      else match split_on sep rest with
           | [] => [[c]]
           | w :: ws => (c :: w) :: ws
           end
  end.

(** Decimal digits, most significant first. *)
Definition digit (n : N) : N := 48 + n mod 10.

Fixpoint dec_aux (fuel : nat) (n : N) (acc : str) : str :=
  match fuel with
  | O => acc
  | S f => if n / 10 =? 0 then digit n :: acc
           else dec_aux f (n / 10) (digit n :: acc)
  end.

Definition dec (n : N) : str := dec_aux (S (N.to_nat (N.log2 n))) n [].

Definition pad2 (n : N) : str := [digit (n / 10); digit n].

Definition pad6 (n : N) : str :=
  [digit (n / 100000); digit (n / 10000); digit (n / 1000);
   digit (n / 100); digit (n / 10); digit n].

(** ** [datetime]

    [strftime] as glibc implements it: [%Y] is not zero-padded, the other
    fields used by the program are. *)
Record DateTime := {
  dt_year : N; dt_month : N; dt_day : N;
  dt_hour : N; dt_minute : N; dt_second : N; dt_micro : N
}.

Definition fmt_Y (d : DateTime) : str := dec (dt_year d).
Definition fmt_m (d : DateTime) : str := pad2 (dt_month d).
Definition fmt_d (d : DateTime) : str := pad2 (dt_day d).

(** [strftime('%Y-%m-%d')] *)
Definition fmt_date (d : DateTime) : str :=
  fmt_Y d ++ lit "-" ++ fmt_m d ++ lit "-" ++ fmt_d d.

(** [strftime('%m-%Y')] *)
Definition fmt_m_Y (d : DateTime) : str := fmt_m d ++ lit "-" ++ fmt_Y d.

(** [strftime('%Y%m%d_%H%M%S_%f')] *)
Definition fmt_stamp (d : DateTime) : str :=
  fmt_Y d ++ fmt_m d ++ fmt_d d ++ lit "_" ++
  pad2 (dt_hour d) ++ pad2 (dt_minute d) ++ pad2 (dt_second d) ++ lit "_" ++
  pad6 (dt_micro d).

(** ** [pathlib.Path]

    An absolute POSIX path is the list of its parts below the root. *)
Definition Path := list str.

(** The parts of a path segment: empty parts and ["."] are dropped. *)
Definition parts_of (s : str) : list str :=
  List.filter (fun w => truthy w && negb (str_eqb w (lit "."))) (split_on 47 s).

(** [p / s]: an absolute segment replaces [p]. *)
Definition truediv (p : Path) (s : str) : Path :=
  if startswith (lit "/") s then parts_of s else p ++ parts_of s.

Notation "p </> s" := (truediv p s) (at level 40, left associativity).

(** [str(p)] *)
Definition path_str (p : Path) : str :=
  match p with
  | [] => lit "/"
  | _ => List.concat (map (fun part => 47 :: part) p)
  end.

(** [p.name] *)
Definition path_name (p : Path) : str := List.last p [].

(** [p.parent] *)
Definition path_parent (p : Path) : Path := List.removelast p.

(** ** [xml.etree.ElementTree]

    Tags carry their namespace in Clark notation, ["{uri}local"]. *)
#[warnings="-register-all"] Inductive Element :=
  Elem (tag : str) (attrib : list (str * str)) (text : option str)
       (children : list Element).

Definition tag (e : Element) : str := let 'Elem t _ _ _ := e in t.
Definition attrib (e : Element) : list (str * str) := let 'Elem _ a _ _ := e in a.
Definition text (e : Element) : option str := let 'Elem _ _ x _ := e in x.
Definition children (e : Element) : list Element := let 'Elem _ _ _ c := e in c.

(** [e.iter()]: the element and its descendants in document order. *)
Fixpoint iter (e : Element) : list Element :=
  match e with
  | Elem _ _ _ cs => e :: List.flat_map iter cs
  end.

Definition NFE_NS : str := lit "http://www.portalfiscal.inf.br/nfe".

(** The tag that the prefixed name [nfe:local] denotes. *)
Definition nfe (local : str) : str := lit "{" ++ NFE_NS ++ lit "}" ++ local.

(** The two entries of [namespaces]: the NF-e prefix map and the empty one. *)
Inductive Namespace := NsNfe | NsNone.

Definition namespaces : list Namespace := [NsNfe; NsNone].

Definition qname (ns : Namespace) (local : str) : str :=
  match ns with NsNfe => nfe local | NsNone => local end.

(** [e.find('nfe:x', ns) if ns else e.find('x')]: first matching child. *)
Definition find_child (ns : Namespace) (local : str) (e : Element) : option Element :=
  List.find (fun c => str_eqb (tag c) (qname ns local)) (children e).

(** [e.find('.//nfe:x', ns) if ns else e.find('.//x')]: first matching proper
    descendant in document order. *)
Definition find_descendant (ns : Namespace) (local : str) (e : Element) : option Element :=
  List.find (fun c => str_eqb (tag c) (qname ns local)) (List.flat_map iter (children e)).

(** [e.get(key, '')] *)
Fixpoint get_attr (key : str) (a : list (str * str)) : str :=
  match a with
  | [] => []
  | (k, v) :: rest => if str_eqb k key then v else get_attr key rest
  end.

(** ** Enums *)

Inductive ProcessingStatus :=
  | PENDING | QUARANTINED | PROCESSING | PARSED | DB_INSERTED | FILE_MOVED
  | SUCCESS | FAILED_PARSING | FAILED_DB | FAILED_MOVE | FAILED_PERMANENT
  | DUPLICATE.

Inductive ErrorType :=
  | XML_PARSE_ERROR | XML_INVALID_STRUCTURE | DB_CONNECTION_ERROR
  | DB_INTEGRITY_ERROR | FILE_NOT_FOUND | FILE_PERMISSION_ERROR
  | NETWORK_ERROR | UNKNOWN_ERROR.

#[global] Instance ProcessingStatus_eq_dec : EqDecision ProcessingStatus.
Proof. solve_decision. Defined.

#[global] Instance ErrorType_eq_dec : EqDecision ErrorType.
Proof. solve_decision. Defined.

(** ** The environment

    Library tables, the wall clock and the faults of the outside world.  A
    fault is keyed by the quarantined file and the attempt number it hits. *)
Record Env := {
  (** Unicode uppercase table behind [str.upper] *)
  upper_char : N -> list N;
  (** [datetime.strptime(_, '%Y-%m-%d')]; [None] when it raises *)
  strptime : str -> option DateTime;
  (** [datetime.now()] at a reading of the clock *)
  localtime : Z -> DateTime;
  (** [str(e)] of the exception raised in an attempt *)
  exc_text : Path -> nat -> str;
  (** configuration constants *)
  MAX_RETRY_ATTEMPTS : nat;
  RETRY_DELAY_BASE : Z;
  (** the SQLite file can be opened by the audit functions, [load_caches]
      and the reconciler *)
  db_up : bool;
  (** [shutil.move] into quarantine raises *)
  quarantine_move_fails : Path -> bool;
  (** the issuer upsert raises *)
  company_db_fails : Path -> nat -> bool;
  (** the document insert raises something other than [IntegrityError] *)
  insert_fails : Path -> nat -> bool;
  (** [mkdir] or [shutil.move] to the archive raises *)
  move_fails : Path -> nat -> bool;
  (** the compensating [DELETE] raises *)
  rollback_fails : Path -> nat -> bool;
  (** [shutil.move] to the dead-letter directory raises *)
  dead_letter_move_fails : Path -> bool
}.

(** ** The extractor *)

(** The dictionary returned by [get_xml_info]. *)
Record Info := {
  data_processamento : str;
  data_emissao : str;
  chave_acesso : str;
  empresa_nome_xml : str;
  empresa_nome_padronizado : str;
  cnpj : str;
  tipo_documento : str;
  ano_emissao : str;
  mes_ano_emissao : str;
  dia_emissao : str
}.

(** Locating [infNFe]: namespaced descendant, then plain descendant, then any
    element (the root included) whose tag ends with [infNFe]. *)
Definition find_infNFe (root : Element) : option Element :=
  match find_descendant NsNfe (lit "infNFe") root with
  | Some e => Some e
  | None =>
      match find_descendant NsNone (lit "infNFe") root with
      | Some e => Some e
      | None => List.find (fun e => endswith (lit "infNFe") (tag e)) (iter root)
      end
  end.

(** The [ide]/[emit] loop: the values left in the two variables when the loop
    ends (after the first namespace if both were found, otherwise those of the
    second). *)
Definition find_ide_emit (infNFe : Element) : option Element * option Element :=
  match find_child NsNfe (lit "ide") infNFe, find_child NsNfe (lit "emit") infNFe with
  | Some ide, Some emit => (Some ide, Some emit)
  | _, _ => (find_child NsNone (lit "ide") infNFe, find_child NsNone (lit "emit") infNFe)
  end.

(** [elem.text.split('T')[0] if 'T' in elem.text else elem.text]; the outer
    [None] is the [TypeError] raised when [elem.text] is [None]. *)
Definition date_text (elem : Element) : option str :=
  match text elem with
  | None => None
  | Some t =>
      if contains (lit "T") t
      then Some (List.hd [] (split_on 84 t))
      else Some t
  end.

(** The inner loop over the namespaces for one tag name: [cur] is the value
    of [data_emissao_str] before the loop.  The outer [None] is an exception. *)
Definition date_of_tag (ide : Element) (tag_name : str) (cur : option str)
  : option (option str) :=
  match find_child NsNfe tag_name ide with
  | Some elem => option_map Some (date_text elem)
  | None =>
      match find_child NsNone tag_name ide with
      | Some elem => option_map Some (date_text elem)
      | None => Some cur
      end
  end.

Definition truthy_opt (s : option str) : bool :=
  match s with Some x => truthy x | None => false end.

(** The loop over [['dhEmi', 'dEmi']]. *)
Definition find_data_emissao (ide : Element) : option (option str) :=
  match date_of_tag ide (lit "dhEmi") None with
  | None => None
  | Some cur =>
      if truthy_opt cur then Some cur
      else date_of_tag ide (lit "dEmi") cur
  end.

(** The loop that reads [mod]: [None] is Python's [None]. *)
Definition find_modelo (ide : Element) : option str :=
  match find_child NsNfe (lit "mod") ide with
  | Some mod_elem => text mod_elem
  | None =>
      match find_child NsNone (lit "mod") ide with
      | Some mod_elem => text mod_elem
      | None => None
      end
  end.

(** [f"MOD{modelo}"] prints [None] as the word None. *)
Definition tipo_of_modelo (modelo : option str) : str :=
  match modelo with
  | Some m =>
      if str_eqb m (lit "55") then lit "NFE"
      else if str_eqb m (lit "65") then lit "NFCE"
      else lit "MOD" ++ m
  | None => lit "MODNone"
  end.

(** One round of the [CNPJ]/[xNome] loop: the two variables after the round. *)
Definition emit_round (emit : Element) (ns : Namespace)
  (vars : option str * option str) : option str * option str :=
  let '(cnpj, nome_empresa) := vars in
  let cnpj :=
    match find_child ns (lit "CNPJ") emit with
    | Some cnpj_elem => text cnpj_elem
    | None => cnpj
    end in
  let nome_empresa :=
    match find_child ns (lit "xNome") emit with
    | Some nome_elem => text nome_elem
    | None => nome_empresa
    end in
  (cnpj, nome_empresa).

Definition find_cnpj_nome (emit : Element) : option str * option str :=
  let vars := emit_round emit NsNfe (None, None) in
  if truthy_opt (fst vars) && truthy_opt (snd vars) then vars
  else emit_round emit NsNone vars.

(** [get_xml_info], on the result of [ET.parse] ([None] when parsing raises).
    Every exception is caught by the function's handler and becomes [None]. *)
Definition get_xml_info (env : Env) (now : Z) (xml : option Element) : option Info :=
  match xml with
  | None => None
  | Some root =>
  match find_infNFe root with
  | None => None
  | Some infNFe =>
  let chave_acesso :=
    remove_all (lit "nfe") (remove_all (lit "NFe") (get_attr (lit "Id") (attrib infNFe))) in
  match find_ide_emit infNFe with
  | (Some ide, Some emit) =>
  match find_data_emissao ide with
  | None => None
  | Some data_emissao_str =>
  if negb (truthy_opt data_emissao_str) then None else
  match strptime env (default [] data_emissao_str) with
  | None => None
  | Some data_emissao_dt =>
  let modelo := find_modelo ide in
  let tipo_documento := tipo_of_modelo modelo in
  match find_cnpj_nome emit with
  | (Some cnpj, Some nome_empresa) =>
      if negb (truthy cnpj) || negb (truthy nome_empresa) then None else
      Some {| data_processamento := fmt_date (localtime env now);
              data_emissao := fmt_date data_emissao_dt;
              chave_acesso := chave_acesso;
              empresa_nome_xml := nome_empresa;
              empresa_nome_padronizado :=
                standardize_company_name (upper_char env) nome_empresa;
              cnpj := cnpj;
              tipo_documento := tipo_documento;
              ano_emissao := fmt_Y data_emissao_dt;
              mes_ano_emissao := fmt_m_Y data_emissao_dt;
              dia_emissao := fmt_d data_emissao_dt |}
  | _ => None
  end
  end
  end
  | _ => None
  end
  end
  end.

(** ** The world

    A file is what the program observes of it: the MD5 digest of its bytes,
    the result of [ET.parse] and its modification time. *)
Record File := {
  file_hash : str;
  file_xml : option Element;
  file_mtime : Z
}.

(** Rows of [empresa], [nota_fiscal], [processing_audit],
    [processing_attempts] and [reconciliation_log].  Columns that the program
    only writes with the current time ([created_at], [updated_at],
    [discovered_at], [completed_at], the durations) and the stack trace are
    left out; a [status] column holds the enum member whose [value] is stored. *)
Record Empresa := {
  e_id : nat;
  e_cnpj : str;
  e_nome : str
}.

Record NotaFiscal := {
  nf_chave_acesso : str;
  nf_hash_arquivo : str;
  nf_empresa_id : nat;
  nf_data_processamento : str;
  nf_data_emissao : str;
  nf_tipo_documento : str;
  nf_caminho_arquivo : str
}.

Record AuditRow := {
  a_file_hash : str;
  a_filename : str;
  a_original_path : str;
  a_current_status : ProcessingStatus;
  a_attempt_count : nat;
  a_last_attempt_at : option Z;
  a_last_error_type : option ErrorType;
  a_last_error_message : option str;
  a_final_destination : option str;
  a_chave_acesso : option str;
  a_empresa_id : option nat
}.

Record AttemptRow := {
  t_audit_id : nat;
  t_attempt_number : nat;
  t_status : ProcessingStatus;
  t_error_type : option ErrorType;
  t_error_message : option str
}.

Record ReconciliationRow := {
  rec_files_checked : nat;
  rec_inconsistencies_found : nat;
  rec_issues_fixed : nat
}.

(** The entries of the operational log that the model keeps: the failures
    reported by the helpers, the transaction and the controller, and the
    rollback confirmation. *)
Inductive Level := INFO | WARNING | ERROR | CRITICAL.

Inductive LogMsg :=
  | HashFailed (name : str)
  | AuditRecordFailed (name : str)
  | QuarantineMoveFailed (name : str)
  | UnexpectedError
  | MoveFailedRollingBack
  | RollbackDone
  | RollbackFailed
  | AttemptFailed (attempt : nat) (delay : Z)
  | PermanentFailure (name : str)
  | DeadLetterMoveFailed
  | CriticalProcessingError (name : str)
  | StatusUpdateFailed
  | AttemptRecordFailed
  | CacheLoadFailed
  | ReconciliationError.

Record World := {
  files : gmap Path File;
  empresa : list Empresa;
  empresa_seq : nat;
  nota_fiscal : list NotaFiscal;
  processing_audit : gmap nat AuditRow;
  audit_seq : nat;
  processing_attempts : list AttemptRow;
  reconciliation_log : list ReconciliationRow;
  company_cache : gmap str (nat * str);
  processed_hashes : gset str;
  processed_keys : gset str;
  now : Z;
  sleeps : list Z;
  log : list (Level * LogMsg)
}.

Definition set_files (f : gmap Path File) (w : World) : World :=
  {| files := f; empresa := empresa w; empresa_seq := empresa_seq w;
     nota_fiscal := nota_fiscal w; processing_audit := processing_audit w;
     audit_seq := audit_seq w; processing_attempts := processing_attempts w;
     reconciliation_log := reconciliation_log w;
     company_cache := company_cache w; processed_hashes := processed_hashes w;
     processed_keys := processed_keys w; now := now w; sleeps := sleeps w;
     log := log w |}.

Definition set_empresa (e : list Empresa) (seq : nat) (w : World) : World :=
  {| files := files w; empresa := e; empresa_seq := seq;
     nota_fiscal := nota_fiscal w; processing_audit := processing_audit w;
     audit_seq := audit_seq w; processing_attempts := processing_attempts w;
     reconciliation_log := reconciliation_log w;
     company_cache := company_cache w; processed_hashes := processed_hashes w;
     processed_keys := processed_keys w; now := now w; sleeps := sleeps w;
     log := log w |}.

Definition set_nota_fiscal (n : list NotaFiscal) (w : World) : World :=
  {| files := files w; empresa := empresa w; empresa_seq := empresa_seq w;
     nota_fiscal := n; processing_audit := processing_audit w;
     audit_seq := audit_seq w; processing_attempts := processing_attempts w;
     reconciliation_log := reconciliation_log w;
     company_cache := company_cache w; processed_hashes := processed_hashes w;
     processed_keys := processed_keys w; now := now w; sleeps := sleeps w;
     log := log w |}.

Definition set_processing_audit (a : gmap nat AuditRow) (seq : nat) (w : World) : World :=
  {| files := files w; empresa := empresa w; empresa_seq := empresa_seq w;
     nota_fiscal := nota_fiscal w; processing_audit := a;
     audit_seq := seq; processing_attempts := processing_attempts w;
     reconciliation_log := reconciliation_log w;
     company_cache := company_cache w; processed_hashes := processed_hashes w;
     processed_keys := processed_keys w; now := now w; sleeps := sleeps w;
     log := log w |}.

Definition set_processing_attempts (t : list AttemptRow) (w : World) : World :=
  {| files := files w; empresa := empresa w; empresa_seq := empresa_seq w;
     nota_fiscal := nota_fiscal w; processing_audit := processing_audit w;
     audit_seq := audit_seq w; processing_attempts := t;
     reconciliation_log := reconciliation_log w;
     company_cache := company_cache w; processed_hashes := processed_hashes w;
     processed_keys := processed_keys w; now := now w; sleeps := sleeps w;
     log := log w |}.

Definition set_reconciliation_log (r : list ReconciliationRow) (w : World) : World :=
  {| files := files w; empresa := empresa w; empresa_seq := empresa_seq w;
     nota_fiscal := nota_fiscal w; processing_audit := processing_audit w;
     audit_seq := audit_seq w; processing_attempts := processing_attempts w;
     reconciliation_log := r;
     company_cache := company_cache w; processed_hashes := processed_hashes w;
     processed_keys := processed_keys w; now := now w; sleeps := sleeps w;
     log := log w |}.

Definition set_company_cache (c : gmap str (nat * str)) (w : World) : World :=
  {| files := files w; empresa := empresa w; empresa_seq := empresa_seq w;
     nota_fiscal := nota_fiscal w; processing_audit := processing_audit w;
     audit_seq := audit_seq w; processing_attempts := processing_attempts w;
     reconciliation_log := reconciliation_log w;
     company_cache := c; processed_hashes := processed_hashes w;
     processed_keys := processed_keys w; now := now w; sleeps := sleeps w;
     log := log w |}.

Definition set_processed (h k : gset str) (w : World) : World :=
  {| files := files w; empresa := empresa w; empresa_seq := empresa_seq w;
     nota_fiscal := nota_fiscal w; processing_audit := processing_audit w;
     audit_seq := audit_seq w; processing_attempts := processing_attempts w;
     reconciliation_log := reconciliation_log w;
     company_cache := company_cache w; processed_hashes := h;
     processed_keys := k; now := now w; sleeps := sleeps w;
     log := log w |}.

(** [time.sleep(delay)] *)
Definition sleep (delay : Z) (w : World) : World :=
  {| files := files w; empresa := empresa w; empresa_seq := empresa_seq w;
     nota_fiscal := nota_fiscal w; processing_audit := processing_audit w;
     audit_seq := audit_seq w; processing_attempts := processing_attempts w;
     reconciliation_log := reconciliation_log w;
     company_cache := company_cache w; processed_hashes := processed_hashes w;
     processed_keys := processed_keys w; now := (now w + delay)%Z;
     sleeps := sleeps w ++ [delay];
     log := log w |}.

(** [logger.<level>(msg)] *)
Definition logger (l : Level) (m : LogMsg) (w : World) : World :=
  {| files := files w; empresa := empresa w; empresa_seq := empresa_seq w;
     nota_fiscal := nota_fiscal w; processing_audit := processing_audit w;
     audit_seq := audit_seq w; processing_attempts := processing_attempts w;
     reconciliation_log := reconciliation_log w;
     company_cache := company_cache w; processed_hashes := processed_hashes w;
     processed_keys := processed_keys w; now := now w; sleeps := sleeps w;
     log := log w ++ [(l, m)] |}.

(** ** Directories *)

Definition SOURCE_DIRECTORY : Path := [lit "mnt"; lit "c"; lit "Automations"].
Definition DESTINATION_NETWORK_DIRECTORY : Path :=
  [lit "mnt"; lit "r"; lit "XML_ASINCRONIZAR"; lit "ZZZ_XML_BOT"].
Definition QUARANTINE_DIRECTORY : Path :=
  [lit "mnt"; lit "c"; lit "xml_organizer_data"; lit "quarantine"].
Definition PROCESSING_DIRECTORY : Path :=
  [lit "mnt"; lit "c"; lit "xml_organizer_data"; lit "processing"].
Definition FAILED_DIRECTORY : Path :=
  [lit "mnt"; lit "c"; lit "xml_organizer_data"; lit "failed"].
Definition DEAD_LETTER_DIRECTORY : Path :=
  [lit "mnt"; lit "c"; lit "xml_organizer_data"; lit "dead_letter"].

(** ** Audit functions *)

(** [create_processing_record]: the new row gets the next AUTOINCREMENT id. *)
Definition create_processing_record (env : Env) (file_path : Path) (file_hash : str)
  (w : World) : option nat * World :=
  if db_up env then
    let audit_id := S (audit_seq w) in
    let row := {| a_file_hash := file_hash;
                  a_filename := path_name file_path;
                  a_original_path := path_str file_path;
                  a_current_status := PENDING;
                  a_attempt_count := 0;
                  a_last_attempt_at := None;
                  a_last_error_type := None;
                  a_last_error_message := None;
                  a_final_destination := None;
                  a_chave_acesso := None;
                  a_empresa_id := None |} in
    (Some audit_id,
     set_processing_audit (<[audit_id := row]> (processing_audit w)) audit_id w)
  else (None, logger ERROR (AuditRecordFailed (path_name file_path)) w).

(** The keyword arguments passed to [update_processing_status]. *)
Record Kwargs := {
  kw_chave_acesso : option str;
  kw_empresa_id : option nat;
  kw_final_destination : option str
}.

Definition no_kwargs : Kwargs :=
  {| kw_chave_acesso := None; kw_empresa_id := None; kw_final_destination := None |}.

Definition or_keep {A} (new old : option A) : option A :=
  match new with Some _ => new | None => old end.

(** The [SET] clause built from [update_fields]. *)
Definition apply_update (status : ProcessingStatus) (error_type : option ErrorType)
  (error_message : option str) (kw : Kwargs) (r : AuditRow) : AuditRow :=
  {| a_file_hash := a_file_hash r;
     a_filename := a_filename r;
     a_original_path := a_original_path r;
     a_current_status := status;
     a_attempt_count := a_attempt_count r;
     a_last_attempt_at := a_last_attempt_at r;
     a_last_error_type := or_keep error_type (a_last_error_type r);
     a_last_error_message :=
       (if truthy_opt error_message
        then option_map (List.firstn 500) error_message
        else a_last_error_message r);
     a_final_destination := or_keep (kw_final_destination kw) (a_final_destination r);
     a_chave_acesso := or_keep (kw_chave_acesso kw) (a_chave_acesso r);
     a_empresa_id := or_keep (kw_empresa_id kw) (a_empresa_id r) |}.

(** [update_processing_status]: never raises. *)
Definition update_processing_status (env : Env) (audit_id : nat)
  (status : ProcessingStatus) (error_type : option ErrorType)
  (error_message : option str) (kw : Kwargs) (w : World) : World :=
  if db_up env then
    set_processing_audit
      (alter (apply_update status error_type error_message kw) audit_id
             (processing_audit w))
      (audit_seq w) w
  else logger ERROR StatusUpdateFailed w.

Definition count_attempt (t : Z) (r : AuditRow) : AuditRow :=
  {| a_file_hash := a_file_hash r;
     a_filename := a_filename r;
     a_original_path := a_original_path r;
     a_current_status := a_current_status r;
     a_attempt_count := S (a_attempt_count r);
     a_last_attempt_at := Some t;
     a_last_error_type := a_last_error_type r;
     a_last_error_message := a_last_error_message r;
     a_final_destination := a_final_destination r;
     a_chave_acesso := a_chave_acesso r;
     a_empresa_id := a_empresa_id r |}.

(** [record_attempt]: never raises. *)
Definition record_attempt (env : Env) (audit_id attempt_number : nat)
  (status : ProcessingStatus) (error_type : option ErrorType)
  (error_message : option str) (w : World) : World :=
  if db_up env then
    let row := {| t_audit_id := audit_id;
                  t_attempt_number := attempt_number;
                  t_status := status;
                  t_error_type := error_type;
                  t_error_message :=
                    (if truthy_opt error_message
                     then option_map (List.firstn 500) error_message
                     else None) |} in
    set_processing_audit
      (alter (count_attempt (now w)) audit_id (processing_audit w)) (audit_seq w)
      (set_processing_attempts (processing_attempts w ++ [row]) w)
  else logger ERROR AttemptRecordFailed w.

(** ** Helpers *)

(** [calculate_file_hash] *)
Definition calculate_file_hash (file_path : Path) (w : World) : option str * World :=
  match files w !! file_path with
  | Some f => (Some (file_hash f), w)
  | None => (None, logger ERROR (HashFailed (path_name file_path)) w)
  end.

(** [shutil.move(src, dst)]: [None] when the source does not exist. *)
Definition shutil_move (src dst : Path) (w : World) : option World :=
  match files w !! src with
  | Some f => Some (set_files (<[dst := f]> (delete src (files w))) w)
  | None => None
  end.

(** [p.unlink()] *)
Definition unlink (p : Path) (w : World) : World :=
  set_files (delete p (files w)) w.

Definition rename_empresa_by_cnpj (cnpj nome : str) (e : Empresa) : Empresa :=
  if str_eqb (e_cnpj e) cnpj
  then {| e_id := e_id e; e_cnpj := e_cnpj e; e_nome := nome |} else e.

Definition rename_empresa_by_id (id : nat) (nome : str) (e : Empresa) : Empresa :=
  if Nat.eqb (e_id e) id
  then {| e_id := e_id e; e_cnpj := e_cnpj e; e_nome := nome |} else e.

(** [get_or_create_company]; [None] when a statement raises. *)
Definition get_or_create_company (env : Env) (q : Path) (attempt : nat)
  (cnpj nome_xml : str) (w : World) : option nat * World :=
  let nome_padronizado := standardize_company_name (upper_char env) nome_xml in
  match company_cache w !! cnpj with
  | Some (cached_id, cached_nome) =>
      if str_eqb cached_nome nome_padronizado then (Some cached_id, w)
      else if company_db_fails env q attempt then (None, w)
      else
        let w := set_empresa (map (rename_empresa_by_cnpj cnpj nome_padronizado)
                                  (empresa w)) (empresa_seq w) w in
        (Some cached_id,
         set_company_cache (<[cnpj := (cached_id, nome_padronizado)]> (company_cache w)) w)
  | None =>
      if company_db_fails env q attempt then (None, w)
      else
        match List.find (fun e => str_eqb (e_cnpj e) cnpj) (empresa w) with
        | Some e =>
            let company_id := e_id e in
            let w :=
              if str_eqb (e_nome e) nome_padronizado then w
              else set_empresa (map (rename_empresa_by_id company_id nome_padronizado)
                                    (empresa w)) (empresa_seq w) w in
            (Some company_id,
             set_company_cache (<[cnpj := (company_id, nome_padronizado)]> (company_cache w)) w)
        | None =>
            let company_id := S (empresa_seq w) in
            let row := {| e_id := company_id; e_cnpj := cnpj; e_nome := nome_padronizado |} in
            let w := set_empresa (empresa w ++ [row]) company_id w in
            (Some company_id,
             set_company_cache (<[cnpj := (company_id, nome_padronizado)]> (company_cache w)) w)
        end
  end.

(** [load_caches] *)
Definition load_caches (env : Env) (w : World) : World :=
  if db_up env then
    let cc := fold_left (fun c e => <[e_cnpj e := (e_id e, e_nome e)]> c)
                        (empresa w) (company_cache w) in
    let hs := fold_left (fun s n => {[nf_hash_arquivo n]} ∪ s)
                        (nota_fiscal w) (processed_hashes w) in
    let ks := fold_left (fun s n => {[nf_chave_acesso n]} ∪ s)
                        (nota_fiscal w) (processed_keys w) in
    set_processed hs ks (set_company_cache cc w)
  else logger ERROR CacheLoadFailed w.

(** [move_to_quarantine] *)
Definition quarantine_path (env : Env) (source : Path) (w : World) : Path :=
  QUARANTINE_DIRECTORY </>
    (fmt_stamp (localtime env (now w)) ++ lit "_" ++ path_name source).

Definition move_to_quarantine (env : Env) (source : Path) (w : World)
  : option Path * World :=
  let quarantine_file := quarantine_path env source w in
  if quarantine_move_fails env source
  then (None, logger ERROR (QuarantineMoveFailed (path_name source)) w)
  else
    match shutil_move source quarantine_file w with
    | Some w => (Some quarantine_file, w)
    | None => (None, logger ERROR (QuarantineMoveFailed (path_name source)) w)
    end.

(** ** The atomic transaction *)

Definition AttemptResult : Type := bool * option str * option ErrorType.

(** The handler of the outermost [try] of [atomic_process_file]. *)
Definition unexpected_error (env : Env) (q : Path) (attempt : nat) (w : World)
  : AttemptResult * World :=
  ((false, Some (lit "Erro inesperado: " ++ exc_text env q attempt), Some UNKNOWN_ERROR),
   logger ERROR UnexpectedError w).

(** FASE 4: the archive path of a quarantined file. *)
Definition destination_of (nome_empresa_final : str) (info : Info) (quarantine_file : Path)
  : Path :=
  DESTINATION_NETWORK_DIRECTORY
    </> (nome_empresa_final ++ lit " - " ++ cnpj info)
    </> tipo_documento info
    </> ano_emissao info
    </> mes_ano_emissao info
    </> dia_emissao info
    </> path_name quarantine_file.

(** The UNIQUE constraints of [nota_fiscal]. *)
Definition violates_unique (chave hash : str) (rows : list NotaFiscal) : bool :=
  existsb (fun n => str_eqb (nf_chave_acesso n) chave || str_eqb (nf_hash_arquivo n) hash)
          rows.

(** [DELETE FROM nota_fiscal WHERE chave_acesso = ?] *)
Definition delete_nota_fiscal (chave : str) (rows : list NotaFiscal) : list NotaFiscal :=
  List.filter (fun n => negb (str_eqb (nf_chave_acesso n) chave)) rows.

Arguments delete_nota_fiscal : simpl never.

(** The handler of FASE 6: compensate the insert, then report the failure. *)
Definition rollback_after_move_failure (env : Env) (q : Path) (attempt : nat)
  (chave : str) (w : World) : AttemptResult * World :=
  let w := logger ERROR MoveFailedRollingBack w in
  let w :=
    if rollback_fails env q attempt
    then logger CRITICAL RollbackFailed w
    else logger INFO RollbackDone
           (set_nota_fiscal (delete_nota_fiscal chave (nota_fiscal w)) w) in
  ((false, Some (lit "Erro ao mover: " ++ exc_text env q attempt),
    Some FILE_PERMISSION_ERROR), w).

(** [ET.parse(path)]: [None] when the file is missing or not well-formed. *)
Definition ET_parse (file_path : Path) (w : World) : option Element :=
  match files w !! file_path with
  | Some f => file_xml f
  | None => None
  end.

(** FASE 5 to FASE 8: the catalog insert followed by the move, with the
    compensating delete when the move fails. *)
Definition insert_and_move (env : Env) (quarantine_file : Path)
  (audit_id attempt_number : nat) (file_hash : str) (info : Info)
  (empresa_id : nat) (destination_path : Path) (w : World) : AttemptResult * World :=
  let chave := chave_acesso info in
  (* FASE 5 *)
  if insert_fails env quarantine_file attempt_number then
    ((false, Some (lit "Erro BD: " ++ exc_text env quarantine_file attempt_number),
      Some DB_CONNECTION_ERROR), w)
  else if violates_unique chave file_hash (nota_fiscal w) then
    let w := update_processing_status env audit_id DUPLICATE None None no_kwargs w in
    ((true, Some (lit "Duplicado (BD): " ++ exc_text env quarantine_file attempt_number),
      None), unlink quarantine_file w)
  else
  let row := {| nf_chave_acesso := chave;
                nf_hash_arquivo := file_hash;
                nf_empresa_id := empresa_id;
                nf_data_processamento := data_processamento info;
                nf_data_emissao := data_emissao info;
                nf_tipo_documento := tipo_documento info;
                nf_caminho_arquivo := path_str destination_path |} in
  let w := set_nota_fiscal (nota_fiscal w ++ [row]) w in
  let w := update_processing_status env audit_id DB_INSERTED None None
             {| kw_chave_acesso := Some chave; kw_empresa_id := Some empresa_id;
                kw_final_destination := None |} w in
  (* FASE 6 *)
  if move_fails env quarantine_file attempt_number then
    rollback_after_move_failure env quarantine_file attempt_number chave w
  else
  match shutil_move quarantine_file destination_path w with
  | None => rollback_after_move_failure env quarantine_file attempt_number chave w
  | Some w =>
  let w := update_processing_status env audit_id FILE_MOVED None None
             {| kw_chave_acesso := None; kw_empresa_id := None;
                kw_final_destination := Some (path_str destination_path) |} w in
  (* FASE 7 *)
  let w := set_processed ({[file_hash]} ∪ processed_hashes w)
                         ({[chave]} ∪ processed_keys w) w in
  (* FASE 8 *)
  let w := update_processing_status env audit_id SUCCESS None None
             {| kw_chave_acesso := None; kw_empresa_id := None;
                kw_final_destination := Some (path_str destination_path) |} w in
  ((true, None, None), w)
  end.

(** [atomic_process_file] *)
Definition atomic_process_file (env : Env) (quarantine_file : Path)
  (audit_id attempt_number : nat) (w : World) : AttemptResult * World :=
  (* FASE 1 *)
  match calculate_file_hash quarantine_file w with
  | (None, w) => ((false, Some (lit "Falha ao calcular hash"), Some FILE_NOT_FOUND), w)
  | (Some file_hash, w) =>
  if negb (truthy file_hash)
  then ((false, Some (lit "Falha ao calcular hash"), Some FILE_NOT_FOUND), w)
  else if bool_decide (file_hash ∈ processed_hashes w) then
    let w := update_processing_status env audit_id DUPLICATE None None no_kwargs w in
    ((true, Some (lit "Duplicado (hash)"), None), unlink quarantine_file w)
  else
  (* FASE 2 *)
  match get_xml_info env (now w) (ET_parse quarantine_file w) with
  | None =>
      ((false, Some (lit "XML inv" ++ [225] ++ lit "lido ou incompleto"),
        Some XML_INVALID_STRUCTURE), w)
  | Some info =>
  let chave := chave_acesso info in
  if bool_decide (chave ∈ processed_keys w) then
    let w := update_processing_status env audit_id DUPLICATE None None
               {| kw_chave_acesso := Some chave; kw_empresa_id := None;
                  kw_final_destination := None |} w in
    ((true, Some (lit "Duplicado (chave)"), None), unlink quarantine_file w)
  else
  let w := update_processing_status env audit_id PARSED None None
             {| kw_chave_acesso := Some chave; kw_empresa_id := None;
                kw_final_destination := None |} w in
  (* FASE 3 *)
  match get_or_create_company env quarantine_file attempt_number
          (cnpj info) (empresa_nome_xml info) w with
  | (None, w) => unexpected_error env quarantine_file attempt_number w
  | (Some empresa_id, w) =>
  match company_cache w !! cnpj info with
  | None => unexpected_error env quarantine_file attempt_number w
  | Some (_, nome_empresa_final) =>
  (* FASE 4 *)
  let destination_path := destination_of nome_empresa_final info quarantine_file in
  if bool_decide (is_Some (files w !! destination_path)) then
    let w := update_processing_status env audit_id DUPLICATE None None
               {| kw_chave_acesso := Some chave; kw_empresa_id := Some empresa_id;
                  kw_final_destination := None |} w in
    ((true, Some (lit "Duplicado (destino existe)"), None), unlink quarantine_file w)
  else
  (* FASE 5 to FASE 8 *)
  insert_and_move env quarantine_file audit_id attempt_number file_hash info
    empresa_id destination_path w
  end
  end
  end
  end.

(** ** The retry controller *)

(** The [result] dictionary of [process_single_file_with_retry]. *)
Record Result := {
  r_file : str;
  r_status : str;
  r_audit_id : option nat;
  r_attempts : nat
}.

(** The body of the [for attempt in range(1, MAX_RETRY_ATTEMPTS + 1)] loop up
    to and including [record_attempt]. *)
Definition run_attempt (env : Env) (quarantine_file : Path) (audit_id attempt : nat)
  (w : World) : AttemptResult * World :=
  let w := update_processing_status env audit_id PROCESSING None None no_kwargs w in
  let '((success, error_msg, error_type), w) :=
    atomic_process_file env quarantine_file audit_id attempt w in
  let status := if success then SUCCESS else FAILED_MOVE in
  ((success, error_msg, error_type),
   record_attempt env audit_id attempt status error_type error_msg w).

(** The dead-letter branch taken when the last attempt has failed. *)
Definition move_to_dead_letter (env : Env) (quarantine_file : Path) (audit_id : nat)
  (error_msg : option str) (error_type : option ErrorType) (w : World) : World :=
  let w := logger ERROR (PermanentFailure (path_name quarantine_file)) w in
  let dead_letter_file := DEAD_LETTER_DIRECTORY </> path_name quarantine_file in
  if dead_letter_move_fails env quarantine_file
  then logger CRITICAL DeadLetterMoveFailed w
  else
    match shutil_move quarantine_file dead_letter_file w with
    | None => logger CRITICAL DeadLetterMoveFailed w
    | Some w =>
        update_processing_status env audit_id FAILED_PERMANENT error_type error_msg
          {| kw_chave_acesso := None; kw_empresa_id := None;
             kw_final_destination := Some (path_str dead_letter_file) |} w
    end.

(** [result["attempts"] = attempt] *)
Definition with_attempts (attempt : nat) (result : Result) : Result :=
  {| r_file := r_file result; r_status := r_status result;
     r_audit_id := r_audit_id result; r_attempts := attempt |}.

(** [result["status"] = "sucesso"] *)
Definition with_sucesso (result : Result) : Result :=
  {| r_file := r_file result; r_status := lit "sucesso";
     r_audit_id := r_audit_id result; r_attempts := r_attempts result |}.

(** [RETRY_DELAY_BASE ** attempt] *)
Definition backoff (env : Env) (attempt : nat) : Z :=
  (RETRY_DELAY_BASE env ^ Z.of_nat attempt)%Z.

(** The loop over the attempt numbers still to run. *)
Fixpoint retry_loop (env : Env) (attempts : list nat) (quarantine_file : Path)
  (audit_id : nat) (result : Result) (w : World) : Result * World :=
  match attempts with
  | [] => (result, w)
  | attempt :: rest =>
      let result := with_attempts attempt result in
      let '((success, error_msg, error_type), w) :=
        run_attempt env quarantine_file audit_id attempt w in
      if success then (with_sucesso result, w)
      else if Nat.ltb attempt (MAX_RETRY_ATTEMPTS env) then
        let delay := backoff env attempt in
        let w := logger WARNING (AttemptFailed attempt delay) w in
        if (delay <? 0)%Z
        then (result, logger ERROR (CriticalProcessingError (r_file result)) w)
        else retry_loop env rest quarantine_file audit_id result (sleep delay w)
      else
        retry_loop env rest quarantine_file audit_id result
          (move_to_dead_letter env quarantine_file audit_id error_msg error_type w)
  end.

(** [process_single_file_with_retry] *)
Definition process_single_file_with_retry (env : Env) (source_file : Path) (w : World)
  : Result * World :=
  let result := {| r_file := path_name source_file; r_status := lit "erro";
                   r_audit_id := None; r_attempts := 0 |} in
  match calculate_file_hash source_file w with
  | (None, w) => (result, w)
  | (Some file_hash, w) =>
  if negb (truthy file_hash) then (result, w) else
  match create_processing_record env source_file file_hash w with
  | (None, w) => (result, w)
  | (Some audit_id, w) =>
  let result := {| r_file := r_file result; r_status := r_status result;
                   r_audit_id := Some audit_id; r_attempts := r_attempts result |} in
  match move_to_quarantine env source_file w with
  | (None, w) =>
      (result,
       update_processing_status env audit_id FAILED_PERMANENT
         (Some FILE_PERMISSION_ERROR) (Some (lit "Falha ao mover para quarentena"))
         no_kwargs w)
  | (Some quarantine_file, w) =>
      let w := update_processing_status env audit_id QUARANTINED None None no_kwargs w in
      retry_loop env (seq 1 (MAX_RETRY_ATTEMPTS env)) quarantine_file audit_id result w
  end
  end
  end.

(** ** Batches *)

Record Stats := {
  sucesso : nat;
  duplicado : nat;
  erro : nat;
  total_attempts : nat
}.

(** The body of the [as_completed] loop for one finished future. *)
Definition count_result (result : Result) (stats : Stats) : Stats :=
  let total := (total_attempts stats + r_attempts result)%nat in
  if str_eqb (r_status result) (lit "sucesso") then
    {| sucesso := S (sucesso stats); duplicado := duplicado stats;
       erro := erro stats; total_attempts := total |}
  else if contains (lit "duplicado") (r_status result) then
    {| sucesso := sucesso stats; duplicado := S (duplicado stats);
       erro := erro stats; total_attempts := total |}
  else
    {| sucesso := sucesso stats; duplicado := duplicado stats;
       erro := S (erro stats); total_attempts := total |}.

(** The files of a batch, run one after the other in the order in which their
    futures complete. *)
Fixpoint run_batch (env : Env) (xml_files : list Path) (w : World)
  : list Result * World :=
  match xml_files with
  | [] => ([], w)
  | f :: rest =>
      let '(r, w) := process_single_file_with_retry env f w in
      let '(rs, w) := run_batch env rest w in
      (r :: rs, w)
  end.

(** [process_batch] *)
Definition process_batch (env : Env) (xml_files : list Path) (w : World)
  : Stats * World :=
  let stats := {| sucesso := 0; duplicado := 0; erro := 0; total_attempts := 0 |} in
  let '(results, w) := run_batch env xml_files w in
  (fold_left (fun st r => count_result r st) results stats, w).

(** ** Reconciliation *)

(** [directory.glob("*.xml")] *)
Definition glob_xml (directory : Path) (w : World) : list Path :=
  List.filter
    (fun p => bool_decide (path_parent p = directory)
              && negb (bool_decide (p = []))
              && endswith (lit ".xml") (path_name p))
    (map fst (map_to_list (files w))).

Definition intermediate_statuses : list ProcessingStatus :=
  [PENDING; QUARANTINED; PROCESSING; PARSED; DB_INSERTED].

Inductive Issue :=
  | QuarantineStuck (name : str)
  | DbStuck (filename : str) (status : ProcessingStatus)
  | DeadLetter (count : nat).

(** Step 1: quarantined files older than five minutes are processed again.
    The state is the world, [issues_found] and [issues_fixed]; [None] is an
    exception that leaves the function through its handler. *)
Fixpoint reprocess_quarantine (env : Env) (quarantine_files : list Path)
  (st : World * list Issue * nat) : option (World * list Issue * nat) :=
  match quarantine_files with
  | [] => Some st
  | qfile :: rest =>
      let '(w, issues_found, issues_fixed) := st in
      match files w !! qfile with
      | None => None
      | Some f =>
          if (300 <? now w - file_mtime f)%Z then
            let issues_found := issues_found ++ [QuarantineStuck (path_name qfile)] in
            let '(result, w) := process_single_file_with_retry env qfile w in
            let issues_fixed :=
              if str_eqb (r_status result) (lit "sucesso")
              then S issues_fixed else issues_fixed in
            reprocess_quarantine env rest (w, issues_found, issues_fixed)
          else reprocess_quarantine env rest st
      end
  end.

(** The [WHERE] clause of the query for stuck records. *)
Definition is_stuck (t_now : Z) (r : AuditRow) : bool :=
  bool_decide (a_current_status r ∈ intermediate_statuses)
  && match a_last_attempt_at r with
     | Some t => (t <? t_now - 600)%Z
     | None => false
     end.

(** The search through the three staging directories. *)
Definition found_in_staging (filename : str) (w : World) : bool :=
  existsb (fun directory => bool_decide (is_Some (files w !! (directory </> filename))))
          [QUARANTINE_DIRECTORY; PROCESSING_DIRECTORY; FAILED_DIRECTORY].

Definition LOST_MESSAGE : str :=
  lit "Arquivo perdido durante reconcilia" ++ [231; 227] ++ lit "o".

(** The [UPDATE] that marks a record as lost. *)
Definition mark_lost (r : AuditRow) : AuditRow :=
  {| a_file_hash := a_file_hash r;
     a_filename := a_filename r;
     a_original_path := a_original_path r;
     a_current_status := FAILED_PERMANENT;
     a_attempt_count := a_attempt_count r;
     a_last_attempt_at := a_last_attempt_at r;
     a_last_error_type := a_last_error_type r;
     a_last_error_message := Some LOST_MESSAGE;
     a_final_destination := a_final_destination r;
     a_chave_acesso := a_chave_acesso r;
     a_empresa_id := a_empresa_id r |}.

(** [stuck_records]: the rows selected by the query, with their ids. *)
Definition stuck_records (w : World) : list (nat * AuditRow) :=
  List.filter (fun ir => is_stuck (now w) (snd ir)) (map_to_list (processing_audit w)).

(** Step 2, the loop over [stuck_records]. *)
Definition reconcile_record (w : World) (table : gmap nat AuditRow)
  (ir : nat * AuditRow) : gmap nat AuditRow :=
  if found_in_staging (a_filename (snd ir)) w then table
  else alter mark_lost (fst ir) table.

Definition reconcile_stuck_records (w : World) : World :=
  set_processing_audit
    (fold_left (reconcile_record w) (stuck_records w) (processing_audit w))
    (audit_seq w) w.

(** [reconcile_processing_queue] *)
Definition reconcile_processing_queue (env : Env) (w : World) : World :=
  let quarantine_files := glob_xml QUARANTINE_DIRECTORY w in
  match reprocess_quarantine env quarantine_files (w, [], 0%nat) with
  | None => logger ERROR ReconciliationError w
  | Some (w, issues_found, issues_fixed) =>
      if negb (db_up env) then logger ERROR ReconciliationError w else
      let stuck := stuck_records w in
      let issues_found :=
        issues_found ++
        map (fun ir => DbStuck (a_filename (snd ir)) (a_current_status (snd ir))) stuck in
      let w := reconcile_stuck_records w in
      let dead_letter_files := glob_xml DEAD_LETTER_DIRECTORY w in
      let issues_found :=
        match dead_letter_files with
        | [] => issues_found
        | _ => issues_found ++ [DeadLetter (length dead_letter_files)]
        end in
      set_reconciliation_log
        (reconciliation_log w ++
         [{| rec_files_checked := (length quarantine_files + length stuck)%nat;
             rec_inconsistencies_found := length issues_found;
             rec_issues_fixed := issues_fixed |}]) w
  end.

(** * Vocabulary of the statements

    Predicates used to state the properties below; none of them is part of
    the program. *)

(** ** Strings *)

(** A file name: a string without the path separator. *)
Definition no_slash (s : str) : Prop := Forall (fun c => c <> 47) s.

(** Shape of a string after [re.sub(r'\s+', ' ', _)]: every whitespace
    character is a single U+0020 followed by a non-space character (or by the
    end of the string). *)
Definition head_nonspace (s : str) : Prop :=
  match s with [] => True | d :: _ => is_space d = false end.

Fixpoint collapsed (s : str) : Prop :=
  match s with
  | [] => True
  | c :: rest =>
      (is_space c = true -> c = 32 /\ head_nonspace rest) /\ collapsed rest
  end.

(** The part of [standardize_company_name] that precedes [upper()]. *)
Definition clean_name (name : str) : str :=
  strip (sub_ws false (sub_punct name)).

Definition nonpunct (s : str) : Prop := Forall (fun d => is_punct d = false) s.

(** ** Documents that lack a required field *)



(** ** Observations on the audit table *)

(** [SELECT current_status FROM processing_audit WHERE id = ?] *)
Definition audit_status (audit_id : nat) (w : World) : option ProcessingStatus :=
  a_current_status <$> processing_audit w !! audit_id.

(** [SELECT final_destination FROM processing_audit WHERE id = ?] *)
Definition audit_destination (audit_id : nat) (w : World) : option (option str) :=
  a_final_destination <$> processing_audit w !! audit_id.

(** ** The kinds of outcome of an attempt

    [w] is a world before the attempt (the loop body up to [record_attempt])
    and [w'] the world after it.  The outcomes are phrased so that they still
    hold when [w] is the world in which the loop started and earlier attempts
    have failed. *)

Definition attempt_failed (q : Path) (id : nat) (w : World)
  (res : AttemptResult) (w' : World) : Prop :=
  res.1.1 = false /\
  files w' = files w /\
  processed_hashes w' = processed_hashes w /\
  processed_keys w' = processed_keys w /\
  exists st, In st [PROCESSING; PARSED; DB_INSERTED] /\
             audit_status id w' = (fun _ => st) <$> audit_status id w.

Definition attempt_duplicate (q : Path) (id : nat) (w : World)
  (res : AttemptResult) (w' : World) : Prop :=
  res.1.1 = true /\ is_Some res.1.2 /\
  files w' = delete q (files w) /\
  processed_hashes w' = processed_hashes w /\
  processed_keys w' = processed_keys w /\
  audit_status id w' = (fun _ => DUPLICATE) <$> audit_status id w.

Definition attempt_succeeded (env : Env) (q : Path) (id k : nat) (w : World)
  (res : AttemptResult) (w' : World) : Prop :=
  res = (true, None, None) /\
  exists f info t,
    files w !! q = Some f /\
    get_xml_info env t (file_xml f) = Some info /\
    let dest :=
      destination_of (standardize_company_name (upper_char env) (empresa_nome_xml info))
                     info q in
    files w !! dest = None /\
    move_fails env q k = false /\
    files w' = <[dest := f]> (delete q (files w)) /\
    processed_hashes w' = {[file_hash f]} ∪ processed_hashes w /\
    processed_keys w' = {[chave_acesso info]} ∪ processed_keys w /\
    audit_status id w' = (fun _ => SUCCESS) <$> audit_status id w /\
    audit_destination id w' = (fun _ => Some (path_str dest)) <$> audit_status id w /\
    exists n, In n (nota_fiscal w') /\
              nf_chave_acesso n = chave_acesso info /\
              nf_hash_arquivo n = file_hash f /\
              nf_caminho_arquivo n = path_str dest.

(** The state in which the dead-letter branch leaves the world. *)
Definition attempts_exhausted (env : Env) (q : Path) (id : nat) (w w' : World) : Prop :=
  processed_hashes w' = processed_hashes w /\
  processed_keys w' = processed_keys w /\
  let dead_letter_file := DEAD_LETTER_DIRECTORY </> path_name q in
  ((exists f,
      files w !! q = Some f /\ dead_letter_move_fails env q = false /\
      files w' = <[dead_letter_file := f]> (delete q (files w)) /\
      audit_status id w' = (fun _ => FAILED_PERMANENT) <$> audit_status id w /\
      audit_destination id w' =
        (fun _ => Some (path_str dead_letter_file)) <$> audit_status id w)
   \/
   ((files w !! q = None \/ dead_letter_move_fails env q = true) /\
    files w' = files w /\
    exists st, In st [PROCESSING; PARSED; DB_INSERTED] /\
               audit_status id w' = (fun _ => st) <$> audit_status id w)).

(** Two worlds between which only failed attempts and back-off sleeps lie. *)
Definition same_standing (id : nat) (w w0 : World) : Prop :=
  files w0 = files w /\
  processed_hashes w0 = processed_hashes w /\
  processed_keys w0 = processed_keys w /\
  (is_Some (audit_status id w0) <-> is_Some (audit_status id w)).

(** The conditions under which an attempt on the quarantined file [q], holding
    [f] with extracted fields [info], gets as far as the catalog insert: the
    hash and the access key miss the caches, the issuer upsert goes through
    and nothing is stored at the destination yet. *)
Definition reaches_insert (env : Env) (q : Path) (k : nat) (w : World)
  (f : File) (info : Info) : Prop :=
  files w !! q = Some f /\
  truthy (file_hash f) = true /\
  (file_hash f ∉ processed_hashes w) /\
  get_xml_info env (now w) (file_xml f) = Some info /\
  (chave_acesso info ∉ processed_keys w) /\
  company_db_fails env q k = false /\
  files w !! destination_of
    (standardize_company_name (upper_char env) (empresa_nome_xml info)) info q = None.

(** * Worked scenarios

    A fault-free environment with the default configuration, the sample
    document of scenario S1 and a few variations of it. *)

Definition digit_val (c : N) : option N :=
  if (48 <=? c) && (c <=? 57) then Some (c - 48) else None.

(** An instance of [strptime] for fixed-width [YYYY-MM-DD] input. *)
Definition strptime_iso (s : str) : option DateTime :=
  match s with
  | [y1; y2; y3; y4; 45; m1; m2; 45; d1; d2] =>
      match digit_val y1, digit_val y2, digit_val y3, digit_val y4,
            digit_val m1, digit_val m2, digit_val d1, digit_val d2 with
      | Some a, Some b, Some c, Some d, Some e, Some f, Some g, Some h =>
          let y := 1000 * a + 100 * b + 10 * c + d in
          let m := 10 * e + f in
          let dd := 10 * g + h in
          if (1 <=? y) && (1 <=? m) && (m <=? 12) && (1 <=? dd) && (dd <=? 31)
          then Some {| dt_year := y; dt_month := m; dt_day := dd;
                       dt_hour := 0; dt_minute := 0; dt_second := 0; dt_micro := 0 |}
          else None
      | _, _, _, _, _, _, _, _ => None
      end
  | _ => None
  end.

Definition env0 : Env :=
  {| upper_char := ascii_upper_char;
     strptime := strptime_iso;
     localtime := fun t =>
       {| dt_year := 2024; dt_month := 11; dt_day := 6;
          dt_hour := 10; dt_minute := 30; dt_second := Z.to_N t mod 60;
          dt_micro := 0 |};
     exc_text := fun _ _ => lit "error";
     MAX_RETRY_ATTEMPTS := 5;
     RETRY_DELAY_BASE := 2;
     db_up := true;
     quarantine_move_fails := fun _ => false;
     company_db_fails := fun _ _ => false;
     insert_fails := fun _ _ => false;
     move_fails := fun _ _ => false;
     rollback_fails := fun _ _ => false;
     dead_letter_move_fails := fun _ => false |}.

(** [env0] with an archive that rejects every write (scenario S4), and the
    same with a catalog that also rejects the compensating delete. *)
Definition env_move_fails : Env :=
  {| upper_char := upper_char env0; strptime := strptime env0;
     localtime := localtime env0; exc_text := exc_text env0;
     MAX_RETRY_ATTEMPTS := 5; RETRY_DELAY_BASE := 2; db_up := true;
     quarantine_move_fails := fun _ => false;
     company_db_fails := fun _ _ => false;
     insert_fails := fun _ _ => false;
     move_fails := fun _ _ => true;
     rollback_fails := fun _ _ => false;
     dead_letter_move_fails := fun _ => false |}.

Definition env_rollback_fails : Env :=
  {| upper_char := upper_char env0; strptime := strptime env0;
     localtime := localtime env0; exc_text := exc_text env0;
     MAX_RETRY_ATTEMPTS := 5; RETRY_DELAY_BASE := 2; db_up := true;
     quarantine_move_fails := fun _ => false;
     company_db_fails := fun _ _ => false;
     insert_fails := fun _ _ => false;
     move_fails := fun _ _ => true;
     rollback_fails := fun _ _ => true;
     dead_letter_move_fails := fun _ => false |}.

Definition leaf (t : str) (x : string) : Element := Elem t [] (Some (lit x)) [].

Definition K1 : str := lit "35241112345678000190550010000001231234567890".

(** The document of [create_sample_xml], reduced to the elements that the
    extractor reads; [id_attr] is the attribute list of [infNFe] and [ide] the
    children of its [ide] block. *)
Definition sample_doc (id_attr : list (str * str)) (ide : list Element) : Element :=
  Elem (nfe (lit "nfeProc")) [(lit "versao", lit "4.00")] None
    [Elem (nfe (lit "NFe")) [] None
       [Elem (nfe (lit "infNFe")) id_attr None
          [Elem (nfe (lit "ide")) [] None ide;
           Elem (nfe (lit "emit")) [] None
             [leaf (nfe (lit "CNPJ")) "12345678000190";
              leaf (nfe (lit "xNome")) "Empresa Teste Ltda."]]]].

Definition sample_ide : list Element :=
  [leaf (nfe (lit "mod")) "55";
   leaf (nfe (lit "dhEmi")) "2024-11-06T10:30:00-03:00"].

Definition sample_xml : Element :=
  sample_doc [(lit "Id", lit "NFe" ++ K1)] sample_ide.



(** A well-formed document that is not an NF-e. *)
Definition xml_not_nfe : Element := Elem (lit "html") [] None [].

Definition sample_file : File :=
  {| file_hash := lit "0f343b0931126a20f133d67c2b018a3b";
     file_xml := Some sample_xml; file_mtime := 0 |}.

Definition not_nfe_file : File :=
  {| file_hash := lit "9e107d9d372bb6826bd81d3542a419d6";
     file_xml := Some xml_not_nfe; file_mtime := 0 |}.

Definition inbox_file : Path := SOURCE_DIRECTORY </> lit "nota.xml".

Definition empty_world : World :=
  {| files := ∅; empresa := []; empresa_seq := 0; nota_fiscal := [];
     processing_audit := ∅; audit_seq := 0; processing_attempts := [];
     reconciliation_log := []; company_cache := ∅; processed_hashes := ∅;
     processed_keys := ∅; now := 0; sleeps := []; log := [] |}.

(** S1: the sample document alone in the inbox. *)
Definition world_s1 : World := set_files {[inbox_file := sample_file]} empty_world.

(** A file that is not an NF-e alone in the inbox. *)
Definition world_not_nfe : World := set_files {[inbox_file := not_nfe_file]} empty_world.

Definition sample_info : Info :=
  {| data_processamento := lit "2024-11-06";
     data_emissao := lit "2024-11-06";
     chave_acesso := K1;
     empresa_nome_xml := lit "Empresa Teste Ltda.";
     empresa_nome_padronizado := lit "EMPRESA TESTE LTDA";
     cnpj := lit "12345678000190";
     tipo_documento := lit "NFE";
     ano_emissao := lit "2024";
     mes_ano_emissao := lit "11-2024";
     dia_emissao := lit "06" |}.

(** S1 at the start of the retry loop: audit row 1 created, the file moved
    to quarantine and the row advanced to QUARANTINED. *)
Definition quarantined_file : Path := quarantine_path env0 inbox_file world_s1.

Definition world_quarantined : World :=
  update_processing_status env0 1 QUARANTINED None None no_kwargs
    (snd (move_to_quarantine env0 inbox_file
            (snd (create_processing_record env0 inbox_file
                    (file_hash sample_file) world_s1)))).

(** The same with a catalog that already holds a document with the access
    key of the sample under another content hash (scenario S3), the caches
    not knowing of it. *)
Definition world_key_in_catalog : World :=
  set_nota_fiscal
    [{| nf_chave_acesso := K1;
        nf_hash_arquivo := lit "d41d8cd98f00b204e9800998ecf8427e";
        nf_empresa_id := 1;
        nf_data_processamento := lit "2024-11-06";
        nf_data_emissao := lit "2024-11-06";
        nf_tipo_documento := lit "NFE";
        nf_caminho_arquivo := lit "/mnt/r/XML_ASINCRONIZAR/ZZZ_XML_BOT/old.xml" |}]
    world_quarantined.

(** S2: the content hash of the file in the inbox is already in the cache. *)
Definition world_hash_in_cache : World :=
  set_processed {[file_hash sample_file]} ∅ world_s1.

(** An audit row left in PROCESSING a thousand seconds ago whose file is in
    none of the staging directories. *)
Definition stuck_row : AuditRow :=
  {| a_file_hash := file_hash sample_file;
     a_filename := lit "nota.xml";
     a_original_path := path_str inbox_file;
     a_current_status := PROCESSING;
     a_attempt_count := 1;
     a_last_attempt_at := Some 0%Z;
     a_last_error_type := None;
     a_last_error_message := None;
     a_final_destination := None;
     a_chave_acesso := None;
     a_empresa_id := None |}.

Definition world_stuck : World :=
  sleep 1000 (set_processing_audit {[1%nat := stuck_row]} 1 empty_world).

(** * The scan loop *)

Definition BATCH_SIZE : nat := 50.

(** [range(0, total, size)] *)
Definition batch_starts (total size : nat) : list nat :=
  map (fun j => (j * size)%nat) (seq 0 (Nat.div (total + size - 1) size)).

(** [xml_files[i:i+size]] for the [i] of [range(0, total, size)] *)
Definition batches (size : nat) (xml_files : list Path) : list (list Path) :=
  map (fun i => List.firstn size (List.skipn i xml_files))
      (batch_starts (length xml_files) size).

(** [total_stats[key] += stats[key]] for every key *)
Definition add_stats (total_stats stats : Stats) : Stats :=
  {| sucesso := (sucesso total_stats + sucesso stats)%nat;
     duplicado := (duplicado total_stats + duplicado stats)%nat;
     erro := (erro total_stats + erro stats)%nat;
     total_attempts := (total_attempts total_stats + total_attempts stats)%nat |}.

Definition no_stats : Stats :=
  {| sucesso := 0; duplicado := 0; erro := 0; total_attempts := 0 |}.

(** The loop of [scan_and_process] over the batches of the files found. *)
Fixpoint process_batches (env : Env) (bs : list (list Path))
  (total_stats : Stats) (w : World) : Stats * World :=
  match bs with
  | [] => (total_stats, w)
  | batch :: rest =>
      let '(stats, w) := process_batch env batch w in
      process_batches env rest (add_stats total_stats stats) w
  end.

(** [scan_and_process], from the list of the files found by [rglob] on.  The
    function returns nothing; the statistics are the totals that it logs. *)
Definition scan_and_process (env : Env) (xml_files : list Path) (w : World)
  : Stats * World :=
  match xml_files with
  | [] => (no_stats, w)
  | _ => process_batches env (batches BATCH_SIZE xml_files) no_stats w
  end.

(** * The main loop *)

Definition SCAN_INTERVAL : Z := 30.
Definition RECONCILIATION_INTERVAL : Z := 300.

(** One pass of the [while True] loop of [main] in which no exception
    reaches the handlers of the loop.  The state is the world and
    [last_reconciliation]; [xml_files] is what [rglob] finds in this pass and
    [time.time()] is the clock of the world. *)
Definition main_cycle (env : Env) (xml_files : list Path) (st : World * Z)
  : World * Z :=
  let '(w, last_reconciliation) := st in
  let w := snd (scan_and_process env xml_files w) in
  let '(w, last_reconciliation) :=
    if (RECONCILIATION_INTERVAL <? now w - last_reconciliation)%Z
    then let w := reconcile_processing_queue env w in (w, now w)
    else (w, last_reconciliation) in
  (sleep SCAN_INTERVAL w, last_reconciliation).

(** [main] from [load_caches] on, for as many passes of the loop as there
    are listings. *)
Definition main (env : Env) (listings : list (list Path)) (w : World) : World :=
  let w := load_caches env w in
  fst (fold_left (fun st xml_files => main_cycle env xml_files st) listings (w, now w)).

(** * The sample document of the test suite

    [create_sample_xml] of [test_confiabilidade.py], as [ET.parse] reads the
    text that it returns: every tag is in the NF-e namespace, and the text of
    an element with children is the line break and the indentation that
    follow its start tag. *)

Definition indent (n : nat) : str := 10 :: repeat 32 n.

Definition create_sample_xml (filename chave_acesso : str) : Element :=
  Elem (nfe (lit "nfeProc")) [(lit "versao", lit "4.00")] (Some (indent 2))
    [Elem (nfe (lit "NFe")) [] (Some (indent 4))
       [Elem (nfe (lit "infNFe"))
             [(lit "Id", lit "NFe" ++ chave_acesso); (lit "versao", lit "4.00")]
             (Some (indent 6))
          [Elem (nfe (lit "ide")) [] (Some (indent 8))
             [leaf (nfe (lit "cUF")) "35";
              leaf (nfe (lit "cNF")) "12345678";
              leaf (nfe (lit "natOp")) "VENDA";
              leaf (nfe (lit "mod")) "55";
              leaf (nfe (lit "serie")) "1";
              leaf (nfe (lit "nNF")) "123";
              leaf (nfe (lit "dhEmi")) "2024-11-06T10:30:00-03:00";
              leaf (nfe (lit "tpNF")) "1";
              leaf (nfe (lit "idDest")) "1";
              leaf (nfe (lit "cMunFG")) "3550308";
              leaf (nfe (lit "tpImp")) "1";
              leaf (nfe (lit "tpEmis")) "1";
              leaf (nfe (lit "cDV")) "9";
              leaf (nfe (lit "tpAmb")) "2";
              leaf (nfe (lit "finNFe")) "1";
              leaf (nfe (lit "indFinal")) "0";
              leaf (nfe (lit "indPres")) "1";
              leaf (nfe (lit "procEmi")) "0";
              leaf (nfe (lit "verProc")) "1.0"];
           Elem (nfe (lit "emit")) [] (Some (indent 8))
             [leaf (nfe (lit "CNPJ")) "12345678000190";
              leaf (nfe (lit "xNome")) "EMPRESA TESTE LTDA";
              leaf (nfe (lit "xFant")) "TESTE";
              Elem (nfe (lit "enderEmit")) [] (Some (indent 10))
                [leaf (nfe (lit "xLgr")) "RUA TESTE";
                 leaf (nfe (lit "nro")) "100";
                 leaf (nfe (lit "xBairro")) "CENTRO";
                 leaf (nfe (lit "cMun")) "3550308";
                 leaf (nfe (lit "xMun")) "SAO PAULO";
                 leaf (nfe (lit "UF")) "SP";
                 leaf (nfe (lit "CEP")) "01000000";
                 leaf (nfe (lit "cPais")) "1058";
                 leaf (nfe (lit "xPais")) "BRASIL"];
              leaf (nfe (lit "IE")) "123456789";
              leaf (nfe (lit "CRT")) "3"];
           Elem (nfe (lit "det")) [(lit "nItem", lit "1")] (Some (indent 8))
             [Elem (nfe (lit "prod")) [] (Some (indent 10))
                [leaf (nfe (lit "cProd")) "001";
                 leaf (nfe (lit "cEAN")) "SEM GTIN";
                 leaf (nfe (lit "xProd")) "PRODUTO TESTE";
                 leaf (nfe (lit "NCM")) "12345678";
                 leaf (nfe (lit "CFOP")) "5102";
                 leaf (nfe (lit "uCom")) "UN";
                 leaf (nfe (lit "qCom")) "1.00";
                 leaf (nfe (lit "vUnCom")) "100.00";
                 leaf (nfe (lit "vProd")) "100.00";
                 leaf (nfe (lit "cEANTrib")) "SEM GTIN";
                 leaf (nfe (lit "uTrib")) "UN";
                 leaf (nfe (lit "qTrib")) "1.00";
                 leaf (nfe (lit "vUnTrib")) "100.00";
                 leaf (nfe (lit "indTot")) "1"];
              Elem (nfe (lit "imposto")) [] (Some (indent 10))
                [Elem (nfe (lit "ICMS")) [] (Some (indent 12))
                   [Elem (nfe (lit "ICMS00")) [] (Some (indent 14))
                      [leaf (nfe (lit "orig")) "0";
                       leaf (nfe (lit "CST")) "00";
                       leaf (nfe (lit "modBC")) "0";
                       leaf (nfe (lit "vBC")) "100.00";
                       leaf (nfe (lit "pICMS")) "18.00";
                       leaf (nfe (lit "vICMS")) "18.00"]]]];
           Elem (nfe (lit "total")) [] (Some (indent 8))
             [Elem (nfe (lit "ICMSTot")) [] (Some (indent 10))
                [leaf (nfe (lit "vBC")) "100.00";
                 leaf (nfe (lit "vICMS")) "18.00";
                 leaf (nfe (lit "vICMSDeson")) "0.00";
                 leaf (nfe (lit "vFCP")) "0.00";
                 leaf (nfe (lit "vBCST")) "0.00";
                 leaf (nfe (lit "vST")) "0.00";
                 leaf (nfe (lit "vFCPST")) "0.00";
                 leaf (nfe (lit "vFCPSTRet")) "0.00";
                 leaf (nfe (lit "vProd")) "100.00";
                 leaf (nfe (lit "vFrete")) "0.00";
                 leaf (nfe (lit "vSeg")) "0.00";
                 leaf (nfe (lit "vDesc")) "0.00";
                 leaf (nfe (lit "vII")) "0.00";
                 leaf (nfe (lit "vIPI")) "0.00";
                 leaf (nfe (lit "vIPIDevol")) "0.00";
                 leaf (nfe (lit "vPIS")) "0.00";
                 leaf (nfe (lit "vCOFINS")) "0.00";
                 leaf (nfe (lit "vOutro")) "0.00";
                 leaf (nfe (lit "vNF")) "118.00"]]]]].

(** * More vocabulary *)

(** ** Strings and time *)

(** A string of decimal digits. *)
Definition all_digits (s : str) : Prop := Forall (fun c => 48 <= c <= 57) s.


(** ** The catalog *)

(** The UNIQUE constraints of [nota_fiscal]. *)
Definition unique_documents (rows : list NotaFiscal) : Prop :=
  NoDup (map nf_chave_acesso rows) /\ NoDup (map nf_hash_arquivo rows).

(** The issuer table and its cache: CNPJs and ids are unique, no id lies
    beyond the AUTOINCREMENT sequence, and every cache entry repeats a row
    of the table. *)
Definition issuers_ok (w : World) : Prop :=
  NoDup (map e_cnpj (empresa w)) /\
  NoDup (map e_id (empresa w)) /\
  (forall e, In e (empresa w) -> (e_id e <= empresa_seq w)%nat) /\
  (forall c id n, company_cache w !! c = Some (id, n) ->
     In {| e_id := id; e_cnpj := c; e_nome := n |} (empresa w)).

(** FOREIGN KEY (empresa_id) REFERENCES empresa (id) *)
Definition documents_reference_issuers (w : World) : Prop :=
  forall n, In n (nota_fiscal w) -> In (nf_empresa_id n) (map e_id (empresa w)).

(** The caches know of catalogued documents only. *)
Definition caches_within_catalog (w : World) : Prop :=
  (forall h, h ∈ processed_hashes w -> In h (map nf_hash_arquivo (nota_fiscal w))) /\
  (forall k, k ∈ processed_keys w -> In k (map nf_chave_acesso (nota_fiscal w))).

(** The catalog is consistent: the columns declared UNIQUE hold no value
    twice, both foreign keys of the catalog are satisfied and the caches
    agree with the tables. *)
Definition catalog_consistent (w : World) : Prop :=
  unique_documents (nota_fiscal w) /\ issuers_ok w /\
  documents_reference_issuers w /\ caches_within_catalog w.

(** The catalog of [w'] extends that of [w]: documents are only appended,
    issuers are only appended or renamed, the caches only grow. *)
Definition catalog_extends (w w' : World) : Prop :=
  (exists rows, nota_fiscal w' = nota_fiscal w ++ rows) /\
  (exists rows, map (fun e => (e_id e, e_cnpj e)) (empresa w')
                = map (fun e => (e_id e, e_cnpj e)) (empresa w) ++ rows) /\
  processed_hashes w ⊆ processed_hashes w' /\
  processed_keys w ⊆ processed_keys w' /\
  dom (company_cache w) ⊆ dom (company_cache w').

(** Two worlds with the same issuer table, sequence and cache. *)
Definition same_issuers (w1 w2 : World) : Prop :=
  empresa w1 = empresa w2 /\ empresa_seq w1 = empresa_seq w2 /\
  company_cache w1 = company_cache w2.

(** Two worlds with the same catalog tables and caches. *)
Definition same_catalog (w1 w2 : World) : Prop :=
  same_issuers w1 w2 /\ nota_fiscal w1 = nota_fiscal w2 /\
  processed_hashes w1 = processed_hashes w2 /\
  processed_keys w1 = processed_keys w2.

(** ** The audit tables *)

(** AUTOINCREMENT: no row of [processing_audit] lies beyond the sequence. *)
Definition audit_ids_bounded (w : World) : Prop :=
  forall id row, processing_audit w !! id = Some row -> (id <= audit_seq w)%nat.

(** FOREIGN KEY (audit_id) REFERENCES processing_audit (id) *)
Definition attempts_reference_audit (w : World) : Prop :=
  forall t, In t (processing_attempts w) ->
    is_Some (processing_audit w !! t_audit_id t).

(** The audit tables are consistent: no id lies beyond the sequence and the
    foreign key of [processing_attempts] is satisfied. *)
Definition audit_consistent (w : World) : Prop :=
  audit_ids_bounded w /\ attempts_reference_audit w.


(** The columns of an audit row that identify the file; no UPDATE writes
    them. *)
Definition audit_identity (r : AuditRow) : str * str * str :=
  (a_file_hash r, a_filename r, a_original_path r).

(** The rows that step 2 of the reconciler rewrites. *)
Definition lost (w : World) (row : AuditRow) : bool :=
  is_stuck (now w) row && negb (found_in_staging (a_filename row) w).

(** * More scenarios *)

(** The sample document in the inbox beside another file. *)
Definition other_file : Path := SOURCE_DIRECTORY </> lit "outra.xml".

Definition world_two_files : World :=
  set_files (<[other_file := not_nfe_file]> {[inbox_file := sample_file]}) empty_world.

(** Two copies of the sample document in the inbox. *)
Definition world_two_copies : World :=
  set_files (<[other_file := sample_file]> {[inbox_file := sample_file]}) empty_world.

(** The sample document waiting in quarantine, its audit row left in
    PROCESSING a thousand seconds ago. *)
Definition world_stuck_in_quarantine : World :=
  sleep 1000
    (set_files {[quarantined_file := sample_file]}
       (set_processing_audit {[1%nat := stuck_row]} 1 empty_world)).

(** * Issuer-name standardisation *)

Example standardize_company_name_sample :
  standardize_company_name ascii_upper_char (lit "  Empresa   Teste S/A. - ltda ")
  = lit "EMPRESA TESTE SA LTDA".
Proof. vm_compute. reflexivity. Qed.

Lemma sub_ws_collapsed (s : str) :
  forall b, collapsed (sub_ws b s) /\ (b = true -> head_nonspace (sub_ws b s)).
Proof.
  induction s as [|c rest IH]; intros b; simpl; [split; auto|].
  destruct (is_space c) eqn:Hc.
  - destruct b.
    + apply IH.
    + destruct (IH true) as [Hcol Hhd]. simpl. repeat split; auto.
  - destruct (IH false) as [Hcol _]. simpl. repeat split; auto; congruence.
Qed.

Lemma collapsed_sub_ws (s : str) :
  forall b, collapsed s -> (b = true -> head_nonspace s) -> sub_ws b s = s.
Proof.
  induction s as [|c rest IH]; intros b Hcol Hhd; simpl; [reflexivity|].
  destruct Hcol as [Hsp Hrest].
  destruct (is_space c) eqn:Hc.
  - destruct b.
    + specialize (Hhd eq_refl). simpl in Hhd. congruence.
    + destruct (Hsp eq_refl) as [-> Hn]. f_equal. apply IH; auto.
  - f_equal. apply IH; auto. discriminate.
Qed.

Lemma collapsed_lstrip (s : str) : collapsed s -> collapsed (lstrip s).
Proof.
  induction s as [|c rest IH]; simpl; [auto|].
  intros [Hsp Hrest]. destruct (is_space c) eqn:Hc; [auto|].
  simpl. split; [congruence | exact Hrest].
Qed.

Lemma rstrip_cons_inv (s : str) d r :
  rstrip s = d :: r -> exists s', s = d :: s'.
Proof.
  destruct s as [|c rest]; simpl; [discriminate|].
  destruct (rstrip rest); [destruct (is_space c)|]; intros [= <- <-]; eauto.
Qed.

Lemma collapsed_rstrip (s : str) : collapsed s -> collapsed (rstrip s).
Proof.
  induction s as [|c rest IH]; simpl; [auto|].
  intros [Hsp Hrest]. specialize (IH Hrest).
  destruct (rstrip rest) as [|d r] eqn:Hr.
  - destruct (is_space c) eqn:Hc; simpl; auto. split; auto. congruence.
  - simpl. split; [|exact IH]. intros Hc. destruct (Hsp Hc) as [-> Hhd].
    split; [reflexivity|]. destruct (rstrip_cons_inv _ _ _ Hr) as [s' ->].
    exact Hhd.
Qed.

Lemma lstrip_head_nonspace (s : str) : head_nonspace (lstrip s).
Proof.
  induction s as [|c rest IH]; simpl; [exact I|].
  destruct (is_space c) eqn:Hc; [exact IH | exact Hc].
Qed.

Lemma rstrip_head_nonspace (s : str) : head_nonspace s -> head_nonspace (rstrip s).
Proof.
  destruct s as [|c rest]; simpl; [auto|]. intros Hc.
  destruct (rstrip rest); [rewrite Hc|]; exact Hc.
Qed.

Lemma head_nonspace_lstrip (s : str) : head_nonspace s -> lstrip s = s.
Proof. destruct s as [|c rest]; simpl; [auto|]. intros ->. reflexivity. Qed.

Lemma rstrip_idem (s : str) : rstrip (rstrip s) = rstrip s.
Proof.
  induction s as [|c rest IH]; simpl; [reflexivity|].
  destruct (rstrip rest) as [|d r] eqn:Hr.
  - destruct (is_space c) eqn:Hc; simpl; [reflexivity|]. rewrite Hc. reflexivity.
  - change (rstrip (c :: d :: r)) with
      (match rstrip (d :: r) with [] => if is_space c then [] else [c] | x => c :: x end).
    rewrite IH. reflexivity.
Qed.

Lemma sub_punct_nonpunct (s : str) : nonpunct (sub_punct s).
Proof.
  induction s as [|c rest IH]; simpl; [constructor|].
  destruct (is_punct c) eqn:Hc; simpl; [exact IH|]. constructor; assumption.
Qed.

Lemma nonpunct_sub_punct (s : str) : nonpunct s -> sub_punct s = s.
Proof.
  induction 1 as [|c rest Hc _ IH]; simpl; [reflexivity|].
  rewrite Hc. simpl. f_equal. exact IH.
Qed.

Lemma sub_ws_nonpunct (s : str) : forall b, nonpunct s -> nonpunct (sub_ws b s).
Proof.
  induction s as [|c rest IH]; intros b H; simpl; [constructor|].
  inversion H; subst.
  destruct (is_space c); [destruct b|]; repeat constructor; auto; apply IH; auto.
Qed.

Lemma lstrip_nonpunct (s : str) : nonpunct s -> nonpunct (lstrip s).
Proof.
  induction 1 as [|c rest Hc Hrest IH]; simpl; [constructor|].
  destruct (is_space c); [exact IH|]. constructor; assumption.
Qed.

Lemma rstrip_nonpunct (s : str) : nonpunct s -> nonpunct (rstrip s).
Proof.
  induction 1 as [|c rest Hc Hrest IH]; simpl; [constructor|].
  unfold nonpunct in *.
  revert IH. destruct (rstrip rest); intros IH; [destruct (is_space c)|];
    try (constructor; [exact Hc|]); solve [constructor | exact IH].
Qed.

Lemma clean_name_idem (s : str) : clean_name (clean_name s) = clean_name s.
Proof.
  unfold clean_name at 1.
  assert (Hp : nonpunct (clean_name s)).
  { apply rstrip_nonpunct, lstrip_nonpunct, sub_ws_nonpunct, sub_punct_nonpunct. }
  assert (Hc : collapsed (clean_name s)).
  { apply collapsed_rstrip, collapsed_lstrip, sub_ws_collapsed. }
  assert (Hh : head_nonspace (clean_name s)).
  { apply rstrip_head_nonspace, lstrip_head_nonspace. }
  rewrite (nonpunct_sub_punct _ Hp).
  rewrite (collapsed_sub_ws _ false Hc) by discriminate.
  unfold strip. rewrite (head_nonspace_lstrip _ Hh).
  unfold clean_name, strip. apply rstrip_idem.
Qed.

Section Upper.

Variable upper_char : N -> list N.
Hypothesis table_ok : CaseTableOk upper_char.

Lemma upper_cons c (s : str) :
  upper upper_char (c :: s) = upper_char c ++ upper upper_char s.
Proof. reflexivity. Qed.

Lemma upper_app (s t : str) :
  upper upper_char (s ++ t) = upper upper_char s ++ upper upper_char t.
Proof. unfold upper. apply flat_map_app. Qed.

Lemma upper_sub_punct (s : str) :
  sub_punct (upper upper_char s) = upper upper_char (sub_punct s).
Proof.
  induction s as [|c rest IH]; [reflexivity|].
  rewrite upper_cons. unfold sub_punct in *. rewrite List.filter_app, IH.
  cbn [List.filter]. destruct (is_punct c) eqn:Hc; cbn [negb].
  - rewrite (upper_punct _ table_ok c Hc). cbn [List.filter]. rewrite Hc.
    reflexivity.
  - rewrite upper_cons. f_equal.
    apply (nonpunct_sub_punct (upper_char c)), (upper_nonpunct _ table_ok c Hc).
Qed.

Lemma sub_ws_nonspace_app (l x : str) b :
  l <> [] -> Forall (fun d => is_space d = false) l ->
  sub_ws b (l ++ x) = l ++ sub_ws false x.
Proof.
  intros Hne Hl. revert b. induction Hl as [|d l Hd Hl IH]; [congruence|].
  intros b. simpl. rewrite Hd. f_equal.
  destruct l as [|e l]; [reflexivity|]. apply IH. discriminate.
Qed.

Lemma upper_sub_ws (s : str) :
  forall b, sub_ws b (upper upper_char s) = upper upper_char (sub_ws b s).
Proof.
  induction s as [|c rest IH]; intros b; [reflexivity|].
  rewrite upper_cons. simpl. destruct (is_space c) eqn:Hc.
  - rewrite (upper_space _ table_ok c Hc). simpl. rewrite Hc.
    destruct b; [apply IH|].
    rewrite upper_cons, (upper_space _ table_ok 32 eq_refl). simpl.
    f_equal. apply IH.
  - destruct (upper_nonspace _ table_ok c Hc) as [Hne Hall].
    rewrite sub_ws_nonspace_app by assumption.
    rewrite upper_cons, IH. reflexivity.
Qed.

Lemma upper_lstrip (s : str) :
  lstrip (upper upper_char s) = upper upper_char (lstrip s).
Proof.
  induction s as [|c rest IH]; [reflexivity|].
  rewrite upper_cons. simpl. destruct (is_space c) eqn:Hc.
  - rewrite (upper_space _ table_ok c Hc). simpl. rewrite Hc. exact IH.
  - destruct (upper_nonspace _ table_ok c Hc) as [Hne Hall].
    rewrite upper_cons.
    destruct (upper_char c) as [|d l]; [congruence|].
    inversion Hall as [|? ? Hd _]; subst. simpl. rewrite Hd. reflexivity.
Qed.

Lemma rstrip_app (l x : str) :
  rstrip (l ++ x) = match rstrip x with [] => rstrip l | r => l ++ r end.
Proof.
  induction l as [|c l IH]; simpl.
  - destruct (rstrip x); reflexivity.
  - rewrite IH. destruct (rstrip x); [reflexivity|]. destruct l; reflexivity.
Qed.

Lemma rstrip_nonspace (l : str) :
  Forall (fun d => is_space d = false) l -> rstrip l = l.
Proof.
  induction 1 as [|d l Hd _ IH]; simpl; [reflexivity|].
  rewrite IH, Hd. destruct l; reflexivity.
Qed.

Lemma rstrip_exists_nonspace (s : str) :
  rstrip s <> [] -> Exists (fun d => is_space d = false) (rstrip s).
Proof.
  induction s as [|c rest IH]; simpl; [congruence|].
  destruct (rstrip rest) as [|d r].
  - destruct (is_space c) eqn:Hc; [congruence|]. intros _. left. exact Hc.
  - intros _. right. apply IH. discriminate.
Qed.

Lemma upper_nonempty (s : str) :
  Exists (fun d => is_space d = false) s -> upper upper_char s <> [].
Proof.
  induction 1 as [d l Hd | d l _ IH]; rewrite upper_cons; intros Heq;
    apply app_eq_nil in Heq as [H1 H2].
  - destruct (upper_nonspace _ table_ok d Hd) as [Hne _]. congruence.
  - auto.
Qed.

Lemma upper_rstrip (s : str) :
  rstrip (upper upper_char s) = upper upper_char (rstrip s).
Proof.
  induction s as [|c rest IH]; [reflexivity|].
  rewrite upper_cons, rstrip_app, IH. simpl.
  destruct (rstrip rest) as [|d r] eqn:Hr.
  - simpl. destruct (is_space c) eqn:Hc.
    + rewrite (upper_space _ table_ok c Hc). simpl. rewrite Hc. reflexivity.
    + rewrite upper_cons. simpl. rewrite app_nil_r.
      apply rstrip_nonspace, (upper_nonspace _ table_ok c Hc).
  - assert (Hne : upper upper_char (d :: r) <> []).
    { apply upper_nonempty. rewrite <- Hr. apply rstrip_exists_nonspace.
      rewrite Hr. discriminate. }
    destruct (upper upper_char (d :: r)) as [|e u] eqn:Hu; [congruence|].
    rewrite upper_cons. rewrite Hu. reflexivity.
Qed.

Lemma upper_fixed_list (l : str) :
  (forall d, In d l -> upper_char d = [d]) -> upper upper_char l = l.
Proof.
  induction l as [|d l IH]; intros H; [reflexivity|].
  rewrite upper_cons, (H d) by (left; reflexivity). simpl. f_equal.
  apply IH. intros e He. apply H. right. exact He.
Qed.

Lemma upper_idem (s : str) :
  upper upper_char (upper upper_char s) = upper upper_char s.
Proof.
  induction s as [|c rest IH]; [reflexivity|].
  rewrite upper_cons, upper_app, IH. f_equal.
  apply upper_fixed_list. intros d Hd. exact (upper_fixed _ table_ok c d Hd).
Qed.

Lemma upper_clean_name (s : str) :
  clean_name (upper upper_char s) = upper upper_char (clean_name s).
Proof.
  unfold clean_name, strip.
  rewrite upper_sub_punct, upper_sub_ws, upper_lstrip, upper_rstrip.
  reflexivity.
Qed.

End Upper.

Lemma is_space_true c :
  is_space c = true <->
  (9 <= c <= 13 \/ 28 <= c <= 32 \/ c = 133 \/ c = 160 \/ c = 5760 \/
   8192 <= c <= 8202 \/ c = 8232 \/ c = 8233 \/ c = 8239 \/ c = 8287 \/
   c = 12288).
Proof.
  unfold is_space.
  rewrite !orb_true_iff, !andb_true_iff, !N.leb_le, !N.eqb_eq. lia.
Qed.

Lemma is_punct_true c :
  is_punct c = true <-> (c = 46 \/ c = 45 \/ c = 47 \/ c = 92).
Proof.
  unfold is_punct. rewrite !orb_true_iff, !N.eqb_eq. lia.
Qed.

Lemma is_space_false c :
  is_space c = false <-> ~ is_space c = true.
Proof. destruct (is_space c); split; congruence. Qed.

Lemma is_punct_false c :
  is_punct c = false <-> ~ is_punct c = true.
Proof. destruct (is_punct c); split; congruence. Qed.

Lemma ascii_upper_char_cases c :
  (97 <= c <= 122 /\ ascii_upper_char c = [c - 32]) \/
  (~ 97 <= c <= 122 /\ ascii_upper_char c = [c]).
Proof.
  unfold ascii_upper_char.
  destruct ((97 <=? c) && (c <=? 122)) eqn:E; [left|right]; split; auto.
  - apply andb_true_iff in E. rewrite !N.leb_le in E. exact E.
  - apply andb_false_iff in E. rewrite !N.leb_gt in E. lia.
Qed.

Lemma ascii_table_ok : CaseTableOk ascii_upper_char.
Proof.
  split.
  - intros c Hc. apply is_space_true in Hc.
    destruct (ascii_upper_char_cases c) as [[H ->]|[H ->]]; [lia|reflexivity].
  - intros c Hc. apply is_punct_true in Hc.
    destruct (ascii_upper_char_cases c) as [[H ->]|[H ->]]; [lia|reflexivity].
  - intros c Hc. split.
    + destruct (ascii_upper_char_cases c) as [[H ->]|[H ->]]; discriminate.
    + destruct (ascii_upper_char_cases c) as [[H ->]|[H ->]];
        (constructor; [|constructor]); [|exact Hc].
      apply is_space_false. rewrite is_space_true. lia.
  - intros c Hc.
    destruct (ascii_upper_char_cases c) as [[H ->]|[H ->]];
      (constructor; [|constructor]); [|exact Hc].
    apply is_punct_false. rewrite is_punct_true. lia.
  - intros c d.
    destruct (ascii_upper_char_cases c) as [[H ->]|[H ->]]; intros [<-|[]].
    + destruct (ascii_upper_char_cases (c - 32)) as [[H' _]|[_ ->]];
        [lia|reflexivity].
    + destruct (ascii_upper_char_cases c) as [[H' _]|[_ ->]];
        [lia|reflexivity].
Qed.

(** C10.  Issuer-name standardisation is idempotent: for every input string
    [s], standardising the standardised name returns it unchanged (for every
    uppercase table that fixes whitespace and the stripped punctuation, keeps
    other characters outside these two classes, and is itself idempotent). *)
Theorem standardize_company_name_idempotent upper_char (s : str) :
  CaseTableOk upper_char ->
  standardize_company_name upper_char (standardize_company_name upper_char s)
  = standardize_company_name upper_char s.
Proof.
  intros Hok. unfold standardize_company_name.
  fold (clean_name s). fold (clean_name (upper upper_char (clean_name s))).
  rewrite (upper_clean_name _ Hok), clean_name_idem.
  apply (upper_idem _ Hok).
Qed.

Lemma standardize_company_name_idempotent_witness :
  CaseTableOk ascii_upper_char /\
  standardize_company_name ascii_upper_char
    (standardize_company_name ascii_upper_char (lit "  Empresa   Teste S/A. - ltda "))
  = standardize_company_name ascii_upper_char (lit "  Empresa   Teste S/A. - ltda ").
Proof.
  split; [exact ascii_table_ok|].
  apply (standardize_company_name_idempotent ascii_upper_char _ ascii_table_ok).
Defined.

(** * The extractor *)

Example get_xml_info_sample :
  get_xml_info env0 0 (Some sample_xml) = Some sample_info.
Proof. vm_compute. reflexivity. Qed.

Example tipo_of_modelo_values :
  tipo_of_modelo (Some (lit "55")) = lit "NFE" /\
  tipo_of_modelo (Some (lit "65")) = lit "NFCE" /\
  tipo_of_modelo (Some (lit "59")) = lit "MOD59".
Proof. repeat split; vm_compute; reflexivity. Qed.

Lemma str_eqb_true (a b : str) : str_eqb a b = true <-> a = b.
Proof. unfold str_eqb. apply bool_decide_eq_true. Qed.

Lemma str_eqb_false (a b : str) : str_eqb a b = false <-> a <> b.
Proof. unfold str_eqb. apply bool_decide_eq_false. Qed.



Lemma Forall_flat_map_iter (P : Element -> Prop) (cs : list Element) :
  Forall (fun c => Forall P (iter c)) cs -> Forall P (List.flat_map iter cs).
Proof.
  induction 1 as [|c cs Hc _ IH]; simpl; [constructor|].
  apply Forall_app. split; assumption.
Qed.













(** * The audit functions and the issuer upsert *)

Lemma update_processing_status_up env id st et em kw w :
  db_up env = true ->
  update_processing_status env id st et em kw w =
  set_processing_audit
    (alter (apply_update st et em kw) id (processing_audit w)) (audit_seq w) w.
Proof. unfold update_processing_status. intros ->. reflexivity. Qed.

Lemma get_or_create_company_frame env q k c n w o w' :
  get_or_create_company env q k c n w = (o, w') ->
  files w' = files w /\ nota_fiscal w' = nota_fiscal w /\
  processing_audit w' = processing_audit w /\ audit_seq w' = audit_seq w /\
  processing_attempts w' = processing_attempts w /\
  processed_hashes w' = processed_hashes w /\
  processed_keys w' = processed_keys w /\
  now w' = now w /\ sleeps w' = sleeps w /\ log w' = log w.
Proof.
  unfold get_or_create_company. intros H.
  repeat case_match; simplify_eq; simpl; repeat split; reflexivity.
Qed.

Lemma get_or_create_company_cache env q k c n w id w' :
  get_or_create_company env q k c n w = (Some id, w') ->
  company_cache w' !! c = Some (id, standardize_company_name (upper_char env) n).
Proof.
  unfold get_or_create_company. intros H.
  repeat case_match; simplify_eq; simpl; try apply lookup_insert_eq.
  match goal with H : str_eqb _ _ = true |- _ => apply bool_decide_eq_true in H end.
  congruence.
Qed.

(** * One attempt *)

Ltac company_frame :=
  match goal with
  | H : get_or_create_company _ _ _ _ _ _ = (Some _, _) |- _ =>
      pose proof (get_or_create_company_cache _ _ _ _ _ _ _ _ H);
      destruct (get_or_create_company_frame _ _ _ _ _ _ _ _ H)
        as (?&?&?&?&?&?&?&?&?&?); clear H
  | H : get_or_create_company _ _ _ _ _ _ = (None, _) |- _ =>
      destruct (get_or_create_company_frame _ _ _ _ _ _ _ _ H)
        as (?&?&?&?&?&?&?&?&?&?); clear H
  end.

Ltac rewrite_frame :=
  repeat match goal with H : _ ?w' = _ ?w |- _ => rewrite H end.

Ltac status_is st w id :=
  exists st; split; [simpl; tauto|]; rewrite !lookup_alter_eq;
  destruct (processing_audit w !! id); reflexivity.

Ltac unfold_attempt Hdb :=
  unfold run_attempt, atomic_process_file, insert_and_move, calculate_file_hash,
    unexpected_error, rollback_after_move_failure, shutil_move, unlink, ET_parse,
    update_processing_status, record_attempt;
  rewrite Hdb;
  cbn [files set_processing_audit set_files logger processed_hashes
       processed_keys now nota_fiscal set_nota_fiscal].

(** Every attempt ends in exactly one of the three kinds of outcome. *)
Lemma run_attempt_spec env q id k w res w' :
  db_up env = true ->
  run_attempt env q id k w = (res, w') ->
  attempt_failed q id w res w' \/ attempt_duplicate q id w res w' \/
  attempt_succeeded env q id k w res w'.
Proof.
  intros Hdb. unfold_attempt Hdb. intros H.
  repeat case_match; simplify_eq; try company_frame; cbn in *.
  all: try (left; unfold attempt_failed, audit_status; cbn; rewrite_frame; cbn;
            repeat split; try reflexivity; try congruence;
            first [ status_is PROCESSING w id | status_is PARSED w id
                  | status_is DB_INSERTED w id ]).
  all: try (right; left; unfold attempt_duplicate, audit_status; cbn;
            rewrite_frame; cbn;
            repeat split; try reflexivity; try congruence; eauto;
            rewrite !lookup_alter_eq; destruct (processing_audit w !! id);
            reflexivity).
  right; right. split; [reflexivity|].
  match goal with
  | Hc : company_cache _ !! _ = Some (_, ?s),
    Hc' : company_cache _ !! _ = Some (_, standardize_company_name _ _),
    Hf : files w !! q = Some ?f1, Hf' : files w !! q = Some ?f0,
    Hf2 : files ?w2 !! q = Some ?f, Hw2 : files ?w2 = files w,
    Hd : bool_decide (is_Some (files ?w2 !! _)) = false |- _ =>
      rewrite Hc in Hc'; injection Hc' as -> ->;
      rewrite Hf in Hf'; injection Hf' as <-;
      rewrite Hw2, Hf in Hf2; injection Hf2 as <-;
      apply bool_decide_eq_false in Hd; rewrite Hw2 in Hd;
      exists f1
  end.
  eexists _, _. split; [eassumption|]. split; [eassumption|].
  unfold audit_status, audit_destination. cbn. rewrite_frame. cbn.
  repeat split; try reflexivity; try assumption.
  - destruct (files w !! destination_of _ _ _) eqn:E; [|reflexivity].
    exfalso. eauto.
  - rewrite !lookup_alter_eq. destruct (processing_audit w !! id); reflexivity.
  - rewrite !lookup_alter_eq. destruct (processing_audit w !! id); reflexivity.
  - eexists. split; [apply in_or_app; right; left; reflexivity|].
    repeat split; reflexivity.
Qed.

(** What every attempt leaves alone, and the attempt row that it appends. *)
Lemma run_attempt_frame env q id k w res w' :
  db_up env = true ->
  run_attempt env q id k w = (res, w') ->
  now w' = now w /\ sleeps w' = sleeps w /\ audit_seq w' = audit_seq w /\
  exists msg,
    processing_attempts w' = processing_attempts w ++
      [{| t_audit_id := id; t_attempt_number := k;
          t_status := if res.1.1 then SUCCESS else FAILED_MOVE;
          t_error_type := res.2; t_error_message := msg |}].
Proof.
  intros Hdb. unfold_attempt Hdb. intros H.
  repeat case_match; simplify_eq; try company_frame; cbn in *; rewrite_frame;
    repeat split; try reflexivity; eexists; reflexivity.
Qed.

(** * The retry loop *)

Lemma fmap_const_standing {B} id w w0 (b : B) :
  same_standing id w w0 ->
  (fun _ => b) <$> audit_status id w0 = (fun _ => b) <$> audit_status id w.
Proof.
  intros (_ & _ & _ & [H1 H2]).
  destruct (audit_status id w0), (audit_status id w); simpl; try reflexivity.
  - destruct H1 as [? [=]]. eauto.
  - destruct H2 as [? [=]]. eauto.
Qed.

Lemma same_standing_refl id w : same_standing id w w.
Proof. repeat split; auto. Qed.

Lemma attempt_failed_standing q id w w0 res w1 :
  same_standing id w w0 -> attempt_failed q id w0 res w1 ->
  attempt_failed q id w res w1 /\ same_standing id w w1.
Proof.
  intros Hs (Hr & Hf & Hh & Hk & st & Hst & Ha).
  pose proof Hs as (Hf0 & Hh0 & Hk0 & Hi).
  rewrite (fmap_const_standing _ _ _ _ Hs) in Ha.
  split.
  - repeat split; try congruence. exists st. auto.
  - repeat split; try congruence; rewrite Ha; intros [? E];
      destruct (audit_status id w); simpl in *; eauto; discriminate.
Qed.

Lemma attempt_duplicate_standing q id w w0 res w1 :
  same_standing id w w0 -> attempt_duplicate q id w0 res w1 ->
  attempt_duplicate q id w res w1.
Proof.
  intros Hs (Hr & Hm & Hf & Hh & Hk & Ha).
  pose proof Hs as (Hf0 & Hh0 & Hk0 & Hi).
  rewrite (fmap_const_standing _ _ _ _ Hs) in Ha.
  repeat split; congruence.
Qed.

Lemma attempt_succeeded_standing env q id k w w0 res w1 :
  same_standing id w w0 -> attempt_succeeded env q id k w0 res w1 ->
  attempt_succeeded env q id k w res w1.
Proof.
  intros Hs (Hr & f & info & t & Hq & Hx & Hd & Hm & Hf & Hh & Hk & Ha & Hdst & Hn).
  pose proof Hs as (Hf0 & Hh0 & Hk0 & Hi).
  rewrite (fmap_const_standing _ _ _ _ Hs) in Ha.
  rewrite (fmap_const_standing _ _ _ _ Hs) in Hdst.
  split; [assumption|]. exists f, info, t.
  rewrite <- Hf0, <- Hh0, <- Hk0. repeat split; assumption.
Qed.

(** The dead-letter branch after a failed attempt. *)
Lemma move_to_dead_letter_spec env q id w w1 res msg et :
  db_up env = true ->
  attempt_failed q id w res w1 ->
  let w' := move_to_dead_letter env q id msg et w1 in
  attempts_exhausted env q id w w' /\
  sleeps w' = sleeps w1 /\ processing_attempts w' = processing_attempts w1.
Proof.
  intros Hdb (Hr & Hf & Hh & Hk & st & Hst & Ha).
  unfold move_to_dead_letter, shutil_move, update_processing_status.
  rewrite Hdb. cbn [files logger]. rewrite Hf.
  unfold attempts_exhausted.
  destruct (dead_letter_move_fails env q) eqn:Hdl.
  - cbn. repeat split; try assumption. right. split; [auto|].
    split; [assumption|]. exists st. auto.
  - destruct (files w !! q) as [f|] eqn:Hq.
    + cbn. repeat split; try assumption. left. exists f.
      repeat split; try reflexivity.
      * unfold audit_status in *. cbn. rewrite lookup_alter_eq.
        destruct (processing_audit w1 !! id), (processing_audit w !! id);
          simpl in *; try reflexivity; discriminate.
      * unfold audit_destination, audit_status in *. cbn. rewrite lookup_alter_eq.
        destruct (processing_audit w1 !! id), (processing_audit w !! id);
          simpl in *; try reflexivity; discriminate.
    + cbn. repeat split; try assumption. right. split; [auto|].
      split; [assumption|]. exists st. auto.
Qed.

Lemma seq_map_cons (f : nat -> Z) a m :
  f a :: map f (seq (S a) m) = map f (seq a (S m)).
Proof. reflexivity. Qed.

(** The loop of [process_single_file_with_retry], started at attempt [a] with
    [n] attempts left, the last one being attempt [MAX_RETRY_ATTEMPTS].  [w0]
    is the world in which this part of the loop starts and [w] a world that
    only failed attempts separate from it. *)
Lemma retry_loop_spec env q id n :
  forall a result w w0 r' w',
  db_up env = true ->
  (a + n = S (MAX_RETRY_ATTEMPTS env))%nat -> (0 < n)%nat ->
  same_standing id w w0 ->
  retry_loop env (seq a n) q id result w0 = (r', w') ->
  r_file r' = r_file result /\ r_audit_id r' = r_audit_id result /\
  (a <= r_attempts r' <= MAX_RETRY_ATTEMPTS env)%nat /\
  sleeps w' = sleeps w0 ++ map (backoff env) (seq a (r_attempts r' - a)) /\
  length (processing_attempts w') =
    (length (processing_attempts w0) + S (r_attempts r' - a))%nat /\
  ((r_status r' = lit "sucesso" /\
    exists res, attempt_duplicate q id w res w' \/
                attempt_succeeded env q id (r_attempts r') w res w')
   \/
   (r_status r' = r_status result /\
    r_attempts r' = MAX_RETRY_ATTEMPTS env /\
    attempts_exhausted env q id w w')
   \/
   (r_status r' = r_status result /\
    (r_attempts r' < MAX_RETRY_ATTEMPTS env)%nat /\
    (backoff env (r_attempts r') < 0)%Z /\
    exists res, attempt_failed q id w res w')).
Proof.
  induction n as [|n IH]; intros a result w w0 r' w' Hdb Han Hn Hs; [lia|].
  cbn [seq retry_loop].
  destruct (run_attempt env q id a w0) as [[[success error_msg] error_type] w1] eqn:Hrun.
  destruct (run_attempt_frame _ _ _ _ _ _ _ Hdb Hrun) as (Hnow & Hsl & Hseq & msg & Hatt).
  pose proof (run_attempt_spec _ _ _ _ _ _ _ Hdb Hrun) as Hspec.
  destruct success.
  - (* the attempt reports success *)
    intros [= <- <-]. cbn [r_file r_audit_id r_attempts r_status with_sucesso with_attempts].
    rewrite Nat.sub_diag, Hsl, Hatt, length_app. cbn [seq map length].
    rewrite app_nil_r. repeat split; try lia.
    left. split; [reflexivity|]. eexists.
    destruct Hspec as [Hf | [Hd | Hsuc]].
    + destruct Hf as [Hf _]. discriminate.
    + left. eapply attempt_duplicate_standing; eassumption.
    + right. eapply attempt_succeeded_standing; eassumption.
  - (* the attempt failed *)
    destruct Hspec as [Hf | [Hd | Hsuc]];
      [ | destruct Hd as [Hd _]; discriminate
        | destruct Hsuc as [Hsuc _]; discriminate ].
    destruct (attempt_failed_standing _ _ _ _ _ _ Hs Hf) as [Hfw Hs1].
    destruct (Nat.ltb a (MAX_RETRY_ATTEMPTS env)) eqn:Hlt.
    + apply Nat.ltb_lt in Hlt.
      destruct (backoff env a <? 0)%Z eqn:Hneg.
      * (* a negative delay makes [time.sleep] raise *)
        apply Z.ltb_lt in Hneg.
        intros [= <- <-]. cbn [r_file r_audit_id r_attempts r_status with_sucesso with_attempts logger sleeps
                                processing_attempts].
        rewrite Nat.sub_diag, Hsl, Hatt, length_app. cbn [seq map length].
        rewrite app_nil_r. repeat split; try lia.
        right; right. repeat split; try assumption.
        eexists. exact Hfw.
      * (* back off and try again *)
        intros Hloop.
        apply (IH (S a) _ w) in Hloop; [| assumption | lia | lia | exact Hs1 ].
        destruct Hloop as (Hfile & Hid & Hrange & Hsleeps & Hlen & Hout).
        cbn [r_file r_audit_id r_status with_sucesso with_attempts] in *.
        cbn [sleep logger sleeps processing_attempts] in Hsleeps, Hlen.
        rewrite Hsl in Hsleeps. rewrite Hatt, length_app in Hlen.
        cbn [length] in Hlen.
        replace (r_attempts r' - a)%nat with (S (r_attempts r' - S a)) by lia.
        rewrite <- seq_map_cons.
        rewrite <- app_assoc in Hsleeps. cbn [app] in Hsleeps.
        repeat split; try assumption; lia.
    + (* the last attempt: dead letter *)
      apply Nat.ltb_ge in Hlt.
      assert (n = 0%nat) by lia. subst n. cbn [seq retry_loop].
      intros [= <- <-]. cbn [r_file r_audit_id r_attempts r_status with_sucesso with_attempts].
      destruct (move_to_dead_letter_spec env q id w w1 _ error_msg error_type Hdb Hfw)
        as (Hex & Hsl' & Hatt').
      rewrite Hsl', Hatt', Nat.sub_diag, Hsl, Hatt, length_app. cbn [seq map length].
      rewrite app_nil_r. do 5 (split; [first [reflexivity | lia]|]).
      right; left. split; [reflexivity|]. split; [lia|]. exact Hex.
Qed.

(** * The controller *)

(** Either the controller gives up before the loop, or it reaches the loop
    with the file in quarantine and a fresh audit row in status QUARANTINED. *)
Lemma process_single_file_with_retry_cases env source w r w' :
  process_single_file_with_retry env source w = (r, w') ->
  (r_attempts r = 0%nat /\ r_status r = lit "erro" /\
   sleeps w' = sleeps w /\ processing_attempts w' = processing_attempts w /\
   processed_hashes w' = processed_hashes w /\
   processed_keys w' = processed_keys w /\
   (forall id, r_audit_id r = Some id -> audit_status id w' = Some FAILED_PERMANENT))
  \/
  (exists f w0,
     let id := S (audit_seq w) in
     let q := quarantine_path env source w in
     db_up env = true /\
     files w !! source = Some f /\
     files w0 = <[q := f]> (delete source (files w)) /\
     processed_hashes w0 = processed_hashes w /\
     processed_keys w0 = processed_keys w /\
     sleeps w0 = sleeps w /\
     processing_attempts w0 = processing_attempts w /\
     audit_status id w0 = Some QUARANTINED /\
     retry_loop env (seq 1 (MAX_RETRY_ATTEMPTS env)) q id
       {| r_file := path_name source; r_status := lit "erro";
          r_audit_id := Some id; r_attempts := 0 |} w0 = (r, w')).
Proof.
  unfold process_single_file_with_retry, calculate_file_hash,
    create_processing_record, move_to_quarantine, shutil_move,
    update_processing_status.
  destruct (files w !! source) as [f|] eqn:Hsrc; cbn [logger files];
    [|intros [= <- <-]; left; repeat split; auto; discriminate].
  destruct (negb (truthy (file_hash f)));
    [intros [= <- <-]; left; repeat split; auto; discriminate|].
  destruct (db_up env) eqn:Hdb;
    [|intros [= <- <-]; left; repeat split; auto; discriminate].
  cbn [set_processing_audit files now].
  fold (quarantine_path env source w).
  destruct (quarantine_move_fails env source).
  - intros [= <- <-]. left. cbn. repeat split; auto.
    intros id [= <-]. unfold audit_status. cbn.
    rewrite lookup_alter_eq, lookup_insert_eq. reflexivity.
  - rewrite Hsrc. intros Hloop. right. eexists f, _.
    split; [reflexivity|]. split; [reflexivity|].
    split; [|split; [|split; [|split; [|split; [|split; [|exact Hloop]]]]]];
      try reflexivity.
    unfold audit_status. cbn. rewrite lookup_alter_eq, lookup_insert_eq.
    reflexivity.
Qed.

(** * Paths and time stamps *)

Lemma digit_no_slash n : digit n <> 47.
Proof. unfold digit. generalize (n mod 10). intros m. lia. Qed.

Lemma dec_aux_no_slash fuel : forall n acc,
  no_slash acc -> no_slash (dec_aux fuel n acc).
Proof.
  induction fuel as [|fuel IH]; intros n acc H; simpl; [exact H|].
  destruct (n / 10 =? 0).
  - constructor; [apply digit_no_slash | exact H].
  - apply IH. constructor; [apply digit_no_slash | exact H].
Qed.

Lemma dec_no_slash n : no_slash (dec n).
Proof. apply dec_aux_no_slash. constructor. Qed.

Lemma pad2_no_slash n : no_slash (pad2 n).
Proof. repeat constructor; apply digit_no_slash. Qed.

Lemma pad6_no_slash n : no_slash (pad6 n).
Proof. repeat constructor; apply digit_no_slash. Qed.

Lemma lit_underscore_no_slash : no_slash (lit "_").
Proof. repeat constructor. discriminate. Qed.

Lemma fmt_stamp_no_slash d : no_slash (fmt_stamp d).
Proof.
  unfold fmt_stamp, fmt_Y, fmt_m, fmt_d, no_slash.
  rewrite !Forall_app.
  repeat split; first [apply dec_no_slash | apply pad2_no_slash
                      | apply pad6_no_slash | apply lit_underscore_no_slash].
Qed.

Lemma fmt_stamp_length d : (2 <= length (fmt_stamp d))%nat.
Proof. unfold fmt_stamp. rewrite !length_app. simpl. lia. Qed.

Lemma startswith_slash_cons c (s : str) :
  c <> 47 -> startswith (lit "/") (c :: s) = false.
Proof.
  intros H. change (((47 =? c) && true) = false).
  destruct (N.eqb_spec 47 c); [congruence|reflexivity].
Qed.

Lemma startswith_slash_no_slash (s : str) :
  no_slash s -> startswith (lit "/") s = false.
Proof.
  destruct s as [|c s]; [reflexivity|]. intros H. inversion H; subst.
  apply startswith_slash_cons. assumption.
Qed.

Lemma split_on_no_sep sep (s : str) :
  Forall (fun c => c <> sep) s -> split_on sep s = [s].
Proof.
  induction 1 as [|c s Hc _ IH]; simpl; [reflexivity|].
  destruct (N.eqb_spec c sep); [congruence|]. rewrite IH. reflexivity.
Qed.




Lemma parts_of_single (s : str) :
  no_slash s -> (2 <= length s)%nat -> parts_of s = [s].
Proof.
  intros H Hlen. unfold parts_of. rewrite (split_on_no_sep _ _ H). simpl.
  assert (Ht : truthy s = true) by (destruct s; [simpl in Hlen; lia | reflexivity]).
  assert (Hd : str_eqb s (lit ".") = false).
  { apply bool_decide_eq_false. intros ->. simpl in Hlen. lia. }
  rewrite Ht, Hd. reflexivity.
Qed.

Lemma truediv_relative (p : Path) (s : str) :
  no_slash s -> p </> s = p ++ parts_of s.
Proof.
  intros H. unfold truediv. rewrite (startswith_slash_no_slash _ H). reflexivity.
Qed.

Lemma quarantine_segment_no_slash env source w :
  no_slash (path_name source) ->
  no_slash (fmt_stamp (localtime env (now w)) ++ lit "_" ++ path_name source).
Proof.
  intros H. unfold no_slash. rewrite !Forall_app.
  repeat split; [apply fmt_stamp_no_slash | apply lit_underscore_no_slash | exact H].
Qed.

(** The quarantine name of a file is its own name behind the time stamp. *)
Lemma quarantine_path_name env source w :
  no_slash (path_name source) ->
  path_name (quarantine_path env source w)
  = fmt_stamp (localtime env (now w)) ++ lit "_" ++ path_name source.
Proof.
  intros H. unfold quarantine_path.
  pose proof (quarantine_segment_no_slash env source w H) as Hx.
  rewrite (truediv_relative _ _ Hx), parts_of_single; [| exact Hx |].
  - unfold path_name. apply List.last_last.
  - rewrite length_app. pose proof (fmt_stamp_length (localtime env (now w))). lia.
Qed.






(** * The idempotency caches *)

Lemma fold_left_union_elem {A} (g : A -> str) (l : list A) (s : gset str) h :
  h ∈ fold_left (fun s n => {[g n]} ∪ s) l s <-> h ∈ s \/ exists n, In n l /\ g n = h.
Proof.
  revert s. induction l as [|x l IH]; intros s; simpl.
  - split; [auto | intros [H | (n & [] & _)]; exact H].
  - rewrite IH. rewrite elem_of_union, elem_of_singleton. split.
    + intros [[-> | H] | (n & Hn & Hg)]; eauto.
    + intros [H | (n & [-> | Hn] & Hg)]; eauto.
Qed.

(** [atomic_process_file] writes the caches on its success path only, after
    the move; this holds whether or not the audit table can be written. *)
Lemma atomic_process_file_caches env q id k w res w' :
  atomic_process_file env q id k w = (res, w') ->
  (res <> (true, None, None) /\
   processed_hashes w' = processed_hashes w /\
   processed_keys w' = processed_keys w)
  \/
  (res = (true, None, None) /\
   exists f info,
     files w !! q = Some f /\
     get_xml_info env (now w) (file_xml f) = Some info /\
     move_fails env q k = false /\
     files w' !! destination_of
       (standardize_company_name (upper_char env) (empresa_nome_xml info)) info q
       = Some f /\
     processed_hashes w' = {[file_hash f]} ∪ processed_hashes w /\
     processed_keys w' = {[chave_acesso info]} ∪ processed_keys w).
Proof.
  unfold atomic_process_file, insert_and_move, calculate_file_hash,
    unexpected_error, rollback_after_move_failure, shutil_move, unlink, ET_parse,
    update_processing_status.
  intros H.
  destruct (db_up env);
    cbn [files set_processing_audit set_files logger processed_hashes
         processed_keys now nota_fiscal set_nota_fiscal] in H;
    repeat case_match; simplify_eq; try company_frame; cbn in *; rewrite_frame;
    try (left; split; [discriminate | split; reflexivity]).
  all: right; split; [reflexivity|];
    match goal with
    | Hc : company_cache ?w2 !! _ = Some (_, ?s),
      Hc' : company_cache ?w2 !! _ = Some (_, standardize_company_name _ _),
      Hf : files ?w !! ?q = Some ?f1,
      Hf2 : files ?w2 !! ?q = Some ?f, Hw2 : files ?w2 = files ?w |- _ =>
        rewrite Hc in Hc'; injection Hc' as -> ->;
        rewrite Hw2, Hf in Hf2; injection Hf2 as <-;
        exists f1
    end;
    eexists; repeat split; try eassumption; try reflexivity;
    apply lookup_insert_eq.
Qed.

(** What the controller leaves in the caches and in the audit row, by way of
    ending. *)
Lemma process_single_file_with_retry_caches env source w r w' :
  process_single_file_with_retry env source w = (r, w') ->
  (processed_hashes w' = processed_hashes w /\
   processed_keys w' = processed_keys w /\
   forall id, r_audit_id r = Some id -> audit_status id w' <> Some SUCCESS)
  \/
  (exists id f res,
     r_status r = lit "sucesso" /\ r_audit_id r = Some id /\
     files w !! source = Some f /\
     exists w0,
       files w0 = <[quarantine_path env source w := f]> (delete source (files w)) /\
       processed_hashes w0 = processed_hashes w /\
       processed_keys w0 = processed_keys w /\
       audit_status id w0 = Some QUARANTINED /\
       attempt_succeeded env (quarantine_path env source w) id (r_attempts r) w0 res w').
Proof.
  intros Hrun.
  destruct (process_single_file_with_retry_cases _ _ _ _ _ Hrun)
    as [(Ha & Hst & Hsl & Hatt & Hh & Hk & Hfp)
       | (f & w0 & Hdb & Hsrc & Hf0 & Hh0 & Hk0 & Hsl0 & Hatt0 & Hst0 & Hloop)].
  - left. split; [assumption|]. split; [assumption|].
    intros id Hid. rewrite (Hfp id Hid). discriminate.
  - destruct (MAX_RETRY_ATTEMPTS env) as [|m] eqn:Hmax.
    + cbn [seq retry_loop] in Hloop. injection Hloop as <- <-.
      left. split; [assumption|]. split; [assumption|].
      intros id [= <-]. rewrite Hst0. discriminate.
    + rewrite <- Hmax in Hloop.
      apply (retry_loop_spec env _ _ _ 1%nat _ w0 w0) in Hloop;
        [| assumption | lia | lia | apply same_standing_refl ].
      destruct Hloop as (_ & Hid & _ & _ & _ & Hout). cbn [r_audit_id] in Hid.
      destruct Hout as [(Hs & res & [Hd | Hsuc]) | [(_ & _ & Hex) | (_ & _ & _ & res & Hf)]].
      * destruct Hd as (_ & _ & _ & Hh & Hk & Hst).
        left. split; [congruence|]. split; [congruence|].
        intros id Hid'. rewrite Hid in Hid'. injection Hid' as <-.
        rewrite Hst, Hst0. discriminate.
      * right. exists (S (audit_seq w)), f, res.
        split; [assumption|]. split; [exact Hid|]. split; [assumption|].
        exists w0. do 4 (split; [assumption|]). exact Hsuc.
      * destruct Hex as (Hh & Hk & [(f' & _ & _ & _ & Hst & _) | (_ & _ & st & Hin & Hst)]);
          left; (split; [congruence|]); (split; [congruence|]);
          intros id Hid'; rewrite Hid in Hid'; injection Hid' as <-;
          rewrite Hst, Hst0; simpl.
        -- discriminate.
        -- simpl in Hin. destruct Hin as [<- | [<- | [<- | []]]]; discriminate.
      * destruct Hf as (_ & _ & Hh & Hk & st & Hin & Hst).
        left. split; [congruence|]. split; [congruence|].
        intros id Hid'. rewrite Hid in Hid'. injection Hid' as <-.
        rewrite Hst, Hst0. simpl.
        simpl in Hin. destruct Hin as [<- | [<- | [<- | []]]]; discriminate.
Qed.

(** C9.  The caches of processed content hashes and access keys are filled
    from the catalog by [load_caches]; afterwards [atomic_process_file] adds
    to them on its success path only, once the file has been moved to its
    destination, and a run of the controller that does not end in SUCCESS
    (a failure, a dead-lettered file or a duplicate) leaves both caches as
    they were. *)
Theorem caches_grow_only_on_success env :
  (forall w, db_up env = true ->
     (forall h, h ∈ processed_hashes (load_caches env w) <->
                h ∈ processed_hashes w \/
                exists n, In n (nota_fiscal w) /\ nf_hash_arquivo n = h) /\
     (forall c, c ∈ processed_keys (load_caches env w) <->
                c ∈ processed_keys w \/
                exists n, In n (nota_fiscal w) /\ nf_chave_acesso n = c)) /\
  (forall q id k w res w',
     atomic_process_file env q id k w = (res, w') ->
     (res <> (true, None, None) /\
      processed_hashes w' = processed_hashes w /\
      processed_keys w' = processed_keys w)
     \/
     (res = (true, None, None) /\
      exists f info,
        files w !! q = Some f /\
        get_xml_info env (now w) (file_xml f) = Some info /\
        move_fails env q k = false /\
        files w' !! destination_of
          (standardize_company_name (upper_char env) (empresa_nome_xml info)) info q
          = Some f /\
        processed_hashes w' = {[file_hash f]} ∪ processed_hashes w /\
        processed_keys w' = {[chave_acesso info]} ∪ processed_keys w)) /\
  (forall source w r w',
     process_single_file_with_retry env source w = (r, w') ->
     (processed_hashes w' = processed_hashes w /\
      processed_keys w' = processed_keys w /\
      forall id, r_audit_id r = Some id -> audit_status id w' <> Some SUCCESS)
     \/
     (exists id f info t,
        r_audit_id r = Some id /\ audit_status id w' = Some SUCCESS /\
        files w !! source = Some f /\
        get_xml_info env t (file_xml f) = Some info /\
        files w' !! destination_of
          (standardize_company_name (upper_char env) (empresa_nome_xml info)) info
          (quarantine_path env source w) = Some f /\
        processed_hashes w' = {[file_hash f]} ∪ processed_hashes w /\
        processed_keys w' = {[chave_acesso info]} ∪ processed_keys w)).
Proof.
  split; [|split].
  - intros w Hdb. unfold load_caches. rewrite Hdb. cbn.
    split; intros x; apply fold_left_union_elem.
  - intros q id k w res w'. apply atomic_process_file_caches.
  - intros source w r w' Hrun.
    destruct (process_single_file_with_retry_caches _ _ _ _ _ Hrun)
      as [H | (id & f & res & Hs & Hid & Hsrc & w0 & Hf0 & Hh0 & Hk0 & Hst0 & Hsuc)];
      [left; exact H|].
    right.
    destruct Hsuc as (_ & f' & info & t & Hq & Hx & Hd & Hm & Hf & Hh & Hk & Hst & _).
    rewrite Hf0, lookup_insert_eq in Hq. injection Hq as <-.
    exists id, f, info, t.
    split; [assumption|].
    split; [rewrite Hst, Hst0; reflexivity|].
    split; [assumption|]. split; [assumption|].
    split; [rewrite Hf; apply lookup_insert_eq|].
    split; congruence.
Qed.

(** * The archive path *)

(** The date fields of an extracted record all print one parsed date. *)
Lemma get_xml_info_dates env t xml info :
  get_xml_info env t xml = Some info ->
  exists d dt,
    strptime env d = Some dt /\
    data_emissao info = fmt_date dt /\
    ano_emissao info = fmt_Y dt /\
    mes_ano_emissao info = fmt_m_Y dt /\
    dia_emissao info = fmt_d dt.
Proof.
  unfold get_xml_info. intros H.
  repeat case_match; simplify_eq. cbn. eexists _, _. eauto.
Qed.

(** C1, as amended.  For every file whose processing reaches SUCCESS, the
    file ends at
    [<ARCHIVE_ROOT>/<ISSUER_NAME> - <TAX_ID>/<KIND>/<YYYY>/<MM-YYYY>/<DD>/<quarantine-name>]
    where [ISSUER_NAME] is the standardised issuer name, the date components
    print the emission date of the document, and the last component is the
    quarantine name of the file: its original name behind the time stamp of
    the quarantine move and an underscore.  The audit row and the document
    row both record this path. *)
Theorem archive_path_of_success env source w r w' id :
  process_single_file_with_retry env source w = (r, w') ->
  no_slash (path_name source) ->
  r_audit_id r = Some id -> audit_status id w' = Some SUCCESS ->
  exists f info t d dt,
    files w !! source = Some f /\
    get_xml_info env t (file_xml f) = Some info /\
    strptime env d = Some dt /\ data_emissao info = fmt_date dt /\
    let dest :=
      DESTINATION_NETWORK_DIRECTORY
        </> (standardize_company_name (upper_char env) (empresa_nome_xml info)
             ++ lit " - " ++ cnpj info)
        </> tipo_documento info
        </> fmt_Y dt </> fmt_m_Y dt </> fmt_d dt
        </> (fmt_stamp (localtime env (now w)) ++ lit "_" ++ path_name source) in
    files w' !! dest = Some f /\
    audit_destination id w' = Some (Some (path_str dest)) /\
    exists n, In n (nota_fiscal w') /\
              nf_chave_acesso n = chave_acesso info /\
              nf_hash_arquivo n = file_hash f /\
              nf_caminho_arquivo n = path_str dest.
Proof.
  intros Hrun Hname Hid Hsuccess.
  destruct (process_single_file_with_retry_caches _ _ _ _ _ Hrun)
    as [(_ & _ & Hno) | (id' & f & res & Hs & Hid' & Hsrc & w0 & Hf0 & Hh0 & Hk0 & Hst0 & Hsuc)].
  - exfalso. exact (Hno id Hid Hsuccess).
  - rewrite Hid in Hid'. injection Hid' as <-.
    destruct Hsuc as (_ & f' & info & t & Hq & Hx & Hd & Hm & Hf & Hh & Hk & Hst & Hdst & Hn).
    rewrite Hf0, lookup_insert_eq in Hq. injection Hq as <-.
    destruct (get_xml_info_dates _ _ _ _ Hx) as (d & dt & Hp & Hde & Hy & Hmy & Hdd).
    exists f, info, t, d, dt.
    split; [assumption|]. split; [assumption|]. split; [assumption|].
    split; [assumption|].
    unfold destination_of in Hf, Hdst, Hn.
    rewrite (quarantine_path_name env source w Hname), Hy, Hmy, Hdd in Hf, Hdst, Hn.
    cbv zeta.
    split; [rewrite Hf; apply lookup_insert_eq|].
    split; [rewrite Hdst, Hst0; reflexivity|].
    exact Hn.
Qed.

(** * The catalog insert and the move *)

Lemma get_or_create_company_ok env q k c n w :
  company_db_fails env q k = false ->
  exists id w', get_or_create_company env q k c n w = (Some id, w').
Proof.
  intros H. unfold get_or_create_company. rewrite H.
  repeat case_match; eauto.
Qed.

(** Under [reaches_insert] the first four phases hand over to
    [insert_and_move], in a world that differs from the initial one by the
    PARSED status and the issuer tables only. *)
Lemma atomic_process_file_reaches_insert env q id k w f info :
  db_up env = true ->
  reaches_insert env q k w f info ->
  exists empresa_id w2,
    atomic_process_file env q id k w =
      insert_and_move env q id k (file_hash f) info empresa_id
        (destination_of
           (standardize_company_name (upper_char env) (empresa_nome_xml info)) info q)
        w2 /\
    files w2 = files w /\ nota_fiscal w2 = nota_fiscal w /\
    processed_hashes w2 = processed_hashes w /\
    processed_keys w2 = processed_keys w /\
    now w2 = now w /\ sleeps w2 = sleeps w /\ log w2 = log w /\
    processing_attempts w2 = processing_attempts w /\
    audit_seq w2 = audit_seq w /\
    audit_status id w2 = (fun _ => PARSED) <$> audit_status id w.
Proof.
  intros Hdb (Hq & Ht & Hh & Hx & Hk & Hc & Hd).
  unfold atomic_process_file, calculate_file_hash, ET_parse.
  rewrite Hq, Ht. cbn [negb].
  rewrite (bool_decide_eq_false_2 _ Hh), Hq, Hx.
  rewrite (bool_decide_eq_false_2 _ Hk).
  destruct (get_or_create_company_ok env q k (cnpj info) (empresa_nome_xml info)
              (update_processing_status env id PARSED None None
                 {| kw_chave_acesso := Some (chave_acesso info);
                    kw_empresa_id := None; kw_final_destination := None |} w) Hc)
    as (eid & w2 & Hg).
  rewrite Hg.
  pose proof (get_or_create_company_cache _ _ _ _ _ _ _ _ Hg) as Hcache.
  destruct (get_or_create_company_frame _ _ _ _ _ _ _ _ Hg)
    as (Hf2 & Hn2 & Ha2 & Hs2 & Hat2 & Hh2 & Hk2 & Hnow2 & Hsl2 & Hlog2).
  unfold update_processing_status in *. rewrite Hdb in *.
  cbn in Hf2, Hn2, Ha2, Hs2, Hat2, Hh2, Hk2, Hnow2, Hsl2, Hlog2.
  rewrite Hcache. cbn beta iota zeta. rewrite Hf2, Hd.
  rewrite bool_decide_eq_false_2 by (intros [? [=]]).
  exists eid, w2. repeat split; try assumption.
  unfold audit_status. rewrite Ha2, lookup_alter_eq.
  destruct (processing_audit w !! id); reflexivity.
Qed.

Lemma violates_unique_false chave hash rows :
  violates_unique chave hash rows = false ->
  forall n, In n rows -> nf_chave_acesso n <> chave /\ nf_hash_arquivo n <> hash.
Proof.
  unfold violates_unique. intros H n Hn.
  assert (Hb : str_eqb (nf_chave_acesso n) chave || str_eqb (nf_hash_arquivo n) hash = false).
  { destruct (str_eqb (nf_chave_acesso n) chave || str_eqb (nf_hash_arquivo n) hash) eqn:E;
      [|reflexivity].
    rewrite <- H. symmetry. apply existsb_exists. exists n. split; assumption. }
  apply orb_false_iff in Hb as [H1 H2].
  split; [exact (bool_decide_eq_false_1 _ H1) | exact (bool_decide_eq_false_1 _ H2)].
Qed.

Lemma delete_nota_fiscal_fresh chave hash rows row :
  violates_unique chave hash rows = false ->
  nf_chave_acesso row = chave ->
  delete_nota_fiscal chave (rows ++ [row]) = rows.
Proof.
  intros H Hrow. unfold delete_nota_fiscal. rewrite List.filter_app. simpl.
  rewrite Hrow. unfold str_eqb at 2. rewrite bool_decide_eq_true_2 by reflexivity.
  simpl. rewrite app_nil_r.
  pose proof (violates_unique_false _ _ _ H) as Hall. clear H.
  induction rows as [|n rows IH]; simpl; [reflexivity|].
  destruct (Hall n (or_introl eq_refl)) as [Hn _].
  unfold str_eqb at 1. rewrite bool_decide_eq_false_2 by assumption. simpl.
  f_equal. apply IH. intros m Hm. apply Hall. right. exact Hm.
Qed.

Lemma reaches_insert_processing env q id k w f info :
  db_up env = true ->
  reaches_insert env q k w f info ->
  reaches_insert env q k
    (update_processing_status env id PROCESSING None None no_kwargs w) f info.
Proof.
  intros Hdb H. rewrite (update_processing_status_up _ _ _ _ _ _ _ Hdb). exact H.
Qed.


(** C4.  When the document insert violates a uniqueness constraint (the
    access key or the content hash is already in the catalog), the attempt
    ends as a DUPLICATE: nothing is added to the catalog, the audit status is
    set to DUPLICATE, the quarantine file is deleted, the attempt reports
    success, and the controller returns at once with status [sucesso], without
    sleeping or running further attempts. *)
Theorem integrity_violation_is_duplicate env q id k w f info res w' :
  db_up env = true ->
  reaches_insert env q k w f info ->
  insert_fails env q k = false ->
  violates_unique (chave_acesso info) (file_hash f) (nota_fiscal w) = true ->
  run_attempt env q id k w = (res, w') ->
  res = (true, Some (lit "Duplicado (BD): " ++ exc_text env q k), None) /\
  nota_fiscal w' = nota_fiscal w /\
  audit_status id w' = (fun _ => DUPLICATE) <$> audit_status id w /\
  files w' = delete q (files w) /\ files w' !! q = None /\
  processed_hashes w' = processed_hashes w /\
  processed_keys w' = processed_keys w /\
  sleeps w' = sleeps w /\
  (forall rest result,
     retry_loop env (k :: rest) q id result w
     = (with_sucesso (with_attempts k result), w')).
Proof.
  intros Hdb Hpre Hins Hdup Hrun.
  pose proof Hrun as Hrun0.
  unfold run_attempt in Hrun.
  destruct (atomic_process_file_reaches_insert env q id k _ f info Hdb
              (reaches_insert_processing env q id k w f info Hdb Hpre))
    as (eid & w2 & Hat & Hf2 & Hn2 & Hh2 & Hk2 & Hnow2 & Hsl2 & Hlog2 & Hatt2 & Hseq2 & Hst2).
  rewrite Hat in Hrun. clear Hat.
  unfold audit_status in *.
  rewrite (update_processing_status_up _ _ _ _ _ _ _ Hdb) in *.
  cbn in Hf2, Hn2, Hh2, Hk2, Hnow2, Hsl2, Hlog2, Hatt2, Hseq2, Hst2.
  unfold insert_and_move in Hrun.
  rewrite Hins, Hn2, Hdup in Hrun.
  unfold update_processing_status, record_attempt, unlink in Hrun.
  rewrite Hdb in Hrun.
  assert (Hres : res = (true, Some (lit "Duplicado (BD): " ++ exc_text env q k), None))
    by (injection Hrun as <- _; reflexivity).
  split; [exact Hres|].
  assert (Hloop : forall rest result,
            retry_loop env (k :: rest) q id result w
            = (with_sucesso (with_attempts k result), w')).
  { intros rest result. cbn [retry_loop]. rewrite Hrun0, Hres. reflexivity. }
  injection Hrun as _ <-.
  split; [cbn; exact Hn2|].
  split.
  { cbn. rewrite !lookup_alter_eq. rewrite lookup_alter_eq in Hst2.
    destruct (processing_audit w2 !! id), (processing_audit w !! id);
      simpl in *; try reflexivity; discriminate. }
  split; [cbn; rewrite Hf2; reflexivity|].
  split; [cbn; rewrite Hf2; apply lookup_delete_eq|].
  split; [cbn; exact Hh2|].
  split; [cbn; exact Hk2|].
  split; [cbn; exact Hsl2|].
  exact Hloop.
Qed.

(** * The retry law *)




(** * The reconciler *)

(** A row looked up after the loop over the stuck records: it was marked lost
    if the loop met its id with a file name found in no staging directory. *)
Lemma reconcile_records_lookup w (l : list (nat * AuditRow)) :
  forall (table : gmap nat AuditRow) id,
  fold_left (reconcile_record w) l table !! id =
  if existsb (fun ir => Nat.eqb (fst ir) id && negb (found_in_staging (a_filename (snd ir)) w)) l
  then mark_lost <$> table !! id
  else table !! id.
Proof.
  induction l as [|[i r] l IH]; intros table id; [reflexivity|].
  cbn [fold_left existsb fst snd]. rewrite IH. unfold reconcile_record.
  cbn [fst snd].
  destruct (found_in_staging (a_filename r) w).
  - rewrite andb_false_r. reflexivity.
  - rewrite andb_true_r. destruct (Nat.eqb_spec i id) as [->|Hne]; cbn [orb].
    + rewrite lookup_alter_eq.
      destruct (existsb _ l); [|reflexivity].
      destruct (table !! id); reflexivity.
    + rewrite lookup_alter_ne by assumption. reflexivity.
Qed.

Lemma stuck_records_elem w id row :
  processing_audit w !! id = Some row -> is_stuck (now w) row = true ->
  In (id, row) (stuck_records w).
Proof.
  intros Hrow Hstuck. unfold stuck_records. apply List.filter_In. split.
  - apply list_elem_of_In, elem_of_map_to_list. exact Hrow.
  - exact Hstuck.
Qed.

Lemma found_in_staging_false filename w :
  (forall directory,
     In directory [QUARANTINE_DIRECTORY; PROCESSING_DIRECTORY; FAILED_DIRECTORY] ->
     files w !! (directory </> filename) = None) ->
  found_in_staging filename w = false.
Proof.
  intros H. unfold found_in_staging. cbn [existsb].
  rewrite !bool_decide_eq_false_2; [reflexivity | | | ];
    rewrite H by (simpl; tauto); intros [? [=]].
Qed.

(** Step 2 of the reconciler marks every stuck record whose file is lost. *)
Lemma reconcile_stuck_records_marks w id row t :
  processing_audit w !! id = Some row ->
  In (a_current_status row) intermediate_statuses ->
  a_last_attempt_at row = Some t -> (t < now w - 600)%Z ->
  (forall directory,
     In directory [QUARANTINE_DIRECTORY; PROCESSING_DIRECTORY; FAILED_DIRECTORY] ->
     files w !! (directory </> a_filename row) = None) ->
  processing_audit (reconcile_stuck_records w) !! id = Some (mark_lost row).
Proof.
  intros Hrow Hst Ht Hold Hlost. unfold reconcile_stuck_records.
  cbn [processing_audit set_processing_audit].
  rewrite reconcile_records_lookup, Hrow.
  assert (Hstuck : is_stuck (now w) row = true).
  { unfold is_stuck. rewrite Ht.
    rewrite bool_decide_eq_true_2 by (apply list_elem_of_In; exact Hst).
    apply Z.ltb_lt in Hold. rewrite Hold. reflexivity. }
  assert (Hex : existsb (fun ir => Nat.eqb (fst ir) id
                  && negb (found_in_staging (a_filename (snd ir)) w))
                (stuck_records w) = true).
  { apply existsb_exists. exists (id, row).
    split; [apply stuck_records_elem; assumption|].
    cbn [fst snd]. rewrite Nat.eqb_refl, (found_in_staging_false _ _ Hlost).
    reflexivity. }
  rewrite Hex. reflexivity.
Qed.

(** C7, as amended.  During a reconciliation run, every audit row whose
    status is one of PENDING, QUARANTINED, PROCESSING, PARSED, DB_INSERTED,
    whose last attempt is more than ten minutes old and whose file name is
    found in none of the quarantine, processing and failed directories is
    set to FAILED_PERMANENT with the message
    [Arquivo perdido durante reconciliação], its other columns unchanged.
    The rows are taken as they stand once the stale quarantine files have
    been processed again. *)
Theorem reconciliation_marks_lost_files env w w1 issues fixed id row t :
  db_up env = true ->
  reprocess_quarantine env (glob_xml QUARANTINE_DIRECTORY w) (w, [], 0%nat)
    = Some (w1, issues, fixed) ->
  processing_audit w1 !! id = Some row ->
  In (a_current_status row) intermediate_statuses ->
  a_last_attempt_at row = Some t -> (t < now w1 - 600)%Z ->
  (forall directory,
     In directory [QUARANTINE_DIRECTORY; PROCESSING_DIRECTORY; FAILED_DIRECTORY] ->
     files w1 !! (directory </> a_filename row) = None) ->
  exists row',
    processing_audit (reconcile_processing_queue env w) !! id = Some row' /\
    row' = mark_lost row /\
    a_current_status row' = FAILED_PERMANENT /\
    a_last_error_message row' = Some LOST_MESSAGE.
Proof.
  intros Hdb Hstep1 Hrow Hst Ht Hold Hlost.
  exists (mark_lost row). split; [|repeat split].
  unfold reconcile_processing_queue. rewrite Hstep1, Hdb. cbn.
  apply (reconcile_stuck_records_marks w1 id row t); assumption.
Qed.

Lemma reconciliation_marks_lost_files_witness :
  exists row',
    processing_audit (reconcile_processing_queue env0 world_stuck) !! 1%nat = Some row' /\
    row' = mark_lost stuck_row /\
    a_current_status row' = FAILED_PERMANENT /\
    a_last_error_message row' = Some LOST_MESSAGE.
Proof.
  apply (reconciliation_marks_lost_files env0 world_stuck world_stuck [] 0%nat
           1%nat stuck_row 0%Z).
  - reflexivity.
  - vm_compute. reflexivity.
  - vm_compute. reflexivity.
  - vm_compute. tauto.
  - reflexivity.
  - vm_compute. reflexivity.
  - intros directory [<- | [<- | [<- | []]]]; vm_compute; reflexivity.
Defined.

(** C7, counterexample for the message: the row of the lost file is set to
    FAILED_PERMANENT, and the text written with it is not
    [file lost during reconciliation]. *)
Lemma reconciliation_message_is_portuguese :
  a_current_status <$> processing_audit (reconcile_processing_queue env0 world_stuck) !! 1%nat
    = Some FAILED_PERMANENT /\
  a_last_error_message <$> processing_audit (reconcile_processing_queue env0 world_stuck) !! 1%nat
    = Some (Some LOST_MESSAGE) /\
  LOST_MESSAGE <> lit "file lost during reconciliation".
Proof.
  split; [vm_compute; reflexivity|]. split; [vm_compute; reflexivity|].
  vm_compute. discriminate.
Qed.

(** * Batch counters and attempt statuses *)

Lemma retry_loop_status env attempts q id :
  forall result w,
  r_status (retry_loop env attempts q id result w).1 = r_status result \/
  r_status (retry_loop env attempts q id result w).1 = lit "sucesso".
Proof.
  induction attempts as [|a rest IH]; intros result w; cbn [retry_loop]; [auto|].
  destruct (run_attempt env q id a w) as [[[success msg] et] w1].
  destruct success; [right; reflexivity|].
  destruct (Nat.ltb a (MAX_RETRY_ATTEMPTS env));
    [destruct (backoff env a <? 0)%Z; [left; reflexivity|] |];
    match goal with
    | |- context [retry_loop env rest q id ?r ?w'] =>
        destruct (IH r w') as [H | H]; rewrite H; auto
    end.
Qed.

(** The only values of [result["status"]]. *)
Lemma process_single_file_with_retry_status env source w :
  r_status (process_single_file_with_retry env source w).1 = lit "erro" \/
  r_status (process_single_file_with_retry env source w).1 = lit "sucesso".
Proof.
  unfold process_single_file_with_retry.
  repeat case_match; simplify_eq; try (left; reflexivity).
  match goal with
  | |- context [retry_loop ?e ?a ?q ?i ?r ?w] =>
      let Hs := fresh "Hs" in
      destruct (retry_loop_status e a q i r w) as [Hs | Hs]; rewrite Hs; auto
  end.
Qed.

Lemma count_result_erro_or_sucesso (result : Result) (stats : Stats) :
  r_status result = lit "erro" \/ r_status result = lit "sucesso" ->
  duplicado (count_result result stats) = duplicado stats /\
  (sucesso (count_result result stats) + erro (count_result result stats)
   = S (sucesso stats + erro stats))%nat.
Proof.
  unfold count_result. intros [-> | ->].
  - change (str_eqb (lit "erro") (lit "sucesso")) with false.
    change (contains (lit "duplicado") (lit "erro")) with false.
    cbn. split; lia.
  - change (str_eqb (lit "sucesso") (lit "sucesso")) with true.
    cbn. split; lia.
Qed.

Lemma run_batch_statuses env xml_files :
  forall w,
  Forall (fun r => r_status r = lit "erro" \/ r_status r = lit "sucesso")
         (run_batch env xml_files w).1 /\
  length (run_batch env xml_files w).1 = length xml_files.
Proof.
  induction xml_files as [|f rest IH]; intros w; cbn [run_batch]; [split; auto|].
  pose proof (process_single_file_with_retry_status env f w) as Hs.
  destruct (process_single_file_with_retry env f w) as [r w1].
  destruct (IH w1) as [Hall Hlen].
  destruct (run_batch env rest w1) as [rs w2]. cbn in *.
  split; [constructor; assumption | lia].
Qed.

Lemma fold_count_results (results : list Result) :
  Forall (fun r => r_status r = lit "erro" \/ r_status r = lit "sucesso") results ->
  forall stats,
  duplicado (fold_left (fun st r => count_result r st) results stats) = duplicado stats /\
  (sucesso (fold_left (fun st r => count_result r st) results stats)
   + erro (fold_left (fun st r => count_result r st) results stats)
   = length results + (sucesso stats + erro stats))%nat.
Proof.
  induction 1 as [|r rs Hr _ IH]; intros stats; cbn [fold_left length]; [split; lia|].
  destruct (IH (count_result r stats)) as [H1 H2].
  destruct (count_result_erro_or_sucesso r stats Hr) as [H3 H4].
  split; [congruence | lia].
Qed.

(** Every file of a batch adds one to exactly one counter, and the duplicate
    counter is never the one. *)
Lemma process_batch_counters env xml_files w :
  let stats := (process_batch env xml_files w).1 in
  duplicado stats = 0%nat /\
  (sucesso stats + duplicado stats + erro stats = length xml_files)%nat.
Proof.
  unfold process_batch.
  destruct (run_batch_statuses env xml_files w) as [Hall Hlen].
  destruct (run_batch env xml_files w) as [results w1]. cbn [fst] in *.
  destruct (fold_count_results results Hall
              {| sucesso := 0; duplicado := 0; erro := 0; total_attempts := 0 |})
    as [H1 H2].
  cbn [duplicado sucesso erro] in H1, H2. cbn zeta. split; [exact H1 | lia].
Qed.

(** C5.  The one file of the batch is a duplicate by content hash: its audit
    row ends in DUPLICATE, yet the batch counts it under [sucesso] and leaves
    [duplicado] at zero; indeed no batch ever counts a duplicate. *)
Theorem duplicate_counted_as_success :
  audit_status 1 (process_batch env0 [inbox_file] world_hash_in_cache).2
    = Some DUPLICATE /\
  (process_batch env0 [inbox_file] world_hash_in_cache).1
    = {| sucesso := 1; duplicado := 0; erro := 0; total_attempts := 1 |} /\
  (forall env xml_files w,
     duplicado (process_batch env xml_files w).1 = 0%nat /\
     (sucesso (process_batch env xml_files w).1
      + duplicado (process_batch env xml_files w).1
      + erro (process_batch env xml_files w).1 = length xml_files)%nat).
Proof.
  split; [vm_compute; reflexivity|]. split; [vm_compute; reflexivity|].
  intros env xml_files w. apply process_batch_counters.
Qed.

(** C6.  The file in the inbox is well-formed but no NF-e, so extraction
    fails in each of the five attempts; every one of them is recorded with
    status FAILED_MOVE (and error type XML_INVALID_STRUCTURE), none with
    FAILED_PARSING. *)
Theorem parse_failure_recorded_as_failed_move :
  get_xml_info env0 0 (file_xml not_nfe_file) = None /\
  map t_status
      (processing_attempts (process_single_file_with_retry env0 inbox_file world_not_nfe).2)
    = [FAILED_MOVE; FAILED_MOVE; FAILED_MOVE; FAILED_MOVE; FAILED_MOVE] /\
  map t_error_type
      (processing_attempts (process_single_file_with_retry env0 inbox_file world_not_nfe).2)
    = [Some XML_INVALID_STRUCTURE; Some XML_INVALID_STRUCTURE;
       Some XML_INVALID_STRUCTURE; Some XML_INVALID_STRUCTURE;
       Some XML_INVALID_STRUCTURE].
Proof. repeat split; vm_compute; reflexivity. Qed.

(** * The scenarios, run *)

Lemma inbox_file_name_no_slash : no_slash (path_name inbox_file).
Proof. vm_compute. repeat (constructor; [discriminate|]). constructor. Qed.

Lemma world_quarantined_reaches_insert env :
  upper_char env = upper_char env0 -> strptime env = strptime env0 ->
  localtime env = localtime env0 ->
  company_db_fails env quarantined_file 1 = false ->
  reaches_insert env quarantined_file 1 world_quarantined sample_file sample_info.
Proof.
  intros Hu Hs Hl Hc. unfold reaches_insert.
  split; [vm_compute; reflexivity|]. split; [reflexivity|].
  split; [change (processed_hashes world_quarantined) with (∅ : gset str);
          apply not_elem_of_empty|].
  split.
  { unfold get_xml_info. rewrite Hu, Hs, Hl. vm_compute. reflexivity. }
  split; [change (processed_keys world_quarantined) with (∅ : gset str);
          apply not_elem_of_empty|].
  split; [exact Hc|]. rewrite Hu. vm_compute. reflexivity.
Qed.

Lemma archive_path_of_success_witness :
  let w' := (process_single_file_with_retry env0 inbox_file world_s1).2 in
  exists f info t d dt,
    files world_s1 !! inbox_file = Some f /\
    get_xml_info env0 t (file_xml f) = Some info /\
    strptime env0 d = Some dt /\ data_emissao info = fmt_date dt /\
    let dest :=
      DESTINATION_NETWORK_DIRECTORY
        </> (standardize_company_name (upper_char env0) (empresa_nome_xml info)
             ++ lit " - " ++ cnpj info)
        </> tipo_documento info
        </> fmt_Y dt </> fmt_m_Y dt </> fmt_d dt
        </> (fmt_stamp (localtime env0 (now world_s1)) ++ lit "_" ++ path_name inbox_file) in
    files w' !! dest = Some f /\
    audit_destination 1 w' = Some (Some (path_str dest)) /\
    exists n, In n (nota_fiscal w') /\
              nf_chave_acesso n = chave_acesso info /\
              nf_hash_arquivo n = file_hash f /\
              nf_caminho_arquivo n = path_str dest.
Proof.
  intros w'.
  apply (archive_path_of_success env0 inbox_file world_s1
           (process_single_file_with_retry env0 inbox_file world_s1).1 w' 1).
  - apply surjective_pairing.
  - exact inbox_file_name_no_slash.
  - vm_compute. reflexivity.
  - vm_compute. reflexivity.
Defined.

(** C1, counterexample for the last path component: in scenario S1 the file
    reaches SUCCESS, nothing is stored under the original name [nota.xml] in
    the archive directory of its issuer, kind and day, and the file is found
    there under its quarantine name. *)
Lemma archive_name_is_not_the_original_name :
  let w' := (process_single_file_with_retry env0 inbox_file world_s1).2 in
  let day_directory :=
    DESTINATION_NETWORK_DIRECTORY
      </> lit "EMPRESA TESTE LTDA - 12345678000190"
      </> lit "NFE" </> lit "2024" </> lit "11-2024" </> lit "06" in
  audit_status 1 w' = Some SUCCESS /\
  path_name inbox_file = lit "nota.xml" /\
  files w' !! (day_directory </> lit "nota.xml") = None /\
  files w' !! (day_directory </> lit "20241106_103000_000000_nota.xml")
    = Some sample_file /\
  audit_destination 1 w'
    = Some (Some (path_str (day_directory </> lit "20241106_103000_000000_nota.xml"))).
Proof. repeat split; vm_compute; reflexivity. Qed.


Lemma integrity_violation_is_duplicate_witness :
  let res := (run_attempt env0 quarantined_file 1 1 world_key_in_catalog).1 in
  let w' := (run_attempt env0 quarantined_file 1 1 world_key_in_catalog).2 in
  res = (true, Some (lit "Duplicado (BD): " ++ exc_text env0 quarantined_file 1), None) /\
  nota_fiscal w' = nota_fiscal world_key_in_catalog /\
  audit_status 1 w' = (fun _ => DUPLICATE) <$> audit_status 1 world_key_in_catalog /\
  files w' = delete quarantined_file (files world_key_in_catalog) /\
  files w' !! quarantined_file = None /\
  processed_hashes w' = processed_hashes world_key_in_catalog /\
  processed_keys w' = processed_keys world_key_in_catalog /\
  sleeps w' = sleeps world_key_in_catalog /\
  (forall rest result,
     retry_loop env0 (1%nat :: rest) quarantined_file 1 result world_key_in_catalog
     = (with_sucesso (with_attempts 1 result), w')).
Proof.
  intros res w'.
  apply (integrity_violation_is_duplicate env0 quarantined_file 1 1 world_key_in_catalog
           sample_file sample_info res w').
  - reflexivity.
  - exact (world_quarantined_reaches_insert env0 eq_refl eq_refl eq_refl eq_refl).
  - reflexivity.
  - vm_compute. reflexivity.
  - apply surjective_pairing.
Defined.


Lemma caches_grow_only_on_success_witness :
  let r := (process_single_file_with_retry env0 inbox_file world_s1).1 in
  let w' := (process_single_file_with_retry env0 inbox_file world_s1).2 in
  ((forall h, h ∈ processed_hashes (load_caches env0 world_key_in_catalog) <->
              h ∈ processed_hashes world_key_in_catalog \/
              exists n, In n (nota_fiscal world_key_in_catalog) /\ nf_hash_arquivo n = h) /\
   (forall c, c ∈ processed_keys (load_caches env0 world_key_in_catalog) <->
              c ∈ processed_keys world_key_in_catalog \/
              exists n, In n (nota_fiscal world_key_in_catalog) /\ nf_chave_acesso n = c)) /\
  ((processed_hashes w' = processed_hashes world_s1 /\
    processed_keys w' = processed_keys world_s1 /\
    forall id, r_audit_id r = Some id -> audit_status id w' <> Some SUCCESS)
   \/
   (exists id f info t,
      r_audit_id r = Some id /\ audit_status id w' = Some SUCCESS /\
      files world_s1 !! inbox_file = Some f /\
      get_xml_info env0 t (file_xml f) = Some info /\
      files w' !! destination_of
        (standardize_company_name (upper_char env0) (empresa_nome_xml info)) info
        (quarantine_path env0 inbox_file world_s1) = Some f /\
      processed_hashes w' = {[file_hash f]} ∪ processed_hashes world_s1 /\
      processed_keys w' = {[chave_acesso info]} ∪ processed_keys world_s1)).
Proof.
  intros r w'. split.
  - exact (proj1 (caches_grow_only_on_success env0) world_key_in_catalog eq_refl).
  - exact (proj2 (proj2 (caches_grow_only_on_success env0)) inbox_file world_s1 r w'
             (surjective_pairing _)).
Defined.

(** * More on issuer names *)

Lemma rstrip_last_nonspace (s : str) : head_nonspace (rev (rstrip s)).
Proof.
  induction s as [|c rest IH]; simpl; [exact I|].
  destruct (rstrip rest) as [|d r] eqn:Hr.
  - destruct (is_space c) eqn:Hc; simpl; [exact I | exact Hc].
  - cbn [rev] in *. destruct (rev r) as [|x l]; simpl in *; exact IH.
Qed.

Lemma clean_name_canonical (s : str) :
  nonpunct (clean_name s) /\ collapsed (clean_name s) /\
  head_nonspace (clean_name s) /\ head_nonspace (rev (clean_name s)).
Proof.
  unfold clean_name, strip. repeat split.
  - apply rstrip_nonpunct, lstrip_nonpunct, sub_ws_nonpunct, sub_punct_nonpunct.
  - apply collapsed_rstrip, collapsed_lstrip, sub_ws_collapsed.
  - apply rstrip_head_nonspace, lstrip_head_nonspace.
  - apply rstrip_last_nonspace.
Qed.

Lemma is_space_not_punct c : is_space c = true -> is_punct c = false.
Proof.
  intros H. apply is_space_true in H. apply is_punct_false.
  rewrite is_punct_true. lia.
Qed.

Lemma sub_ws_any_space (s1 s2 : str) c :
  is_space c = true ->
  forall b, sub_ws b (s1 ++ c :: s2) = sub_ws b (s1 ++ 32 :: s2).
Proof.
  intros Hc. induction s1 as [|d s1 IH]; intros b; simpl.
  - rewrite Hc. reflexivity.
  - destruct (is_space d), b; rewrite ?IH; reflexivity.
Qed.

Lemma sub_ws_double_space (s1 s2 : str) c d :
  is_space c = true -> is_space d = true ->
  forall b, sub_ws b (s1 ++ c :: d :: s2) = sub_ws b (s1 ++ c :: s2).
Proof.
  intros Hc Hd. induction s1 as [|e s1 IH]; intros b.
  - cbn [app sub_ws]. rewrite Hc, Hd. destruct b; reflexivity.
  - cbn [app sub_ws]. destruct (is_space e), b; rewrite ?IH; reflexivity.
Qed.

(** X1.  The name that [standardize_company_name] returns is in canonical
    form: it contains none of the characters [.], [-], [/] and [\], every
    whitespace character in it is a single U+0020 followed by a non-space
    character, and it neither starts nor ends with whitespace. *)
Theorem standardize_company_name_canonical upper_char (s : str) :
  CaseTableOk upper_char ->
  let name := standardize_company_name upper_char s in
  nonpunct name /\ collapsed name /\
  head_nonspace name /\ head_nonspace (rev name).
Proof.
  intros Hok name. subst name. unfold standardize_company_name.
  fold (clean_name s). rewrite <- (upper_clean_name _ Hok).
  apply clean_name_canonical.
Qed.

Lemma standardize_company_name_canonical_witness :
  CaseTableOk ascii_upper_char /\
  let name := standardize_company_name ascii_upper_char
                (lit "  Empresa   Teste S/A. - ltda ") in
  nonpunct name /\ collapsed name /\
  head_nonspace name /\ head_nonspace (rev name).
Proof.
  split; [exact ascii_table_ok|].
  apply (standardize_company_name_canonical ascii_upper_char
           (lit "  Empresa   Teste S/A. - ltda ") ascii_table_ok).
Defined.

(** X2.  [standardize_company_name] sees neither the case of its argument,
    nor the characters it strips, nor the kind and the length of a
    whitespace run: a name and its uppercase form are standardised alike,
    and dropping one of [.], [-], [/], [\] from a name, replacing a
    whitespace character by a space, or dropping the second of two adjacent
    whitespace characters leaves the result unchanged. *)
Theorem standardize_company_name_insensitive upper_char (s1 s2 : str) c d :
  CaseTableOk upper_char ->
  standardize_company_name upper_char (upper upper_char s1)
  = standardize_company_name upper_char s1 /\
  (is_punct c = true ->
   standardize_company_name upper_char (s1 ++ c :: s2)
   = standardize_company_name upper_char (s1 ++ s2)) /\
  (is_space c = true ->
   standardize_company_name upper_char (s1 ++ c :: s2)
   = standardize_company_name upper_char (s1 ++ 32 :: s2)) /\
  (is_space c = true -> is_space d = true ->
   standardize_company_name upper_char (s1 ++ c :: d :: s2)
   = standardize_company_name upper_char (s1 ++ c :: s2)).
Proof.
  intros Hok. split.
  { unfold standardize_company_name.
    fold (clean_name (upper upper_char s1)). fold (clean_name s1).
    rewrite (upper_clean_name _ Hok). apply (upper_idem _ Hok). }
  unfold standardize_company_name, sub_punct. repeat split.
  - intros Hc. rewrite !List.filter_app. cbn [List.filter]. rewrite Hc.
    reflexivity.
  - intros Hc. rewrite !List.filter_app. cbn [List.filter].
    rewrite (is_space_not_punct c Hc).
    assert (H32 : is_punct 32 = false) by reflexivity. rewrite H32.
    cbn [negb]. rewrite (sub_ws_any_space _ _ c Hc). reflexivity.
  - intros Hc Hd. rewrite !List.filter_app. cbn [List.filter].
    rewrite (is_space_not_punct c Hc), (is_space_not_punct d Hd).
    cbn [negb]. rewrite (sub_ws_double_space _ _ c d Hc Hd). reflexivity.
Qed.

Lemma standardize_company_name_insensitive_witness :
  CaseTableOk ascii_upper_char /\
  standardize_company_name ascii_upper_char (upper ascii_upper_char (lit "Teste S"))
  = standardize_company_name ascii_upper_char (lit "Teste S") /\
  standardize_company_name ascii_upper_char (lit "Teste S" ++ 47 :: lit "A")
  = standardize_company_name ascii_upper_char (lit "Teste S" ++ lit "A").
Proof.
  split; [exact ascii_table_ok|].
  destruct (standardize_company_name_insensitive ascii_upper_char
              (lit "Teste S") (lit "A") 47 32 ascii_table_ok) as (H1 & H2 & _).
  split; [exact H1 | exact (H2 eq_refl)].
Defined.

(** * More on the extractor *)

Lemma startswith_head_absent (old' s : str) c :
  Forall (fun x => x <> c) s -> startswith (c :: old') s = false.
Proof.
  destruct 1 as [|x l Hx _]; simpl; [reflexivity|].
  apply N.eqb_neq in Hx. rewrite N.eqb_sym, Hx. reflexivity.
Qed.

(** [s.replace(old, '')] is [s] when the first character of [old] does not
    occur in [s]. *)
Lemma remove_all_absent (old' s : str) c :
  Forall (fun x => x <> c) s -> remove_all (c :: old') s = s.
Proof.
  unfold remove_all. induction 1 as [|x l Hx Hl IH]; [reflexivity|].
  cbn [remove_all_aux].
  rewrite (startswith_head_absent old' (x :: l) c) by (constructor; assumption).
  f_equal. exact IH.
Qed.

Lemma remove_all_NFe_prefix (k : str) :
  all_digits k ->
  remove_all (lit "nfe") (remove_all (lit "NFe") (lit "NFe" ++ k)) = k.
Proof.
  intros Hk.
  assert (HN : Forall (fun x => x <> 78) k).
  { eapply Forall_impl; [exact Hk|]. simpl. intros; lia. }
  assert (Hn : Forall (fun x => x <> 110) k).
  { eapply Forall_impl; [exact Hk|]. simpl. intros; lia. }
  change (lit "NFe") with [78; 70; 101]. change (lit "nfe") with [110; 102; 101].
  unfold remove_all at 2. cbn [app remove_all_aux startswith length Nat.sub].
  rewrite !N.eqb_refl. cbn [andb].
  fold (remove_all [78; 70; 101] k).
  rewrite (remove_all_absent _ _ _ HN). apply (remove_all_absent _ _ _ Hn).
Qed.

(** X3.  When the [Id] attribute of the [infNFe] element is the text NFe
    followed by decimal digits, the access key of the extracted record is
    exactly that string of digits. *)
Theorem get_xml_info_access_key env t root infNFe info (k : str) :
  get_xml_info env t (Some root) = Some info ->
  find_infNFe root = Some infNFe ->
  get_attr (lit "Id") (attrib infNFe) = lit "NFe" ++ k ->
  all_digits k ->
  chave_acesso info = k.
Proof.
  unfold get_xml_info. intros H Hinf Hid Hk. rewrite Hinf, Hid in H.
  rewrite (remove_all_NFe_prefix k Hk) in H.
  repeat case_match; simplify_eq. reflexivity.
Qed.

Lemma get_xml_info_access_key_witness :
  get_xml_info env0 0 (Some sample_xml) = Some sample_info /\
  all_digits K1 /\ chave_acesso sample_info = K1.
Proof.
  assert (H : get_xml_info env0 0 (Some sample_xml) = Some sample_info)
    by (vm_compute; reflexivity).
  assert (Hk : all_digits K1).
  { refine (bool_decide_unpack _ _). vm_compute. exact I. }
  split; [exact H|]. split; [exact Hk|].
  refine (get_xml_info_access_key env0 0 sample_xml _ sample_info K1 H _ _ Hk);
    reflexivity.
Defined.

(** X4.  Every record that [get_xml_info] returns has a non-empty CNPJ and a
    non-empty issuer name, its standardised name is the standardisation of
    the name read from the document, its kind is the one computed from the
    [mod] element, and its four date fields print one and the same date, the
    one that [strptime] read. *)
Theorem get_xml_info_record_sound env t xml info :
  get_xml_info env t xml = Some info ->
  truthy (cnpj info) = true /\ truthy (empresa_nome_xml info) = true /\
  empresa_nome_padronizado info
    = standardize_company_name (upper_char env) (empresa_nome_xml info) /\
  data_processamento info = fmt_date (localtime env t) /\
  exists dt,
    data_emissao info = ano_emissao info ++ lit "-" ++ fmt_m dt ++ lit "-" ++ dia_emissao info /\
    mes_ano_emissao info = fmt_m dt ++ lit "-" ++ ano_emissao info /\
    length (dia_emissao info) = 2%nat /\
    length (mes_ano_emissao info) = (3 + length (ano_emissao info))%nat.
Proof.
  unfold get_xml_info. intros H.
  repeat case_match; simplify_eq.
  cbn [cnpj empresa_nome_xml empresa_nome_padronizado data_processamento
       data_emissao ano_emissao mes_ano_emissao dia_emissao].
  match goal with Hor : negb _ || negb _ = false |- _ =>
    apply orb_false_elim in Hor; destruct Hor as [Ha Hb];
    apply negb_false_iff in Ha, Hb end.
  repeat split; try assumption.
  eexists. repeat split; reflexivity.
Qed.

Lemma get_xml_info_record_sound_witness :
  get_xml_info env0 0 (Some sample_xml) = Some sample_info /\
  truthy (cnpj sample_info) = true /\ truthy (empresa_nome_xml sample_info) = true /\
  empresa_nome_padronizado sample_info
    = standardize_company_name (upper_char env0) (empresa_nome_xml sample_info) /\
  data_processamento sample_info = fmt_date (localtime env0 0) /\
  exists dt,
    data_emissao sample_info
      = ano_emissao sample_info ++ lit "-" ++ fmt_m dt ++ lit "-" ++ dia_emissao sample_info /\
    mes_ano_emissao sample_info = fmt_m dt ++ lit "-" ++ ano_emissao sample_info /\
    length (dia_emissao sample_info) = 2%nat /\
    length (mes_ano_emissao sample_info) = (3 + length (ano_emissao sample_info))%nat.
Proof.
  assert (H : get_xml_info env0 0 (Some sample_xml) = Some sample_info)
    by (vm_compute; reflexivity).
  split; [exact H|].
  exact (get_xml_info_record_sound env0 0 (Some sample_xml) sample_info H).
Defined.

(** * The issuer table *)

Lemma rename_empresa_by_cnpj_key c n e :
  e_id (rename_empresa_by_cnpj c n e) = e_id e /\
  e_cnpj (rename_empresa_by_cnpj c n e) = e_cnpj e.
Proof. unfold rename_empresa_by_cnpj. destruct (str_eqb _ _); auto. Qed.

Lemma rename_empresa_by_id_key i n e :
  e_id (rename_empresa_by_id i n e) = e_id e /\
  e_cnpj (rename_empresa_by_id i n e) = e_cnpj e.
Proof. unfold rename_empresa_by_id. destruct (Nat.eqb _ _); auto. Qed.

Lemma map_rename_by_cnpj_keys {A} (f : nat * str -> A) c n (l : list Empresa) :
  map (fun e => f (e_id e, e_cnpj e)) (map (rename_empresa_by_cnpj c n) l)
  = map (fun e => f (e_id e, e_cnpj e)) l.
Proof.
  rewrite List.map_map. apply List.map_ext. intros e.
  destruct (rename_empresa_by_cnpj_key c n e) as [-> ->]. reflexivity.
Qed.

Lemma map_rename_by_id_keys {A} (f : nat * str -> A) i n (l : list Empresa) :
  map (fun e => f (e_id e, e_cnpj e)) (map (rename_empresa_by_id i n) l)
  = map (fun e => f (e_id e, e_cnpj e)) l.
Proof.
  rewrite List.map_map. apply List.map_ext. intros e.
  destruct (rename_empresa_by_id_key i n e) as [-> ->]. reflexivity.
Qed.

Lemma NoDup_map_inj {A B} (f : A -> B) (l : list A) a b :
  NoDup (map f l) -> In a l -> In b l -> f a = f b -> a = b.
Proof.
  induction l as [|x l IH]; simpl; [tauto|].
  intros Hnd [-> | Ha] [-> | Hb] Hf; try reflexivity.
  - apply NoDup_cons in Hnd as [Hx _]. exfalso. apply Hx.
    rewrite Hf. apply list_elem_of_In, in_map, Hb.
  - apply NoDup_cons in Hnd as [Hx _]. exfalso. apply Hx.
    rewrite <- Hf. apply list_elem_of_In, in_map, Ha.
  - apply NoDup_cons in Hnd as [_ Hnd]. auto.
Qed.

Lemma find_cnpj_none c (l : list Empresa) :
  List.find (fun e => str_eqb (e_cnpj e) c) l = None ->
  ~ In c (map e_cnpj l).
Proof.
  intros H Hin. apply in_map_iff in Hin as (e & <- & He).
  apply (find_none _ _ H) in He. apply str_eqb_false in He. congruence.
Qed.

Lemma empresa_eta e : {| e_id := e_id e; e_cnpj := e_cnpj e; e_nome := e_nome e |} = e.
Proof. destruct e. reflexivity. Qed.

(** The upsert keeps the issuer table and its cache consistent. *)
Lemma get_or_create_company_issuers env q k c n w o w' :
  get_or_create_company env q k c n w = (o, w') ->
  issuers_ok w -> issuers_ok w'.
Proof.
  unfold get_or_create_company. intros H (Hc & Hi & Hb & Hco).
  set (np := standardize_company_name (upper_char env) n) in *.
  destruct (company_cache w !! c) as [[cid cn]|] eqn:Hcache.
  - destruct (str_eqb cn np) eqn:Hn;
      [injection H as <- <-; repeat split; assumption|].
    destruct (company_db_fails env q k);
      [injection H as <- <-; repeat split; assumption|].
    injection H as <- <-. unfold issuers_ok.
    cbn [empresa empresa_seq company_cache set_empresa set_company_cache].
    rewrite (map_rename_by_cnpj_keys snd), (map_rename_by_cnpj_keys fst).
    split; [exact Hc|]. split; [exact Hi|]. split.
    + intros e He. apply in_map_iff in He as (e0 & <- & He0).
      destruct (rename_empresa_by_cnpj_key c np e0) as [-> _]. auto.
    + intros c' id' n' Hl. apply in_map_iff.
      destruct (decide (c' = c)) as [->|Hne].
      * rewrite lookup_insert_eq in Hl. injection Hl as <- <-.
        exists {| e_id := cid; e_cnpj := c; e_nome := cn |}.
        split; [|apply Hco, Hcache].
        unfold rename_empresa_by_cnpj, str_eqb. cbn.
        rewrite bool_decide_eq_true_2 by reflexivity. reflexivity.
      * rewrite lookup_insert_ne in Hl by congruence.
        exists {| e_id := id'; e_cnpj := c'; e_nome := n' |}.
        split; [|apply Hco, Hl].
        unfold rename_empresa_by_cnpj, str_eqb. cbn.
        rewrite bool_decide_eq_false_2 by congruence. reflexivity.
  - destruct (company_db_fails env q k);
      [injection H as <- <-; repeat split; assumption|].
    destruct (List.find _ (empresa w)) as [e|] eqn:Hfind.
    + apply find_some in Hfind as [He Hec]. apply str_eqb_true in Hec.
      destruct (str_eqb (e_nome e) np) eqn:Hn.
      * apply str_eqb_true in Hn.
        injection H as <- <-. unfold issuers_ok.
        cbn [empresa empresa_seq company_cache set_empresa set_company_cache].
        split; [exact Hc|]. split; [exact Hi|]. split; [exact Hb|].
        intros c' id' n' Hl.
        destruct (decide (c' = c)) as [->|Hne].
        -- rewrite lookup_insert_eq in Hl. injection Hl as <- <-.
           rewrite <- Hec, <- Hn, empresa_eta. exact He.
        -- rewrite lookup_insert_ne in Hl by congruence. auto.
      * injection H as <- <-. unfold issuers_ok.
        cbn [empresa empresa_seq company_cache set_empresa set_company_cache].
        rewrite (map_rename_by_id_keys snd), (map_rename_by_id_keys fst).
        split; [exact Hc|]. split; [exact Hi|]. split.
        -- intros e1 He1. apply in_map_iff in He1 as (e0 & <- & He0).
           destruct (rename_empresa_by_id_key (e_id e) np e0) as [-> _]. auto.
        -- intros c' id' n' Hl. apply in_map_iff.
           destruct (decide (c' = c)) as [->|Hne].
           ++ rewrite lookup_insert_eq in Hl. injection Hl as <- <-.
              exists e. split; [|exact He].
              unfold rename_empresa_by_id. rewrite Nat.eqb_refl, Hec. reflexivity.
           ++ rewrite lookup_insert_ne in Hl by congruence.
              exists {| e_id := id'; e_cnpj := c'; e_nome := n' |}.
              split; [|apply Hco, Hl].
              unfold rename_empresa_by_id. cbn.
              destruct (Nat.eqb id' (e_id e)) eqn:Hid; [|reflexivity].
              apply Nat.eqb_eq in Hid. exfalso. apply Hne.
              apply Hco in Hl.
              pose proof (NoDup_map_inj e_id _ _ _ Hi Hl He Hid) as <-.
              exact Hec.
    + apply find_cnpj_none in Hfind.
      injection H as <- <-. unfold issuers_ok.
      cbn [empresa empresa_seq company_cache set_empresa set_company_cache].
      rewrite !map_app. cbn [map e_cnpj e_id].
      split; [|split; [|split]].
      * apply NoDup_app. split; [exact Hc|]. split; [|apply NoDup_singleton].
        intros x Hx Hx'. apply list_elem_of_singleton in Hx'. subst x.
        apply Hfind, list_elem_of_In, Hx.
      * apply NoDup_app. split; [exact Hi|]. split; [|apply NoDup_singleton].
        intros x Hx Hx'. apply list_elem_of_singleton in Hx'. subst x.
        apply list_elem_of_In, in_map_iff in Hx as (e & He & Hin).
        apply Hb in Hin. lia.
      * intros e He. apply in_app_iff in He as [He | [<- | []]]; cbn.
        -- apply Hb in He. lia.
        -- lia.
      * intros c' id' n' Hl. apply in_app_iff.
        destruct (decide (c' = c)) as [->|Hne].
        -- rewrite lookup_insert_eq in Hl. injection Hl as <- <-.
           right. left. reflexivity.
        -- rewrite lookup_insert_ne in Hl by congruence. left. auto.
Qed.

(** What the upsert returns is the id of the row of the issuer. *)
Lemma get_or_create_company_row env q k c n w id w' :
  get_or_create_company env q k c n w = (Some id, w') ->
  issuers_ok w ->
  In {| e_id := id; e_cnpj := c;
        e_nome := standardize_company_name (upper_char env) n |} (empresa w').
Proof.
  intros H Hok.
  pose proof (get_or_create_company_issuers _ _ _ _ _ _ _ _ H Hok) as (_ & _ & _ & Hco).
  apply Hco. eapply get_or_create_company_cache. exact H.
Qed.

(** The upsert never removes an issuer, never changes an id or a CNPJ, and
    never drops a cache entry. *)
Lemma get_or_create_company_extends env q k c n w o w' :
  get_or_create_company env q k c n w = (o, w') ->
  (exists rows, map (fun e => (e_id e, e_cnpj e)) (empresa w')
                = map (fun e => (e_id e, e_cnpj e)) (empresa w) ++ rows) /\
  dom (company_cache w) ⊆ dom (company_cache w').
Proof.
  unfold get_or_create_company. intros H.
  repeat case_match; simplify_eq;
    cbn [empresa empresa_seq company_cache set_empresa set_company_cache];
    rewrite ?(map_rename_by_cnpj_keys id), ?(map_rename_by_id_keys id),
      ?dom_insert, ?map_app;
    (split; [first [ exists []; rewrite app_nil_r; reflexivity
                   | eexists; reflexivity ] | set_solver]).
Qed.

(** X5.  The issuer upsert is idempotent: once [get_or_create_company] has
    returned an id for a CNPJ and a name, a second call with the same CNPJ
    and name returns the same id and changes nothing, whatever the state of
    the database connection (it is answered from the cache). *)
Theorem get_or_create_company_idempotent env q k q' k' c n w id w1 :
  get_or_create_company env q k c n w = (Some id, w1) ->
  get_or_create_company env q' k' c n w1 = (Some id, w1).
Proof.
  intros H. apply get_or_create_company_cache in H.
  unfold get_or_create_company. rewrite H.
  unfold str_eqb. rewrite bool_decide_eq_true_2 by reflexivity. reflexivity.
Qed.

Lemma get_or_create_company_idempotent_witness :
  let r := get_or_create_company env0 quarantined_file 1
             (lit "12345678000190") (lit "Empresa Teste Ltda.") empty_world in
  r.1 = Some 1%nat /\
  get_or_create_company env0 inbox_file 2
    (lit "12345678000190") (lit "Empresa Teste Ltda.") r.2 = (Some 1%nat, r.2).
Proof.
  intros r.
  assert (H : r = (Some 1%nat, r.2)) by (vm_compute; reflexivity).
  split; [rewrite H; reflexivity|].
  exact (get_or_create_company_idempotent env0 quarantined_file 1
           inbox_file 2 _ _ _ _ _ H).
Defined.

(** X6.  [get_or_create_company] keeps the issuer table consistent: CNPJs
    and ids stay unique (the INSERT never meets the UNIQUE constraint of
    [empresa.cnpj]), no id exceeds the AUTOINCREMENT sequence, and every
    cache entry repeats a row of the table.  The id that it returns is the id
    of the row that carries the CNPJ, and that row then bears the
    standardised name. *)
Theorem get_or_create_company_consistent env q k c n w o w' :
  get_or_create_company env q k c n w = (o, w') ->
  issuers_ok w ->
  issuers_ok w' /\
  forall id, o = Some id ->
    In {| e_id := id; e_cnpj := c;
          e_nome := standardize_company_name (upper_char env) n |} (empresa w') /\
    forall e, In e (empresa w') -> e_cnpj e = c -> e_id e = id.
Proof.
  intros H Hok.
  pose proof (get_or_create_company_issuers _ _ _ _ _ _ _ _ H Hok) as Hok'.
  split; [exact Hok'|]. intros id ->.
  pose proof (get_or_create_company_row _ _ _ _ _ _ _ _ H Hok) as Hrow.
  split; [exact Hrow|]. intros e He Hec.
  destruct Hok' as (Hc & _).
  rewrite (NoDup_map_inj e_cnpj _ _ _ Hc He Hrow Hec). reflexivity.
Qed.

Lemma fold_insert_issuers (l : list Empresa) (table : list Empresa) :
  forall cache : gmap str (nat * str),
  (forall e, In e l -> In e table) ->
  (forall c id n, cache !! c = Some (id, n) ->
     In {| e_id := id; e_cnpj := c; e_nome := n |} table) ->
  forall c id n,
    fold_left (fun c e => <[e_cnpj e := (e_id e, e_nome e)]> c) l cache !! c
      = Some (id, n) ->
    In {| e_id := id; e_cnpj := c; e_nome := n |} table.
Proof.
  induction l as [|e l IH]; intros cache Hl Hcache c id n; simpl; [apply Hcache|].
  apply IH; [intros; apply Hl; right; assumption|].
  intros c' id' n' Hlk.
  destruct (decide (c' = e_cnpj e)) as [->|Hne].
  - rewrite lookup_insert_eq in Hlk. injection Hlk as <- <-.
    rewrite empresa_eta. apply Hl. left. reflexivity.
  - rewrite lookup_insert_ne in Hlk by congruence. auto.
Qed.

Lemma fold_insert_lookup (l : list Empresa) :
  forall (cache : gmap str (nat * str)) e,
  NoDup (map e_cnpj l) -> In e l ->
  fold_left (fun c e => <[e_cnpj e := (e_id e, e_nome e)]> c) l cache !! e_cnpj e
    = Some (e_id e, e_nome e).
Proof.
  induction l as [|x l IH]; intros cache e Hnd; simpl; [tauto|].
  apply NoDup_cons in Hnd as [Hx Hnd].
  intros [-> | He]; [|auto].
  clear IH. revert cache. induction l as [|y l IH]; intros cache; cbn [fold_left].
  - apply lookup_insert_eq.
  - cbn [map] in Hx, Hnd. apply NoDup_cons in Hnd as [_ Hnd].
    apply not_elem_of_cons in Hx as [Hxy Hx].
    rewrite insert_insert_ne by congruence.
    apply IH; assumption.
Qed.

Lemma load_caches_issuers_ok env w :
  issuers_ok w ->
  issuers_ok (load_caches env w) /\
  (db_up env = true ->
   forall e, In e (empresa w) ->
     company_cache (load_caches env w) !! e_cnpj e = Some (e_id e, e_nome e)).
Proof.
  intros Hok. pose proof Hok as (Hc & Hi & Hb & Hco).
  unfold load_caches. destruct (db_up env); [|split; [exact Hok|discriminate]].
  cbn zeta. split.
  - unfold issuers_ok.
    cbn [empresa empresa_seq company_cache set_processed set_company_cache].
    split; [exact Hc|]. split; [exact Hi|]. split; [exact Hb|].
    apply fold_insert_issuers; auto.
  - intros _ e He.
    cbn [empresa empresa_seq company_cache set_processed set_company_cache].
    apply fold_insert_lookup; assumption.
Qed.

Lemma issuers_ok_fresh w :
  empresa w = [] -> company_cache w = ∅ -> issuers_ok w.
Proof.
  intros He Hc. unfold issuers_ok. rewrite He, Hc. cbn [map].
  split; [apply NoDup_nil_2|]. split; [apply NoDup_nil_2|].
  split; [intros e []|]. intros c id n H. rewrite lookup_empty in H. discriminate.
Qed.

Lemma get_or_create_company_consistent_witness :
  let r := get_or_create_company env0 quarantined_file 1
             (lit "12345678000190") (lit "Empresa Teste Ltda.") empty_world in
  issuers_ok empty_world /\
  issuers_ok r.2 /\
  forall id, r.1 = Some id ->
    In {| e_id := id; e_cnpj := lit "12345678000190";
          e_nome := standardize_company_name (upper_char env0)
                      (lit "Empresa Teste Ltda.") |} (empresa r.2) /\
    forall e, In e (empresa r.2) -> e_cnpj e = lit "12345678000190" -> e_id e = id.
Proof.
  intros r.
  assert (H0 : issuers_ok empty_world) by (apply issuers_ok_fresh; reflexivity).
  split; [exact H0|].
  exact (get_or_create_company_consistent env0 quarantined_file 1
           (lit "12345678000190") (lit "Empresa Teste Ltda.") empty_world
           r.1 r.2 (surjective_pairing r) H0).
Defined.

(** X7.  [load_caches] makes the issuer cache agree with the issuer table:
    when the table has unique CNPJs and ids and the cache held nothing
    foreign to it before, after the call the cache maps the CNPJ of every row
    to the id and name of that row and holds nothing that is not in the
    table. *)
Theorem load_caches_issuers env w :
  db_up env = true ->
  issuers_ok w ->
  let w' := load_caches env w in
  issuers_ok w' /\
  forall e, In e (empresa w) ->
    company_cache w' !! e_cnpj e = Some (e_id e, e_nome e).
Proof.
  intros Hdb Hok w'. subst w'.
  destruct (load_caches_issuers_ok env w Hok) as [H1 H2]. auto.
Qed.

Lemma load_caches_issuers_witness :
  let w := set_empresa [{| e_id := 1; e_cnpj := lit "12345678000190";
                           e_nome := lit "EMPRESA TESTE LTDA" |}] 1 empty_world in
  db_up env0 = true /\ issuers_ok w /\
  let w' := load_caches env0 w in
  issuers_ok w' /\
  forall e, In e (empresa w) ->
    company_cache w' !! e_cnpj e = Some (e_id e, e_nome e).
Proof.
  intros w.
  assert (Hok : issuers_ok w).
  { unfold issuers_ok, w. cbn [empresa set_empresa map e_cnpj e_id company_cache
                                empty_world empresa_seq].
    split; [apply NoDup_singleton|]. split; [apply NoDup_singleton|].
    split; [intros e [<- | []]; cbn; lia|].
    intros c id n H. rewrite lookup_empty in H. discriminate. }
  split; [reflexivity|]. split; [exact Hok|].
  exact (load_caches_issuers env0 w eq_refl Hok).
Defined.

(** * The catalog across an attempt *)

Ltac unfold_attempt_any :=
  unfold run_attempt, atomic_process_file, insert_and_move, calculate_file_hash,
    unexpected_error, rollback_after_move_failure, shutil_move, unlink, ET_parse,
    update_processing_status, record_attempt;
  destruct (db_up _);
  cbn [files set_processing_audit set_files logger processed_hashes
       processed_keys now nota_fiscal set_nota_fiscal].

(** What an attempt does to the catalog and to the caches: nothing, or one
    issuer upsert, possibly followed by the insert of one document whose key
    and hash are new to the table; the caches learn of that document when
    the attempt succeeds. *)
Lemma run_attempt_catalog env q id k w res w' :
  run_attempt env q id k w = (res, w') ->
  (same_issuers w' w /\ nota_fiscal w' = nota_fiscal w /\
   processed_hashes w' = processed_hashes w /\
   processed_keys w' = processed_keys w)
  \/
  exists c n o w0 w1,
    same_issuers w0 w /\
    get_or_create_company env q k c n w0 = (o, w1) /\
    same_issuers w' w1 /\
    ((nota_fiscal w' = nota_fiscal w /\
      processed_hashes w' = processed_hashes w /\
      processed_keys w' = processed_keys w)
     \/
     exists row,
       o = Some (nf_empresa_id row) /\
       violates_unique (nf_chave_acesso row) (nf_hash_arquivo row) (nota_fiscal w) = false /\
       nota_fiscal w' = nota_fiscal w ++ [row] /\
       ((processed_hashes w' = processed_hashes w /\
         processed_keys w' = processed_keys w)
        \/
        (processed_hashes w' = {[nf_hash_arquivo row]} ∪ processed_hashes w /\
         processed_keys w' = {[nf_chave_acesso row]} ∪ processed_keys w))).
Proof.
  unfold_attempt_any; intros H.
  all: repeat case_match; simplify_eq.
  all: try (left; unfold same_issuers; cbn; repeat split; reflexivity).
  all: match goal with
       | Hc : get_or_create_company _ _ _ ?c ?n ?w0 = (?o, ?w1) |- _ =>
           right; exists c, n, o, w0, w1;
           destruct (get_or_create_company_frame _ _ _ _ _ _ _ _ Hc)
             as (?&Hnf&?&?&?&Hh&Hk&?&?&?);
           split; [unfold same_issuers; cbn; repeat split; reflexivity|];
           split; [exact Hc|];
           split; [unfold same_issuers; cbn; repeat split; reflexivity|]
       end.
  all: cbn in *.
  all: try (left; cbn; rewrite ?Hnf, ?Hh, ?Hk; cbn; repeat split; reflexivity).
  all: rewrite ?Hnf, ?Hh, ?Hk.
  all: match goal with
       | Hv : violates_unique _ _ ?rows = false |- _ =>
           cbn in Hv; rewrite ?Hnf in Hv
       end.
  all: try (left;
            match goal with Hv : violates_unique _ _ _ = false |- _ =>
              rewrite (delete_nota_fiscal_fresh _ _ _ _ Hv) by reflexivity end;
            repeat split; reflexivity).
  all: right; eexists; refine (conj _ (conj _ (conj eq_refl _)));
       [reflexivity | eassumption
       | first [left; split; reflexivity | right; split; reflexivity]].
Qed.

(** * Invariants of the catalog

    A property of the catalog tables and caches that every attempt preserves
    is preserved by the controller, by a batch, by the scan loop and by the
    reconciler: nothing else writes to the catalog. *)

Ltac same_catalog_tac :=
  unfold same_catalog, same_issuers; cbn; repeat split; reflexivity.

Lemma move_to_dead_letter_catalog env q id msg et w :
  same_catalog (move_to_dead_letter env q id msg et w) w.
Proof.
  unfold move_to_dead_letter, shutil_move, update_processing_status.
  repeat case_match; simplify_eq; same_catalog_tac.
Qed.

(** ** From the controller to the whole run *)

Section ProgramInvariant.

Variable env : Env.
Variable Inv : World -> Prop.
Hypothesis Inv_single : forall source w r w',
  process_single_file_with_retry env source w = (r, w') -> Inv w -> Inv w'.
Hypothesis Inv_logger : forall l m w, Inv w -> Inv (logger l m w).
Hypothesis Inv_sleep : forall d w, Inv w -> Inv (sleep d w).
Hypothesis Inv_stuck : forall w, Inv w -> Inv (reconcile_stuck_records w).
Hypothesis Inv_reconciliation_log : forall rows w,
  Inv w -> Inv (set_reconciliation_log rows w).
Hypothesis Inv_load : forall w, Inv w -> Inv (load_caches env w).

Lemma run_batch_invariant xml_files :
  forall w rs w', run_batch env xml_files w = (rs, w') -> Inv w -> Inv w'.
Proof.
  induction xml_files as [|f rest IH]; intros w rs w'; cbn [run_batch].
  - intros [= <- <-]. auto.
  - destruct (process_single_file_with_retry env f w) as [r w1] eqn:Hone.
    destruct (run_batch env rest w1) as [rs1 w2] eqn:Hrest.
    intros [= <- <-] Hinv.
    eapply IH; [exact Hrest|]. eapply Inv_single; eassumption.
Qed.

Lemma process_batch_invariant xml_files w stats w' :
  process_batch env xml_files w = (stats, w') -> Inv w -> Inv w'.
Proof.
  unfold process_batch.
  destruct (run_batch env xml_files w) as [rs w1] eqn:Hrun.
  intros [= <- <-]. eapply run_batch_invariant. exact Hrun.
Qed.

Lemma process_batches_invariant bs :
  forall total w stats w',
  process_batches env bs total w = (stats, w') -> Inv w -> Inv w'.
Proof.
  induction bs as [|b rest IH]; intros total w stats w'; cbn [process_batches].
  - intros [= <- <-]. auto.
  - destruct (process_batch env b w) as [st w1] eqn:Hb.
    intros H Hinv. eapply IH; [exact H|].
    eapply process_batch_invariant; eassumption.
Qed.

Lemma scan_and_process_invariant xml_files w stats w' :
  scan_and_process env xml_files w = (stats, w') -> Inv w -> Inv w'.
Proof.
  unfold scan_and_process. destruct xml_files.
  - intros [= <- <-]. auto.
  - apply process_batches_invariant.
Qed.

Lemma reprocess_quarantine_invariant qs :
  forall w found fixed w' found' fixed',
  reprocess_quarantine env qs (w, found, fixed) = Some (w', found', fixed') ->
  Inv w -> Inv w'.
Proof.
  induction qs as [|qf rest IH]; intros w found fixed w' found' fixed';
    cbn [reprocess_quarantine].
  - intros [= <- <- <-]. auto.
  - destruct (files w !! qf) as [f|]; [|discriminate].
    destruct (300 <? now w - file_mtime f)%Z; [|apply IH].
    destruct (process_single_file_with_retry env qf w) as [r w1] eqn:Hone.
    intros H Hinv. eapply IH; [exact H|]. eapply Inv_single; eassumption.
Qed.

Lemma reconcile_processing_queue_invariant w :
  Inv w -> Inv (reconcile_processing_queue env w).
Proof.
  intros Hinv. unfold reconcile_processing_queue.
  destruct (reprocess_quarantine env _ _) as [[[w1 found] fixed]|] eqn:Hre.
  - apply reprocess_quarantine_invariant in Hre; [|exact Hinv].
    destruct (negb (db_up env)); [apply Inv_logger, Hre|].
    apply Inv_reconciliation_log, Inv_stuck, Hre.
  - apply Inv_logger, Hinv.
Qed.

Lemma main_cycle_invariant xml_files w last :
  Inv w -> Inv (fst (main_cycle env xml_files (w, last))).
Proof.
  intros Hinv. unfold main_cycle.
  assert (H1 : Inv (snd (scan_and_process env xml_files w))).
  { eapply scan_and_process_invariant; [apply surjective_pairing | exact Hinv]. }
  destruct (RECONCILIATION_INTERVAL <? _)%Z; cbn [fst].
  - apply Inv_sleep, reconcile_processing_queue_invariant, H1.
  - apply Inv_sleep, H1.
Qed.

Lemma main_cycles_invariant listings :
  forall st, Inv (fst st) ->
  Inv (fst (fold_left (fun st xml_files => main_cycle env xml_files st) listings st)).
Proof.
  induction listings as [|l rest IH]; intros [w last] Hinv; cbn [fold_left].
  - exact Hinv.
  - apply IH. apply main_cycle_invariant. exact Hinv.
Qed.

Lemma main_invariant listings w : Inv w -> Inv (main env listings w).
Proof.
  intros Hinv. unfold main. apply main_cycles_invariant. cbn [fst].
  apply Inv_load, Hinv.
Qed.

End ProgramInvariant.

(** ** Invariants of the catalog *)

Section CatalogInvariant.

Variable env : Env.
Variable Inv : World -> Prop.
Hypothesis Inv_frame : forall w w', same_catalog w' w -> Inv w -> Inv w'.
Hypothesis Inv_attempt : forall q id k w res w',
  run_attempt env q id k w = (res, w') -> Inv w -> Inv w'.

Lemma retry_loop_invariant q id attempts :
  forall result w r' w',
  retry_loop env attempts q id result w = (r', w') -> Inv w -> Inv w'.
Proof.
  induction attempts as [|a rest IH]; intros result w r' w'; cbn [retry_loop].
  - intros [= <- <-]. auto.
  - destruct (run_attempt env q id a w) as [[[success msg] et] w1] eqn:Hrun.
    intros H Hinv. apply (Inv_attempt _ _ _ _ _ _ Hrun) in Hinv.
    destruct success; [injection H as <- <-; exact Hinv|].
    destruct (Nat.ltb a (MAX_RETRY_ATTEMPTS env)).
    + destruct (backoff env a <? 0)%Z.
      * injection H as <- <-. revert Hinv. apply Inv_frame. same_catalog_tac.
      * apply IH in H; [exact H|]. revert Hinv. apply Inv_frame. same_catalog_tac.
    + apply IH in H; [exact H|]. revert Hinv. apply Inv_frame.
      apply move_to_dead_letter_catalog.
Qed.

Lemma process_single_file_with_retry_invariant source w r w' :
  process_single_file_with_retry env source w = (r, w') -> Inv w -> Inv w'.
Proof.
  unfold process_single_file_with_retry, calculate_file_hash,
    create_processing_record, move_to_quarantine, shutil_move,
    update_processing_status.
  intros H Hinv.
  repeat case_match; simplify_eq;
    try (revert Hinv; apply Inv_frame; same_catalog_tac).
  all: match goal with
       | Hl : retry_loop _ _ _ _ _ _ = _ |- _ =>
           apply retry_loop_invariant in Hl; [exact Hl|]
       end.
  all: revert Hinv; apply Inv_frame; same_catalog_tac.
Qed.

Lemma catalog_main_invariant listings w :
  (forall w, Inv w -> Inv (load_caches env w)) ->
  Inv w -> Inv (main env listings w).
Proof.
  intros Hload. apply (main_invariant env Inv).
  - apply process_single_file_with_retry_invariant.
  - intros l m w1. apply Inv_frame. same_catalog_tac.
  - intros d w1. apply Inv_frame. same_catalog_tac.
  - intros w1. apply Inv_frame. same_catalog_tac.
  - intros rows w1. apply Inv_frame. same_catalog_tac.
  - exact Hload.
Qed.

End CatalogInvariant.

(** * Consistency of the catalog *)

Lemma violates_unique_fresh chave hash rows :
  violates_unique chave hash rows = false ->
  ~ In chave (map nf_chave_acesso rows) /\ ~ In hash (map nf_hash_arquivo rows).
Proof.
  intros H. pose proof (violates_unique_false _ _ _ H) as Hf.
  split; intros Hin; apply in_map_iff in Hin as (n & Hn & Hin);
    destruct (Hf n Hin); congruence.
Qed.

Lemma NoDup_snoc {A} (l : list A) x : NoDup l -> ~ In x l -> NoDup (l ++ [x]).
Proof.
  intros Hl Hx. apply NoDup_app. split; [exact Hl|].
  split; [|apply NoDup_singleton].
  intros y Hy Hy'. apply list_elem_of_singleton in Hy'. subst y.
  apply Hx, list_elem_of_In, Hy.
Qed.

Lemma unique_documents_snoc rows row :
  unique_documents rows ->
  violates_unique (nf_chave_acesso row) (nf_hash_arquivo row) rows = false ->
  unique_documents (rows ++ [row]).
Proof.
  intros [Hk Hh] Hv. apply violates_unique_fresh in Hv as [Hk' Hh'].
  unfold unique_documents. rewrite !map_app. cbn [map].
  split; apply NoDup_snoc; assumption.
Qed.

Lemma unique_documents_attempt env q id k w res w' :
  run_attempt env q id k w = (res, w') ->
  unique_documents (nota_fiscal w) -> unique_documents (nota_fiscal w').
Proof.
  intros H Hu.
  destruct (run_attempt_catalog _ _ _ _ _ _ _ H)
    as [(_ & -> & _) | (c & n & o & w0 & w1 & _ & _ & _ &
                        [(-> & _) | (row & _ & Hv & -> & _)])];
    auto using unique_documents_snoc.
Qed.

Lemma issuers_ok_same w w' : same_issuers w' w -> issuers_ok w -> issuers_ok w'.
Proof. unfold issuers_ok. intros (-> & -> & ->). auto. Qed.

Lemma same_issuers_sym w w' : same_issuers w w' -> same_issuers w' w.
Proof. unfold same_issuers. intros (-> & -> & ->). auto. Qed.

Lemma issuers_ok_attempt env q id k w res w' :
  run_attempt env q id k w = (res, w') -> issuers_ok w -> issuers_ok w'.
Proof.
  intros H Hok.
  destruct (run_attempt_catalog _ _ _ _ _ _ _ H)
    as [(Hs & _) | (c & n & o & w0 & w1 & Hs0 & Hup & Hs1 & _)].
  - exact (issuers_ok_same _ _ Hs Hok).
  - apply (issuers_ok_same _ _ Hs1).
    apply (get_or_create_company_issuers _ _ _ _ _ _ _ _ Hup).
    exact (issuers_ok_same _ _ Hs0 Hok).
Qed.

Lemma map_fst_keys (l : list Empresa) :
  map e_id l = map fst (map (fun e => (e_id e, e_cnpj e)) l).
Proof. rewrite List.map_map. reflexivity. Qed.

Lemma issuer_ids_extend env q k c n w o w' i :
  get_or_create_company env q k c n w = (o, w') ->
  In i (map e_id (empresa w)) -> In i (map e_id (empresa w')).
Proof.
  intros H Hi. destruct (get_or_create_company_extends _ _ _ _ _ _ _ _ H)
    as [[rows Hrows] _].
  rewrite map_fst_keys, Hrows, map_app, <- map_fst_keys.
  apply in_or_app. left. exact Hi.
Qed.

Lemma references_attempt env q id k w res w' :
  run_attempt env q id k w = (res, w') ->
  issuers_ok w -> documents_reference_issuers w -> documents_reference_issuers w'.
Proof.
  intros H Hok Hr. unfold documents_reference_issuers in *.
  destruct (run_attempt_catalog _ _ _ _ _ _ _ H)
    as [((He & _) & Hn & _) | (c & n & o & w0 & w1 & (He0 & Hs0) & Hup & (He1 & _) & Hdoc)].
  - rewrite Hn, He. exact Hr.
  - rewrite He1.
    assert (Hold : forall d, In d (nota_fiscal w) ->
                     In (nf_empresa_id d) (map e_id (empresa w1))).
    { intros d Hd. eapply issuer_ids_extend; [exact Hup|].
      rewrite He0. auto. }
    destruct Hdoc as [(-> & _) | (row & -> & _ & -> & _)]; [exact Hold|].
    intros d Hd. apply in_app_iff in Hd as [Hd | [<- | []]]; [auto|].
    assert (Hok0 : issuers_ok w0).
    { apply (issuers_ok_same w); [|exact Hok]. split; auto. }
    pose proof (get_or_create_company_row _ _ _ _ _ _ _ _ Hup Hok0) as Hrow.
    apply in_map_iff. eexists. split; [|exact Hrow]. reflexivity.
Qed.

Lemma caches_within_catalog_attempt env q id k w res w' :
  run_attempt env q id k w = (res, w') ->
  caches_within_catalog w -> caches_within_catalog w'.
Proof.
  intros H [Hh Hk]. unfold caches_within_catalog.
  destruct (run_attempt_catalog _ _ _ _ _ _ _ H)
    as [(_ & -> & -> & ->) | (c & n & o & w0 & w1 & _ & _ & _ &
          [(-> & -> & ->) | (row & _ & _ & -> & [(-> & ->) | (-> & ->)])])];
    [auto | auto | |]; rewrite !map_app; cbn [map];
    split; intros x Hx; apply in_or_app.
  - left. auto.
  - left. auto.
  - apply elem_of_union in Hx as [Hx | Hx]; [|left; auto].
    apply elem_of_singleton in Hx. subst x. right. left. reflexivity.
  - apply elem_of_union in Hx as [Hx | Hx]; [|left; auto].
    apply elem_of_singleton in Hx. subst x. right. left. reflexivity.
Qed.

Lemma catalog_extends_refl w : catalog_extends w w.
Proof.
  unfold catalog_extends. repeat split; try reflexivity;
    exists []; rewrite app_nil_r; reflexivity.
Qed.

Lemma catalog_extends_trans w1 w2 w3 :
  catalog_extends w1 w2 -> catalog_extends w2 w3 -> catalog_extends w1 w3.
Proof.
  intros ([r1 H1] & [e1 G1] & Hh1 & Hk1 & Hc1) ([r2 H2] & [e2 G2] & Hh2 & Hk2 & Hc2).
  unfold catalog_extends. split; [|split; [|split; [|split]]].
  - exists (r1 ++ r2). rewrite H2, H1, app_assoc. reflexivity.
  - exists (e1 ++ e2). rewrite G2, G1, app_assoc. reflexivity.
  - set_solver.
  - set_solver.
  - set_solver.
Qed.

Lemma catalog_extends_same w w' : same_catalog w' w -> catalog_extends w w'.
Proof.
  intros ((He & _ & Hc) & Hn & Hh & Hk). unfold catalog_extends.
  rewrite He, Hn, Hh, Hk, Hc. apply catalog_extends_refl.
Qed.

Lemma catalog_extends_attempt env q id k w res w' :
  run_attempt env q id k w = (res, w') -> catalog_extends w w'.
Proof.
  intros H.
  destruct (run_attempt_catalog _ _ _ _ _ _ _ H)
    as [(Hs & Hn & Hh & Hk) | (c & n & o & w0 & w1 & (He0 & _ & Hc0) & Hup & (He1 & _ & Hc1) & Hdoc)].
  - apply catalog_extends_same. repeat split; assumption || apply Hs.
  - destruct (get_or_create_company_extends _ _ _ _ _ _ _ _ Hup) as [Hrows Hdom].
    rewrite He0, Hc0 in *. unfold catalog_extends. rewrite He1, Hc1.
    destruct Hdoc as [(-> & -> & ->) | (row & _ & _ & -> & [(-> & ->) | (-> & ->)])].
    + split; [exists []; rewrite app_nil_r; reflexivity|].
      split; [exact Hrows|]. split; [reflexivity|]. split; [reflexivity|].
      exact Hdom.
    + split; [eexists; reflexivity|].
      split; [exact Hrows|]. split; [reflexivity|]. split; [reflexivity|].
      exact Hdom.
    + split; [eexists; reflexivity|].
      split; [exact Hrows|].
      split; [apply union_subseteq_r|]. split; [apply union_subseteq_r|].
      exact Hdom.
Qed.

Lemma unique_documents_frame w w' :
  same_catalog w' w ->
  unique_documents (nota_fiscal w) -> unique_documents (nota_fiscal w').
Proof. intros (_ & -> & _). auto. Qed.

Lemma issuers_references_frame w w' :
  same_catalog w' w ->
  issuers_ok w /\ documents_reference_issuers w ->
  issuers_ok w' /\ documents_reference_issuers w'.
Proof.
  intros (Hs & Hn & _) [Hok Hr]. split; [exact (issuers_ok_same _ _ Hs Hok)|].
  unfold documents_reference_issuers. destruct Hs as (-> & _). rewrite Hn. exact Hr.
Qed.

Lemma caches_within_catalog_frame w w' :
  same_catalog w' w -> caches_within_catalog w -> caches_within_catalog w'.
Proof. unfold caches_within_catalog. intros (_ & -> & -> & ->). auto. Qed.

Lemma catalog_consistent_frame w w' :
  same_catalog w' w -> catalog_consistent w -> catalog_consistent w'.
Proof.
  intros Hs (Hu & Hok & Hr & Hc).
  destruct (issuers_references_frame _ _ Hs (conj Hok Hr)).
  split; [eapply unique_documents_frame; eassumption|].
  split; [assumption|]. split; [assumption|].
  eapply caches_within_catalog_frame; eassumption.
Qed.

Lemma catalog_consistent_attempt env q id k w res w' :
  run_attempt env q id k w = (res, w') ->
  catalog_consistent w -> catalog_consistent w'.
Proof.
  intros H (Hu & Hok & Hr & Hc).
  split; [eapply unique_documents_attempt; eassumption|].
  split; [eapply issuers_ok_attempt; eassumption|].
  split; [eapply references_attempt; eassumption|].
  eapply caches_within_catalog_attempt; eassumption.
Qed.

Lemma catalog_consistent_load_caches env w :
  catalog_consistent w -> catalog_consistent (load_caches env w).
Proof.
  intros (Hu & Hok & Hr & [Hh Hk]).
  destruct (load_caches_issuers_ok env w Hok) as [Hok' _]. revert Hok'.
  unfold load_caches. destruct (db_up env); intros Hok'.
  - split; [exact Hu|]. split; [exact Hok'|]. split; [exact Hr|].
    split; cbn [processed_hashes processed_keys nota_fiscal set_processed
                set_company_cache]; intros x Hx;
      apply fold_left_union_elem in Hx as [Hx | (n & Hn & <-)]; auto;
      apply in_map, Hn.
  - exact (conj Hu (conj Hok (conj Hr (conj Hh Hk)))).
Qed.

Lemma catalog_extends_load_caches env w : catalog_extends w (load_caches env w).
Proof.
  unfold load_caches. destruct (db_up env);
    [|apply catalog_extends_same; unfold same_catalog, same_issuers; cbn;
      repeat split; reflexivity].
  unfold catalog_extends.
  cbn [processed_hashes processed_keys nota_fiscal empresa company_cache
       set_processed set_company_cache].
  split; [exists []; rewrite app_nil_r; reflexivity|].
  split; [exists []; rewrite app_nil_r; reflexivity|].
  split; [intros x Hx; apply fold_left_union_elem; auto|].
  split; [intros x Hx; apply fold_left_union_elem; auto|].
  generalize (company_cache w). induction (empresa w) as [|e l IH]; intros c;
    cbn [fold_left]; [reflexivity|].
  etransitivity; [|apply IH]. rewrite dom_insert. apply union_subseteq_r.
Qed.

(** X8.  Processing a file never breaks the UNIQUE constraints of
    [nota_fiscal]: when no access key and no content hash occurs twice in the
    table before [process_single_file_with_retry], none does afterwards,
    whatever faults hit the attempts (a failing move, a failing rollback, a
    database that cannot be opened). *)
Theorem process_single_file_with_retry_unique_documents env source w r w' :
  process_single_file_with_retry env source w = (r, w') ->
  unique_documents (nota_fiscal w) -> unique_documents (nota_fiscal w').
Proof.
  apply (process_single_file_with_retry_invariant env
           (fun w => unique_documents (nota_fiscal w))).
  - apply unique_documents_frame.
  - apply unique_documents_attempt.
Qed.

Lemma process_single_file_with_retry_unique_documents_witness :
  let w' := (process_single_file_with_retry env_rollback_fails inbox_file world_s1).2 in
  unique_documents (nota_fiscal world_s1) /\ unique_documents (nota_fiscal w').
Proof.
  intros w'.
  assert (H0 : unique_documents (nota_fiscal world_s1)) by (split; apply NoDup_nil_2).
  split; [exact H0|].
  exact (process_single_file_with_retry_unique_documents env_rollback_fails
           inbox_file world_s1 _ _ (surjective_pairing _) H0).
Defined.

(** X9.  Processing a file keeps the issuer table consistent and the
    foreign key of [nota_fiscal] satisfied: CNPJs and ids of [empresa] stay
    unique, the cache keeps repeating rows of the table, and the
    [empresa_id] of every document is the id of a row of [empresa]. *)
Theorem process_single_file_with_retry_issuers env source w r w' :
  process_single_file_with_retry env source w = (r, w') ->
  issuers_ok w -> documents_reference_issuers w ->
  issuers_ok w' /\ documents_reference_issuers w'.
Proof.
  intros H Hok Hr.
  refine (process_single_file_with_retry_invariant env
            (fun w => issuers_ok w /\ documents_reference_issuers w)
            _ _ _ _ _ _ H (conj Hok Hr)).
  - apply issuers_references_frame.
  - intros q id k w1 res w2 Hrun [H1 H2].
    eauto using issuers_ok_attempt, references_attempt.
Qed.

Lemma process_single_file_with_retry_issuers_witness :
  let w' := (process_single_file_with_retry env0 inbox_file world_s1).2 in
  issuers_ok world_s1 /\ documents_reference_issuers world_s1 /\
  issuers_ok w' /\ documents_reference_issuers w'.
Proof.
  intros w'.
  assert (H0 : issuers_ok world_s1) by (apply issuers_ok_fresh; reflexivity).
  assert (H1 : documents_reference_issuers world_s1) by (intros n []).
  split; [exact H0|]. split; [exact H1|].
  exact (process_single_file_with_retry_issuers env0 inbox_file world_s1 _ _
           (surjective_pairing _) H0 H1).
Defined.

(** X10.  The in-memory caches never run ahead of the catalog: when every
    hash in [processed_hashes] and every key in [processed_keys] belongs to a
    row of [nota_fiscal] before a file is processed, the same holds
    afterwards.  (The converse fails: after a failed rollback the table holds
    a row that the caches do not know.) *)
Theorem process_single_file_with_retry_caches_within_catalog env source w r w' :
  process_single_file_with_retry env source w = (r, w') ->
  caches_within_catalog w -> caches_within_catalog w'.
Proof.
  apply (process_single_file_with_retry_invariant env caches_within_catalog).
  - apply caches_within_catalog_frame.
  - apply caches_within_catalog_attempt.
Qed.

Lemma process_single_file_with_retry_caches_within_catalog_witness :
  let w' := (process_single_file_with_retry env0 inbox_file world_s1).2 in
  caches_within_catalog world_s1 /\ caches_within_catalog w'.
Proof.
  intros w'.
  assert (H0 : caches_within_catalog world_s1).
  { split; intros x Hx; apply elem_of_empty in Hx; destruct Hx. }
  split; [exact H0|].
  exact (process_single_file_with_retry_caches_within_catalog env0 inbox_file
           world_s1 _ _ (surjective_pairing _) H0).
Defined.

(** X11.  Processing a file only ever adds to the catalog: the rows of
    [nota_fiscal] before the call are a prefix of the rows after it (the
    compensating DELETE removes nothing but the row just inserted), the ids
    and CNPJs of [empresa] before the call are a prefix of those after it
    (issuers are renamed, never removed or renumbered), and the three caches
    keep all their entries. *)
Theorem process_single_file_with_retry_extends_catalog env source w r w' :
  process_single_file_with_retry env source w = (r, w') ->
  catalog_extends w w'.
Proof.
  intros H.
  refine (process_single_file_with_retry_invariant env (catalog_extends w)
            _ _ _ _ _ _ H (catalog_extends_refl w)).
  - intros w1 w2 Hs Hext. eapply catalog_extends_trans; [exact Hext|].
    apply catalog_extends_same, Hs.
  - intros q id k w1 res w2 Hrun Hext.
    eapply catalog_extends_trans; [exact Hext|].
    eapply catalog_extends_attempt, Hrun.
Qed.

Lemma process_single_file_with_retry_extends_catalog_witness :
  let w' := (process_single_file_with_retry env_move_fails inbox_file world_s1).2 in
  catalog_extends world_s1 w'.
Proof.
  intros w'.
  exact (process_single_file_with_retry_extends_catalog env_move_fails inbox_file
           world_s1 _ _ (surjective_pairing _)).
Defined.

(** X12.  The whole run keeps the catalog consistent and only adds to it:
    started on a consistent catalog, [main] (the caches loaded, then any
    number of passes of the loop, each a scan in batches, a reconciliation
    when one is due, and the pause) ends on a consistent catalog that extends
    the one it started from. *)
Theorem main_keeps_catalog_consistent env listings w :
  catalog_consistent w ->
  catalog_consistent (main env listings w) /\
  catalog_extends w (main env listings w).
Proof.
  intros Hc. split.
  - revert Hc. apply (catalog_main_invariant env catalog_consistent).
    + apply catalog_consistent_frame.
    + apply catalog_consistent_attempt.
    + apply catalog_consistent_load_caches.
  - apply (catalog_main_invariant env (catalog_extends w)).
    + intros w1 w2 Hs Hext. eapply catalog_extends_trans; [exact Hext|].
      apply catalog_extends_same, Hs.
    + intros q id k w1 res w2 Hrun Hext.
      eapply catalog_extends_trans; [exact Hext|].
      eapply catalog_extends_attempt, Hrun.
    + intros w1 Hext. eapply catalog_extends_trans; [exact Hext|].
      apply catalog_extends_load_caches.
    + apply catalog_extends_refl.
Qed.

Lemma main_keeps_catalog_consistent_witness :
  catalog_consistent world_s1 /\
  catalog_consistent (main env0 [[inbox_file]; []] world_s1) /\
  catalog_extends world_s1 (main env0 [[inbox_file]; []] world_s1).
Proof.
  assert (H0 : catalog_consistent world_s1).
  { split; [split; apply NoDup_nil_2|].
    split; [apply issuers_ok_fresh; reflexivity|].
    split; [intros n []|].
    split; intros x Hx; apply elem_of_empty in Hx; destruct Hx. }
  split; [exact H0|].
  exact (main_keeps_catalog_consistent env0 [[inbox_file]; []] world_s1 H0).
Defined.

(** * The audit tables across an attempt *)

(** An attempt writes to one audit row only; it creates and deletes none,
    counts itself in that row and appends one attempt row for it. *)
Lemma run_attempt_audit env q id k w res w' :
  run_attempt env q id k w = (res, w') ->
  audit_seq w' = audit_seq w /\
  (forall id', id' <> id -> processing_audit w' !! id' = processing_audit w !! id') /\
  audit_identity <$> processing_audit w' !! id
    = audit_identity <$> processing_audit w !! id /\
  (db_up env = true ->
   a_attempt_count <$> processing_audit w' !! id
     = S <$> (a_attempt_count <$> processing_audit w !! id) /\
   exists row, processing_attempts w' = processing_attempts w ++ [row] /\
               t_audit_id row = id /\ t_attempt_number row = k) /\
  (db_up env = false ->
   processing_audit w' = processing_audit w /\
   processing_attempts w' = processing_attempts w).
Proof.
  unfold run_attempt, atomic_process_file, insert_and_move, calculate_file_hash,
    unexpected_error, rollback_after_move_failure, shutil_move, unlink, ET_parse,
    update_processing_status, record_attempt.
  destruct (db_up env) eqn:Hdb;
  cbn [files set_processing_audit set_files logger processed_hashes
       processed_keys now nota_fiscal set_nota_fiscal]; intros H.
  all: repeat case_match; simplify_eq; try company_frame; cbn in *; rewrite_frame; cbn.
  all: split; [reflexivity|].
  all: split; [intros id' Hne; rewrite ?lookup_alter_ne by congruence; reflexivity|].
  all: split; [rewrite ?lookup_alter_eq;
               destruct (processing_audit w !! id); reflexivity|].
  all: split; [|intros; try discriminate; split; reflexivity].
  all: intros; try discriminate.
  all: split; [rewrite ?lookup_alter_eq;
               destruct (processing_audit w !! id); reflexivity|].
  all: eexists; split; [reflexivity|]; split; reflexivity.
Qed.

Lemma move_to_dead_letter_audit env q id msg et w :
  let w' := move_to_dead_letter env q id msg et w in
  audit_seq w' = audit_seq w /\
  (forall id', id' <> id -> processing_audit w' !! id' = processing_audit w !! id') /\
  audit_identity <$> processing_audit w' !! id
    = audit_identity <$> processing_audit w !! id /\
  a_attempt_count <$> processing_audit w' !! id
    = a_attempt_count <$> processing_audit w !! id /\
  processing_attempts w' = processing_attempts w.
Proof.
  unfold move_to_dead_letter, shutil_move, update_processing_status.
  repeat case_match; simplify_eq; cbn;
    (split; [reflexivity|]);
    (split; [intros id' Hne; rewrite ?lookup_alter_ne by congruence; reflexivity|]);
    rewrite ?lookup_alter_eq; destruct (processing_audit w !! id);
    repeat split; reflexivity.
Qed.

(** The audit tables across the retry loop, started at attempt [a] with [n]
    attempts left. *)
Lemma retry_loop_audit env q id n :
  forall a result w r' w',
  retry_loop env (seq a n) q id result w = (r', w') ->
  (0 < n)%nat ->
  (a <= r_attempts r')%nat /\
  audit_seq w' = audit_seq w /\
  (forall id', id' <> id -> processing_audit w' !! id' = processing_audit w !! id') /\
  audit_identity <$> processing_audit w' !! id
    = audit_identity <$> processing_audit w !! id /\
  (db_up env = true ->
   a_attempt_count <$> processing_audit w' !! id
     = (fun c => c + S (r_attempts r' - a))%nat
         <$> (a_attempt_count <$> processing_audit w !! id) /\
   exists rows,
     processing_attempts w' = processing_attempts w ++ rows /\
     map t_audit_id rows = repeat id (S (r_attempts r' - a)) /\
     map t_attempt_number rows = seq a (S (r_attempts r' - a))).
Proof.
  induction n as [|n IH]; intros a result w r' w' Hloop Hn; [lia|].
  cbn [seq retry_loop] in Hloop.
  destruct (run_attempt env q id a w) as [[[success msg] et] w1] eqn:Hrun.
  destruct (run_attempt_audit _ _ _ _ _ _ _ Hrun) as (Hseq & Hoth & Hid & Hup & _).
  assert (Hone : r_attempts r' = a -> audit_seq w' = audit_seq w1 ->
            (forall id', id' <> id ->
               processing_audit w' !! id' = processing_audit w1 !! id') ->
            audit_identity <$> processing_audit w' !! id
              = audit_identity <$> processing_audit w1 !! id ->
            a_attempt_count <$> processing_audit w' !! id
              = a_attempt_count <$> processing_audit w1 !! id ->
            processing_attempts w' = processing_attempts w1 ->
            (a <= r_attempts r')%nat /\
            audit_seq w' = audit_seq w /\
            (forall id', id' <> id ->
               processing_audit w' !! id' = processing_audit w !! id') /\
            audit_identity <$> processing_audit w' !! id
              = audit_identity <$> processing_audit w !! id /\
            (db_up env = true ->
             a_attempt_count <$> processing_audit w' !! id
               = (fun c => c + S (r_attempts r' - a))%nat
                   <$> (a_attempt_count <$> processing_audit w !! id) /\
             exists rows,
               processing_attempts w' = processing_attempts w ++ rows /\
               map t_audit_id rows = repeat id (S (r_attempts r' - a)) /\
               map t_attempt_number rows = seq a (S (r_attempts r' - a)))).
  { intros Hr Hs Ho Hi Hc Ha. rewrite Hr, Nat.sub_diag.
    split; [lia|]. split; [congruence|].
    split; [intros id' Hne; rewrite Ho, Hoth by assumption; reflexivity|].
    split; [congruence|].
    intros Hdb. destruct (Hup Hdb) as (Hcount & row & Hrows & Hrid & Hrk).
    split.
    - rewrite Hc, Hcount. destruct (processing_audit w !! id); simpl; [|reflexivity].
      f_equal. lia.
    - exists [row]. rewrite Ha, Hrows. cbn [map repeat seq].
      rewrite Hrid, Hrk. auto. }
  destruct success.
  { injection Hloop as <- <-. apply Hone; reflexivity. }
  destruct (Nat.ltb a (MAX_RETRY_ATTEMPTS env)).
  - destruct (backoff env a <? 0)%Z.
    { injection Hloop as <- <-. apply Hone; reflexivity. }
    destruct n as [|n].
    { cbn [seq retry_loop] in Hloop. injection Hloop as <- <-.
      apply Hone; reflexivity. }
    apply IH in Hloop; [|lia].
    destruct Hloop as (Hge & Hs & Ho & Hi & Hd).
    cbn [sleep logger audit_seq processing_audit processing_attempts] in *.
    split; [lia|]. split; [congruence|].
    split; [intros id' Hne; rewrite Ho, Hoth by assumption; reflexivity|].
    split; [congruence|].
    intros Hdb. destruct (Hup Hdb) as (Hcount & row & Hrows & Hrid & Hrk).
    destruct (Hd Hdb) as (Hc' & rows & Hrows' & Hids & Hnums).
    replace (S (r_attempts r' - a)) with (S (S (r_attempts r' - S a))) by lia.
    split.
    + rewrite Hc', Hcount. destruct (processing_audit w !! id); simpl; [|reflexivity].
      f_equal. lia.
    + exists (row :: rows). rewrite Hrows', Hrows, <- app_assoc.
      split; [reflexivity|]. cbn [map]. rewrite Hids, Hnums, Hrid, Hrk.
      split; reflexivity.
  - destruct (move_to_dead_letter_audit env q id msg et w1) as (Hs & Ho & Hi & Hc & Ha).
    destruct n as [|n].
    { cbn [seq retry_loop] in Hloop. injection Hloop as <- <-.
      apply Hone; auto. }
    apply IH in Hloop; [|lia].
    destruct Hloop as (Hge & Hs' & Ho' & Hi' & Hd).
    split; [lia|]. split; [congruence|].
    split; [intros id' Hne; rewrite Ho', Ho, Hoth by assumption; reflexivity|].
    split; [congruence|].
    intros Hdb. destruct (Hup Hdb) as (Hcount & row & Hrows & Hrid & Hrk).
    destruct (Hd Hdb) as (Hc' & rows & Hrows' & Hids & Hnums).
    replace (S (r_attempts r' - a)) with (S (S (r_attempts r' - S a))) by lia.
    split.
    + rewrite Hc', Hc, Hcount. destruct (processing_audit w !! id); simpl; [|reflexivity].
      f_equal. lia.
    + exists (row :: rows). rewrite Hrows', Ha, Hrows, <- app_assoc.
      split; [reflexivity|]. cbn [map]. rewrite Hids, Hnums, Hrid, Hrk.
      split; reflexivity.
Qed.

Lemma retry_loop_audit_id env attempts q id :
  forall result w,
  r_audit_id (retry_loop env attempts q id result w).1 = r_audit_id result /\
  r_file (retry_loop env attempts q id result w).1 = r_file result.
Proof.
  induction attempts as [|a rest IH]; intros result w; cbn [retry_loop]; [auto|].
  destruct (run_attempt env q id a w) as [[[success msg] et] w1].
  destruct success; [split; reflexivity|].
  destruct (Nat.ltb a (MAX_RETRY_ATTEMPTS env));
    [destruct (backoff env a <? 0)%Z; [split; reflexivity|] |];
    match goal with
    | |- context [retry_loop env rest q id ?r ?w'] =>
        destruct (IH r w') as [H1 H2]; rewrite H1, H2; split; reflexivity
    end.
Qed.

(** * The audit trail of one file *)

Lemma process_single_file_with_retry_audit_shape env source w r w' :
  process_single_file_with_retry env source w = (r, w') ->
  (r_audit_id r = None /\ r_attempts r = 0%nat /\
   processing_audit w' = processing_audit w /\ audit_seq w' = audit_seq w /\
   processing_attempts w' = processing_attempts w)
  \/
  (let id := S (audit_seq w) in
   r_audit_id r = Some id /\ db_up env = true /\ audit_seq w' = id /\
   (forall id', id' <> id -> processing_audit w' !! id' = processing_audit w !! id') /\
   exists f row rows,
     files w !! source = Some f /\
     processing_audit w' !! id = Some row /\
     audit_identity row = (file_hash f, path_name source, path_str source) /\
     a_attempt_count row = r_attempts r /\
     processing_attempts w' = processing_attempts w ++ rows /\
     map t_audit_id rows = repeat id (r_attempts r) /\
     map t_attempt_number rows = seq 1 (r_attempts r)).
Proof.
  unfold process_single_file_with_retry, calculate_file_hash,
    create_processing_record, move_to_quarantine, shutil_move,
    update_processing_status.
  destruct (files w !! source) as [f|] eqn:Hsrc; cbn [logger files];
    [|intros [= <- <-]; left; repeat split; reflexivity].
  destruct (negb (truthy (file_hash f)));
    [intros [= <- <-]; left; repeat split; reflexivity|].
  destruct (db_up env) eqn:Hdb;
    [|intros [= <- <-]; left; repeat split; reflexivity].
  cbn [set_processing_audit files now].
  destruct (quarantine_move_fails env source).
  - intros [= <- <-]. right. cbv zeta. cbn [r_audit_id r_attempts].
    split; [reflexivity|]. split; [reflexivity|]. split; [reflexivity|].
    split.
    { intros id' Hne. cbn. rewrite lookup_alter_ne, lookup_insert_ne by congruence.
      reflexivity. }
    eexists f, _, []. split; [reflexivity|]. cbn.
    rewrite lookup_alter_eq, lookup_insert_eq. cbn.
    split; [reflexivity|]. rewrite app_nil_r. repeat split; reflexivity.
  - rewrite Hsrc. intros Hloop. right. cbv zeta.
    destruct (MAX_RETRY_ATTEMPTS env) as [|m] eqn:Hmax.
    + cbn [seq retry_loop] in Hloop. injection Hloop as <- <-.
      cbn [r_audit_id r_attempts].
      split; [reflexivity|]. split; [reflexivity|]. split; [reflexivity|].
      split.
      { intros id' Hne. cbn. rewrite lookup_alter_ne, lookup_insert_ne by congruence.
        reflexivity. }
      eexists f, _, []. split; [reflexivity|]. cbn.
      rewrite lookup_alter_eq, lookup_insert_eq. cbn.
      split; [reflexivity|]. rewrite app_nil_r. repeat split; reflexivity.
    + pose proof Hloop as Hspec.
      apply retry_loop_audit in Hloop; [|lia].
      destruct Hloop as (Hge & Hseq & Hoth & Hid & Hd).
      destruct (Hd Hdb) as (Hcount & rows & Hrows & Hids & Hnums).
      assert (Hrid : r_audit_id r = Some (S (audit_seq w))).
      { match type of Hspec with
        | retry_loop ?e ?a ?q ?i ?res ?w0 = _ =>
            pose proof (proj1 (retry_loop_audit_id e a q i res w0)) as Hr
        end.
        rewrite Hspec in Hr. exact Hr. }
      cbn in Hseq, Hoth, Hid, Hcount, Hrows.
      rewrite lookup_alter_eq, lookup_insert_eq in Hid, Hcount. cbn in Hid, Hcount.
      replace (S (r_attempts r - 1)) with (r_attempts r) in * by lia.
      split; [exact Hrid|]. split; [reflexivity|]. split; [exact Hseq|].
      split.
      { intros id' Hne. rewrite Hoth by assumption.
        rewrite lookup_alter_ne, lookup_insert_ne by congruence. reflexivity. }
      destruct (processing_audit w' !! S (audit_seq w)) as [row|]; [|discriminate].
      cbn in Hid, Hcount. apply (inj Some) in Hid. apply (inj Some) in Hcount.
      exists f, row, rows.
      split; [reflexivity|]. split; [reflexivity|]. split; [exact Hid|].
      split; [exact Hcount|]. repeat split; assumption.
Qed.

(** X13.  Every file that gets as far as the audit table gets a row of its
    own: the id returned is the next value of the AUTOINCREMENT sequence, no
    row had it before, the row records the content hash, the name and the
    path of the file, and whatever happens to the file afterwards, no other
    row of [processing_audit] is changed. *)
Theorem process_single_file_with_retry_audit_row env source w r w' id :
  process_single_file_with_retry env source w = (r, w') ->
  r_audit_id r = Some id ->
  audit_ids_bounded w ->
  id = S (audit_seq w) /\ audit_seq w' = id /\
  processing_audit w !! id = None /\
  (forall id' row, processing_audit w !! id' = Some row ->
     processing_audit w' !! id' = Some row) /\
  exists f row,
    files w !! source = Some f /\
    processing_audit w' !! id = Some row /\
    a_file_hash row = file_hash f /\
    a_filename row = path_name source /\
    a_original_path row = path_str source.
Proof.
  intros Hrun Hid Hb.
  destruct (process_single_file_with_retry_audit_shape _ _ _ _ _ Hrun)
    as [(Hnone & _) | (Hsome & _ & Hseq & Hoth & f & row & rows & Hf & Hrow & Hident & _)];
    [congruence|].
  rewrite Hid in Hsome. injection Hsome as ->.
  assert (Hfresh : processing_audit w !! S (audit_seq w) = None).
  { destruct (processing_audit w !! S (audit_seq w)) as [x|] eqn:E; [|reflexivity].
    apply Hb in E. lia. }
  split; [reflexivity|]. split; [exact Hseq|]. split; [exact Hfresh|].
  split.
  - intros id' row' Hrow'. rewrite Hoth; [exact Hrow'|]. congruence.
  - exists f, row. unfold audit_identity in Hident. injection Hident as H1 H2 H3.
    auto.
Qed.

Lemma process_single_file_with_retry_audit_row_witness :
  let rw := process_single_file_with_retry env0 inbox_file world_s1 in
  r_audit_id rw.1 = Some 1%nat /\ audit_ids_bounded world_s1 /\
  1%nat = S (audit_seq world_s1) /\ audit_seq rw.2 = 1%nat /\
  processing_audit world_s1 !! 1%nat = None /\
  (forall id' row, processing_audit world_s1 !! id' = Some row ->
     processing_audit rw.2 !! id' = Some row) /\
  exists f row,
    files world_s1 !! inbox_file = Some f /\
    processing_audit rw.2 !! 1%nat = Some row /\
    a_file_hash row = file_hash f /\
    a_filename row = path_name inbox_file /\
    a_original_path row = path_str inbox_file.
Proof.
  intros rw.
  assert (Hid : r_audit_id rw.1 = Some 1%nat) by (vm_compute; reflexivity).
  assert (Hb : audit_ids_bounded world_s1).
  { intros id row H. cbn in H. rewrite lookup_empty in H. discriminate. }
  split; [exact Hid|]. split; [exact Hb|].
  exact (process_single_file_with_retry_audit_row env0 inbox_file world_s1
           rw.1 rw.2 1%nat (surjective_pairing rw) Hid Hb).
Defined.



(** * Consistency of the audit tables *)

Lemma audit_consistent_single env source w r w' :
  process_single_file_with_retry env source w = (r, w') ->
  audit_consistent w -> audit_consistent w'.
Proof.
  intros Hrun [Hb Hfk].
  destruct (process_single_file_with_retry_audit_shape _ _ _ _ _ Hrun)
    as [(_ & _ & Ha & Hs & Ht)
       | (_ & _ & Hseq & Hoth & f & row & rows & _ & Hrow & _ & _ & Hrows & Hids & _)].
  - split.
    + intros id row. rewrite Ha, Hs. apply Hb.
    + intros t. rewrite Ha, Ht. apply Hfk.
  - split.
    + intros id' row'. rewrite Hseq.
      destruct (decide (id' = S (audit_seq w))) as [->|Hne]; [lia|].
      rewrite Hoth by assumption. intros H. apply Hb in H. lia.
    + intros t. rewrite Hrows. intros Hin.
      assert (Hcase : t_audit_id t = S (audit_seq w) \/
                      (t_audit_id t <> S (audit_seq w) /\ In t (processing_attempts w))).
      { apply in_app_iff in Hin as [Hin | Hin].
        - destruct (decide (t_audit_id t = S (audit_seq w))); auto.
        - left. apply (in_map t_audit_id) in Hin. rewrite Hids in Hin.
          apply repeat_spec in Hin. exact Hin. }
      destruct Hcase as [-> | [Hne Hin']].
      * rewrite Hrow. eauto.
      * rewrite Hoth by assumption. apply Hfk, Hin'.
Qed.

Lemma reconcile_stuck_records_is_Some w id :
  is_Some (processing_audit (reconcile_stuck_records w) !! id)
  <-> is_Some (processing_audit w !! id).
Proof.
  unfold reconcile_stuck_records. cbn [processing_audit set_processing_audit].
  rewrite reconcile_records_lookup.
  destruct (existsb _ _); [|reflexivity].
  rewrite fmap_is_Some. reflexivity.
Qed.

Lemma audit_consistent_same w w' :
  processing_audit w' = processing_audit w -> audit_seq w' = audit_seq w ->
  processing_attempts w' = processing_attempts w ->
  audit_consistent w -> audit_consistent w'.
Proof.
  unfold audit_consistent, audit_ids_bounded, attempts_reference_audit.
  intros -> -> ->. auto.
Qed.

(** X15.  The whole run keeps the audit tables consistent: no row of
    [processing_audit] has an id beyond the AUTOINCREMENT sequence, and the
    foreign key of [processing_attempts] holds, every attempt row pointing
    to an existing audit row.  Neither the controller nor the reconciler
    deletes an audit row. *)
Theorem main_keeps_audit_consistent env listings w :
  audit_consistent w -> audit_consistent (main env listings w).
Proof.
  apply (main_invariant env audit_consistent).
  - apply audit_consistent_single.
  - intros l m w1. apply audit_consistent_same; reflexivity.
  - intros d w1. apply audit_consistent_same; reflexivity.
  - intros w1 [Hb Hfk]. split.
    + intros id row H.
      assert (Hs : is_Some (processing_audit w1 !! id)).
      { apply reconcile_stuck_records_is_Some. eauto. }
      destruct Hs as [row0 Hrow0]. apply Hb in Hrow0. exact Hrow0.
    + intros t Ht. apply reconcile_stuck_records_is_Some. apply Hfk, Ht.
  - intros rows w1. apply audit_consistent_same; reflexivity.
  - intros w1. unfold load_caches. destruct (db_up env);
      apply audit_consistent_same; reflexivity.
Qed.

Lemma main_keeps_audit_consistent_witness :
  audit_consistent world_s1 /\
  audit_consistent (main env0 [[inbox_file]; []] world_s1).
Proof.
  assert (H0 : audit_consistent world_s1).
  { split.
    - intros id row H. cbn in H. rewrite lookup_empty in H. discriminate.
    - intros t []. }
  split; [exact H0|].
  exact (main_keeps_audit_consistent env0 [[inbox_file]; []] world_s1 H0).
Defined.

(** * The filesystem across the controller *)

Lemma sucesso_not_erro : lit "sucesso" <> lit "erro".
Proof. vm_compute. discriminate. Qed.

(** The controller gives up before the loop without touching the
    filesystem, or reaches the loop with the file in quarantine. *)
Lemma process_single_file_with_retry_staged env source w r w' :
  process_single_file_with_retry env source w = (r, w') ->
  (r_status r = lit "erro" /\ files w' = files w)
  \/
  (exists f w0,
     let id := S (audit_seq w) in
     let q := quarantine_path env source w in
     db_up env = true /\
     files w !! source = Some f /\
     files w0 = <[q := f]> (delete source (files w)) /\
     audit_status id w0 = Some QUARANTINED /\
     retry_loop env (seq 1 (MAX_RETRY_ATTEMPTS env)) q id
       {| r_file := path_name source; r_status := lit "erro";
          r_audit_id := Some id; r_attempts := 0 |} w0 = (r, w')).
Proof.
  unfold process_single_file_with_retry, calculate_file_hash,
    create_processing_record, move_to_quarantine, shutil_move,
    update_processing_status.
  destruct (files w !! source) as [f|] eqn:Hsrc; cbn [logger files];
    [|intros [= <- <-]; left; split; reflexivity].
  destruct (negb (truthy (file_hash f)));
    [intros [= <- <-]; left; split; reflexivity|].
  destruct (db_up env) eqn:Hdb;
    [|intros [= <- <-]; left; split; reflexivity].
  cbn [set_processing_audit files now].
  fold (quarantine_path env source w).
  destruct (quarantine_move_fails env source).
  - intros [= <- <-]. left. split; reflexivity.
  - rewrite Hsrc. intros Hloop. right. eexists f, _.
    split; [reflexivity|]. split; [reflexivity|].
    split; [|split; [|exact Hloop]]; try reflexivity.
    unfold audit_status. cbn. rewrite lookup_alter_eq, lookup_insert_eq.
    reflexivity.
Qed.

(** Where the controller leaves the file, by way of ending. *)
Lemma process_single_file_with_retry_files env source w r w' :
  process_single_file_with_retry env source w = (r, w') ->
  let id := S (audit_seq w) in
  let q := quarantine_path env source w in
  let dead := DEAD_LETTER_DIRECTORY </> path_name q in
  (r_status r = lit "erro" /\ files w' = files w)
  \/
  exists f,
    files w !! source = Some f /\
    let staged := <[q := f]> (delete source (files w)) in
    (r_status r = lit "erro" /\ files w' = staged)
    \/ (r_status r = lit "erro" /\ files w' = <[dead := f]> (delete q staged))
    \/ (r_status r = lit "sucesso" /\ files w' = delete q staged /\
        audit_status id w' = Some DUPLICATE)
    \/ (r_status r = lit "sucesso" /\
        exists dest, staged !! dest = None /\
                     files w' = <[dest := f]> (delete q staged) /\
                     audit_status id w' = Some SUCCESS).
Proof.
  intros Hrun id q dead. subst id q dead.
  destruct (process_single_file_with_retry_staged _ _ _ _ _ Hrun)
    as [Hearly | (f & w1 & Hdb & Hsrc & Hf1 & Hst1 & Hloop)]; [left; exact Hearly|].
  right. exists f. split; [exact Hsrc|]. cbv zeta. rewrite <- Hf1.
  destruct (MAX_RETRY_ATTEMPTS env) as [|m] eqn:Hmax.
  { cbn [seq retry_loop] in Hloop. injection Hloop as <- <-.
    left. split; reflexivity. }
  rewrite <- Hmax in Hloop.
  apply (retry_loop_spec env _ _ _ 1%nat _ w1 w1) in Hloop;
    [| assumption | lia | lia | apply same_standing_refl ].
  destruct Hloop as (_ & _ & _ & _ & _ & Hout). cbn [r_status] in Hout.
  assert (Hq : files w1 !! quarantine_path env source w = Some f)
    by (rewrite Hf1; apply lookup_insert_eq).
  destruct Hout as [(Hs & res & [Hd | Hsuc]) | [(Hs & _ & Hex) | (Hs & _ & _ & res & Hfail)]].
  - destruct Hd as (_ & _ & Hfiles & _ & _ & Hst).
    right; right; left. rewrite Hst, Hst1. auto.
  - destruct Hsuc as (_ & f' & info & t & Hq' & _ & Hd & _ & Hfiles & _ & _ & Hst & _).
    rewrite Hq in Hq'. injection Hq' as <-.
    right; right; right. split; [exact Hs|]. eexists. split; [exact Hd|].
    split; [exact Hfiles|]. rewrite Hst, Hst1. reflexivity.
  - destruct Hex as (_ & _ & [(f' & Hq' & _ & Hfiles & _) | (_ & Hfiles & _)]).
    + rewrite Hq in Hq'. injection Hq' as <-. right; left. auto.
    + left. auto.
  - destruct Hfail as (_ & Hfiles & _). left. auto.
Qed.

(** X16.  A file whose processing ends in status [erro] is never lost: its
    content is still in the inbox (when the controller gave up before the
    quarantine move), in quarantine, or in the dead-letter directory. *)
Theorem failed_file_is_kept env source w r w' f :
  process_single_file_with_retry env source w = (r, w') ->
  files w !! source = Some f ->
  r_status r = lit "erro" ->
  let q := quarantine_path env source w in
  files w' !! source = Some f \/ files w' !! q = Some f \/
  files w' !! (DEAD_LETTER_DIRECTORY </> path_name q) = Some f.
Proof.
  intros Hrun Hsrc Herr q. subst q.
  destruct (process_single_file_with_retry_files _ _ _ _ _ Hrun)
    as [(_ & ->) | (f' & Hsrc' & [(_ & ->) | [(_ & ->) | [(Hs & _) | (Hs & _)]]])];
    try (rewrite Hs in Herr; destruct (sucesso_not_erro Herr)).
  - left. exact Hsrc.
  - rewrite Hsrc in Hsrc'. injection Hsrc' as <-.
    right; left. apply lookup_insert_eq.
  - rewrite Hsrc in Hsrc'. injection Hsrc' as <-.
    right; right. apply lookup_insert_eq.
Qed.

Lemma failed_file_is_kept_witness :
  let rw := process_single_file_with_retry env0 inbox_file world_not_nfe in
  let q := quarantine_path env0 inbox_file world_not_nfe in
  files world_not_nfe !! inbox_file = Some not_nfe_file /\
  r_status rw.1 = lit "erro" /\
  (files rw.2 !! inbox_file = Some not_nfe_file \/
   files rw.2 !! q = Some not_nfe_file \/
   files rw.2 !! (DEAD_LETTER_DIRECTORY </> path_name q) = Some not_nfe_file).
Proof.
  intros rw q.
  assert (Hsrc : files world_not_nfe !! inbox_file = Some not_nfe_file)
    by (vm_compute; reflexivity).
  assert (Herr : r_status rw.1 = lit "erro") by (vm_compute; reflexivity).
  split; [exact Hsrc|]. split; [exact Herr|].
  exact (failed_file_is_kept env0 inbox_file world_not_nfe rw.1 rw.2 not_nfe_file
           (surjective_pairing rw) Hsrc Herr).
Defined.

(** X17.  Processing a file disturbs no other file: every file stored under
    a path other than the inbox path of the processed file, its quarantine
    path and its dead-letter path is still there with the same content
    afterwards.  In particular the archive is never overwritten. *)
Theorem other_files_untouched env source w r w' p g :
  process_single_file_with_retry env source w = (r, w') ->
  files w !! p = Some g ->
  let q := quarantine_path env source w in
  p <> source -> p <> q -> p <> DEAD_LETTER_DIRECTORY </> path_name q ->
  files w' !! p = Some g.
Proof.
  intros Hrun Hp q Hsrc Hq Hdead. subst q.
  destruct (process_single_file_with_retry_files _ _ _ _ _ Hrun)
    as [(_ & ->) | (f' & _ & [(_ & ->) | [(_ & ->) | [(_ & -> & _) | (_ & dest & Hd & -> & _)]]])].
  - exact Hp.
  - rewrite lookup_insert_ne, lookup_delete_ne by congruence. exact Hp.
  - rewrite lookup_insert_ne, lookup_delete_ne, lookup_insert_ne, lookup_delete_ne
      by congruence. exact Hp.
  - rewrite lookup_delete_ne, lookup_insert_ne, lookup_delete_ne by congruence.
    exact Hp.
  - assert (Hne : dest <> p).
    { intros ->. rewrite lookup_insert_ne, lookup_delete_ne in Hd by congruence.
      congruence. }
    rewrite lookup_insert_ne, lookup_delete_ne, lookup_insert_ne, lookup_delete_ne
      by congruence. exact Hp.
Qed.

Lemma other_files_untouched_witness :
  let rw := process_single_file_with_retry env0 inbox_file world_two_files in
  let q := quarantine_path env0 inbox_file world_two_files in
  files world_two_files !! other_file = Some not_nfe_file /\
  other_file <> inbox_file /\ other_file <> q /\
  other_file <> DEAD_LETTER_DIRECTORY </> path_name q /\
  files rw.2 !! other_file = Some not_nfe_file.
Proof.
  intros rw q.
  assert (Hp : files world_two_files !! other_file = Some not_nfe_file)
    by (vm_compute; reflexivity).
  assert (H1 : other_file <> inbox_file) by (vm_compute; discriminate).
  assert (H2 : other_file <> q) by (vm_compute; discriminate).
  assert (H3 : other_file <> DEAD_LETTER_DIRECTORY </> path_name q)
    by (vm_compute; discriminate).
  split; [exact Hp|]. split; [exact H1|]. split; [exact H2|]. split; [exact H3|].
  exact (other_files_untouched env0 inbox_file world_two_files rw.1 rw.2
           other_file not_nfe_file (surjective_pairing rw) Hp H1 H2 H3).
Defined.

(** * Attempts of a batch *)






(** * The clock *)








(** * Content already processed *)

(** The run of the controller on a file whose content hash is in the
    cache, up to the result of the first attempt. *)
Ltac run_on_cached_hash Hdb Hmax Hqm Hsrc Htr Hin :=
  unfold process_single_file_with_retry, calculate_file_hash,
    create_processing_record, move_to_quarantine, shutil_move,
    update_processing_status;
  rewrite Hsrc, Htr, Hdb, Hqm; cbn [negb logger files set_processing_audit now];
  rewrite Hsrc;
  match goal with
  | |- context [MAX_RETRY_ATTEMPTS ?env] =>
      destruct (MAX_RETRY_ATTEMPTS env) as [|?]; [lia|]
  end;
  cbn [seq retry_loop];
  unfold run_attempt, atomic_process_file, calculate_file_hash,
    update_processing_status, record_attempt, unlink;
  rewrite Hdb; cbn [files set_files set_processing_audit processed_hashes];
  rewrite lookup_insert_eq, Htr; cbn [negb];
  rewrite (bool_decide_eq_true_2 _ Hin);
  intros [= <- <-];
  cbn [r_status r_attempts r_audit_id with_sucesso with_attempts].

Lemma cached_hash_short_circuit env source w f r w' :
  db_up env = true ->
  (0 < MAX_RETRY_ATTEMPTS env)%nat ->
  quarantine_move_fails env source = false ->
  files w !! source = Some f ->
  truthy (file_hash f) = true ->
  file_hash f ∈ processed_hashes w ->
  process_single_file_with_retry env source w = (r, w') ->
  r_status r = lit "sucesso" /\ r_attempts r = 1%nat /\
  audit_status (S (audit_seq w)) w' = Some DUPLICATE /\
  same_catalog w' w.
Proof.
  intros Hdb Hmax Hqm Hsrc Htr Hin.
  run_on_cached_hash Hdb Hmax Hqm Hsrc Htr Hin.
  split; [reflexivity|]. split; [reflexivity|].
  split.
  { unfold audit_status. cbn. rewrite !lookup_alter_eq, lookup_insert_eq.
    reflexivity. }
  unfold same_catalog, same_issuers; cbn; repeat split; reflexivity.
Qed.

(** X20.  A file whose content hash is already in [processed_hashes] is
    dropped at the first attempt without being parsed: the controller
    reports [sucesso] after one attempt, the audit row ends in DUPLICATE,
    the file is removed from the inbox and deleted from quarantine, the
    catalog and the caches are unchanged and no time is spent sleeping. *)
Theorem cached_hash_is_dropped env source w f r w' :
  db_up env = true ->
  (0 < MAX_RETRY_ATTEMPTS env)%nat ->
  quarantine_move_fails env source = false ->
  files w !! source = Some f ->
  truthy (file_hash f) = true ->
  file_hash f ∈ processed_hashes w ->
  process_single_file_with_retry env source w = (r, w') ->
  r_status r = lit "sucesso" /\ r_attempts r = 1%nat /\
  r_audit_id r = Some (S (audit_seq w)) /\
  audit_status (S (audit_seq w)) w' = Some DUPLICATE /\
  files w' = delete (quarantine_path env source w) (delete source (files w)) /\
  same_catalog w' w /\ sleeps w' = sleeps w /\ now w' = now w.
Proof.
  intros Hdb Hmax Hqm Hsrc Htr Hin.
  run_on_cached_hash Hdb Hmax Hqm Hsrc Htr Hin.
  split; [reflexivity|]. split; [reflexivity|]. split; [reflexivity|].
  split.
  { unfold audit_status. cbn. rewrite !lookup_alter_eq, lookup_insert_eq.
    reflexivity. }
  split; [cbn; apply delete_insert_eq|].
  split; [unfold same_catalog, same_issuers; cbn; repeat split; reflexivity|].
  split; reflexivity.
Qed.

Lemma cached_hash_is_dropped_witness :
  let rw := process_single_file_with_retry env0 inbox_file world_hash_in_cache in
  file_hash sample_file ∈ processed_hashes world_hash_in_cache /\
  r_status rw.1 = lit "sucesso" /\ r_attempts rw.1 = 1%nat /\
  r_audit_id rw.1 = Some (S (audit_seq world_hash_in_cache)) /\
  audit_status (S (audit_seq world_hash_in_cache)) rw.2 = Some DUPLICATE /\
  files rw.2 = delete (quarantine_path env0 inbox_file world_hash_in_cache)
                 (delete inbox_file (files world_hash_in_cache)) /\
  same_catalog rw.2 world_hash_in_cache /\
  sleeps rw.2 = sleeps world_hash_in_cache /\ now rw.2 = now world_hash_in_cache.
Proof.
  intros rw.
  assert (Hin : file_hash sample_file ∈ processed_hashes world_hash_in_cache).
  { cbn. apply elem_of_singleton. reflexivity. }
  split; [exact Hin|].
  refine (cached_hash_is_dropped env0 inbox_file world_hash_in_cache sample_file
            rw.1 rw.2 eq_refl _ eq_refl _ eq_refl Hin (surjective_pairing rw)).
  - cbn. lia.
  - vm_compute. reflexivity.
Defined.

Lemma audited_file_has_hash env source w r w' f :
  process_single_file_with_retry env source w = (r, w') ->
  files w !! source = Some f -> is_Some (r_audit_id r) ->
  truthy (file_hash f) = true.
Proof.
  unfold process_single_file_with_retry, calculate_file_hash.
  intros Hrun Hsrc Hid. rewrite Hsrc in Hrun.
  destruct (truthy (file_hash f)); [reflexivity|].
  cbn in Hrun. injection Hrun as <- <-. destruct Hid as [? [=]].
Qed.

(** X21.  Feeding the same content twice is idempotent on the catalog: once
    a file has been processed to SUCCESS, a later file with the same content
    hash (whatever its name and location) ends in DUPLICATE after one
    attempt and leaves the catalog and the caches exactly as the first file
    left them. *)
Theorem same_content_again_is_duplicate
  env source1 source2 w r1 w1 r2 w2 id1 f1 f2 :
  process_single_file_with_retry env source1 w = (r1, w1) ->
  r_audit_id r1 = Some id1 -> audit_status id1 w1 = Some SUCCESS ->
  files w !! source1 = Some f1 ->
  files w1 !! source2 = Some f2 -> file_hash f2 = file_hash f1 ->
  quarantine_move_fails env source2 = false ->
  process_single_file_with_retry env source2 w1 = (r2, w2) ->
  r_status r2 = lit "sucesso" /\ r_attempts r2 = 1%nat /\
  audit_status (S (audit_seq w1)) w2 = Some DUPLICATE /\
  same_catalog w2 w1.
Proof.
  intros Hrun1 Hid1 Hsuc Hf1 Hf2 Hhash Hqm Hrun2.
  assert (Htr : truthy (file_hash f2) = true).
  { rewrite Hhash.
    eapply audited_file_has_hash; [exact Hrun1 | exact Hf1 | rewrite Hid1; eauto]. }
  assert (Hin : file_hash f2 ∈ processed_hashes w1).
  { destruct (process_single_file_with_retry_caches _ _ _ _ _ Hrun1)
      as [(_ & _ & Hno) | (id & f & res & _ & Hid & Hsrc & w0 & Hf0 & Hh0 & _ & _ & Hs)].
    { destruct (Hno id1 Hid1 Hsuc). }
    destruct Hs as (_ & f' & info & t & Hq & _ & _ & _ & _ & Hh & _).
    rewrite Hf0, lookup_insert_eq in Hq. injection Hq as <-.
    rewrite Hf1 in Hsrc. injection Hsrc as <-.
    rewrite Hh, Hhash. apply elem_of_union_l, elem_of_singleton. reflexivity. }
  assert (Hcfg : db_up env = true /\ (0 < MAX_RETRY_ATTEMPTS env)%nat).
  { destruct (process_single_file_with_retry_cases _ _ _ _ _ Hrun1)
      as [(_ & _ & _ & _ & _ & _ & Hfp)
         | (fb & wb & Hdb & _ & _ & _ & _ & _ & _ & Hst & Hloop)].
    { rewrite (Hfp id1 Hid1) in Hsuc. discriminate. }
    split; [exact Hdb|].
    destruct (MAX_RETRY_ATTEMPTS env); [|lia].
    cbn [seq retry_loop] in Hloop. injection Hloop as <- <-.
    cbn [r_audit_id] in Hid1. injection Hid1 as <-.
    rewrite Hst in Hsuc. discriminate. }
  destruct Hcfg as [Hdb Hmax].
  exact (cached_hash_short_circuit env source2 w1 f2 r2 w2 Hdb Hmax Hqm Hf2 Htr Hin Hrun2).
Qed.

Lemma same_content_again_is_duplicate_witness :
  let rw1 := process_single_file_with_retry env0 inbox_file world_two_copies in
  let rw2 := process_single_file_with_retry env0 other_file rw1.2 in
  audit_status 1 rw1.2 = Some SUCCESS /\
  r_status rw2.1 = lit "sucesso" /\ r_attempts rw2.1 = 1%nat /\
  audit_status (S (audit_seq rw1.2)) rw2.2 = Some DUPLICATE /\
  same_catalog rw2.2 rw1.2.
Proof.
  intros rw1 rw2.
  assert (Hs : audit_status 1 rw1.2 = Some SUCCESS) by (vm_compute; reflexivity).
  split; [exact Hs|].
  refine (same_content_again_is_duplicate env0 inbox_file other_file
            world_two_copies rw1.1 rw1.2 rw2.1 rw2.2 1%nat sample_file sample_file
            (surjective_pairing rw1) _ Hs _ _ eq_refl eq_refl (surjective_pairing rw2));
    vm_compute; reflexivity.
Defined.

(** * The batches of a scan *)

Lemma batch_count_step (len n : nat) :
  (0 < n)%nat -> (0 < len)%nat ->
  Nat.div (len + n - 1) n = S (Nat.div (len - n + n - 1) n).
Proof.
  intros Hn Hlen. destruct (Nat.le_gt_cases len n) as [Hle | Hgt].
  - replace (len + n - 1)%nat with (len - 1 + 1 * n)%nat by lia.
    rewrite Nat.div_add by lia.
    replace (len - n + n - 1)%nat with (n - 1)%nat by lia.
    rewrite !Nat.div_small by lia. reflexivity.
  - replace (len + n - 1)%nat with (len - n + n - 1 + 1 * n)%nat by lia.
    rewrite Nat.div_add by lia. lia.
Qed.

Lemma batches_nil (n : nat) : (0 < n)%nat -> batches n [] = [].
Proof.
  intros Hn. unfold batches, batch_starts. cbn [length].
  rewrite Nat.div_small by lia. reflexivity.
Qed.

(** The first batch is the first [n] files; the others are the batches of
    the rest. *)
Lemma batches_cons (n : nat) (l : list Path) :
  (0 < n)%nat -> l <> [] ->
  batches n l = List.firstn n l :: batches n (List.skipn n l).
Proof.
  intros Hn Hl. unfold batches, batch_starts.
  assert (Hlen : (0 < length l)%nat) by (destruct l; [congruence | cbn; lia]).
  rewrite (batch_count_step _ _ Hn Hlen), List.length_skipn.
  cbn [seq map]. rewrite Nat.mul_0_l. cbn [List.skipn]. f_equal.
  rewrite <- seq_shift, !List.map_map. apply List.map_ext. intros j.
  replace (S j * n)%nat with (j * n + n)%nat by lia.
  rewrite <- skipn_skipn. reflexivity.
Qed.

Lemma batches_partition_aux (n : nat) :
  (0 < n)%nat ->
  forall k (l : list Path), (length l <= k)%nat ->
  List.concat (batches n l) = l /\
  Forall (fun b => (0 < length b <= n)%nat) (batches n l).
Proof.
  intros Hn. induction k as [|k IH]; intros l Hk.
  - destruct l; [|cbn in Hk; lia]. rewrite batches_nil by assumption.
    split; [reflexivity | constructor].
  - destruct l as [|p l]; [rewrite batches_nil by assumption;
                           split; [reflexivity | constructor]|].
    rewrite batches_cons by (assumption || discriminate).
    destruct (IH (List.skipn n (p :: l))) as [Hc Hf].
    { rewrite List.length_skipn. cbn [length] in *. lia. }
    cbn [List.concat]. rewrite Hc, List.firstn_skipn. split; [reflexivity|].
    constructor; [|exact Hf].
    rewrite List.length_firstn. cbn [length]. lia.
Qed.

(** X22.  The batches of [scan_and_process] partition the list of files
    found: taken in order they make up the list again, none is empty and
    none has more than [BATCH_SIZE] files, and there are as many of them as
    the [total_batches] that the scan reports. *)
Theorem batches_partition (xml_files : list Path) :
  List.concat (batches BATCH_SIZE xml_files) = xml_files /\
  Forall (fun b => (0 < length b <= BATCH_SIZE)%nat) (batches BATCH_SIZE xml_files) /\
  length (batches BATCH_SIZE xml_files)
    = Nat.div (length xml_files + BATCH_SIZE - 1) BATCH_SIZE.
Proof.
  assert (Hn : (0 < BATCH_SIZE)%nat) by (unfold BATCH_SIZE; lia).
  destruct (batches_partition_aux BATCH_SIZE Hn (length xml_files) xml_files
              (Nat.le_refl _)) as [Hc Hf].
  split; [exact Hc|]. split; [exact Hf|].
  unfold batches, batch_starts. rewrite !length_map, length_seq. reflexivity.
Qed.

(** * Batching is transparent *)

Lemma run_batch_app env (l1 l2 : list Path) :
  forall w,
  run_batch env (l1 ++ l2) w =
  let '(rs1, w1) := run_batch env l1 w in
  let '(rs2, w2) := run_batch env l2 w1 in
  (rs1 ++ rs2, w2).
Proof.
  induction l1 as [|f l1 IH]; intros w; cbn [app run_batch].
  - destruct (run_batch env l2 w). reflexivity.
  - destruct (process_single_file_with_retry env f w) as [r w1].
    rewrite IH. destruct (run_batch env l1 w1) as [rs1 w2].
    destruct (run_batch env l2 w2) as [rs2 w3]. reflexivity.
Qed.

Lemma add_stats_no_stats_r (s : Stats) : add_stats s no_stats = s.
Proof. destruct s. unfold add_stats, no_stats. cbn. f_equal; lia. Qed.

Lemma add_stats_no_stats_l (s : Stats) : add_stats no_stats s = s.
Proof. destruct s. reflexivity. Qed.

Lemma add_stats_assoc (a b c : Stats) :
  add_stats (add_stats a b) c = add_stats a (add_stats b c).
Proof. unfold add_stats. cbn. f_equal; lia. Qed.

Lemma count_result_add_stats (r : Result) (a b : Stats) :
  count_result r (add_stats a b) = add_stats a (count_result r b).
Proof.
  unfold count_result. repeat case_match; unfold add_stats; cbn; f_equal; lia.
Qed.

Lemma fold_count_add_stats (rs : list Result) :
  forall a b,
  fold_left (fun st r => count_result r st) rs (add_stats a b)
  = add_stats a (fold_left (fun st r => count_result r st) rs b).
Proof.
  induction rs as [|r rs IH]; intros a b; cbn [fold_left]; [reflexivity|].
  rewrite count_result_add_stats. apply IH.
Qed.

Lemma process_batch_app env (l1 l2 : list Path) w :
  process_batch env (l1 ++ l2) w =
  let '(s1, w1) := process_batch env l1 w in
  let '(s2, w2) := process_batch env l2 w1 in
  (add_stats s1 s2, w2).
Proof.
  unfold process_batch. rewrite run_batch_app.
  destruct (run_batch env l1 w) as [rs1 w1].
  destruct (run_batch env l2 w1) as [rs2 w2].
  rewrite fold_left_app. f_equal.
  fold no_stats.
  rewrite <- (add_stats_no_stats_r (fold_left _ rs1 no_stats)) at 1.
  apply fold_count_add_stats.
Qed.

Lemma process_batches_concat env (bs : list (list Path)) :
  forall total w,
  process_batches env bs total w =
  (add_stats total (process_batch env (List.concat bs) w).1,
   (process_batch env (List.concat bs) w).2).
Proof.
  induction bs as [|b bs IH]; intros total w; cbn [process_batches List.concat].
  - cbn. rewrite add_stats_no_stats_r. reflexivity.
  - rewrite process_batch_app.
    destruct (process_batch env b w) as [s1 w1].
    rewrite IH. destruct (process_batch env (List.concat bs) w1) as [s2 w2].
    cbn [fst snd]. rewrite add_stats_assoc. reflexivity.
Qed.

(** X23.  Cutting the scan into batches changes nothing in the sequential
    model: [scan_and_process] leaves the world in which one [process_batch]
    over all the files would leave it and its totals are the counters of
    that batch; so over a whole scan every file found is counted exactly
    once. *)
Theorem scan_and_process_is_one_batch env (xml_files : list Path) w :
  scan_and_process env xml_files w = process_batch env xml_files w /\
  let total_stats := (scan_and_process env xml_files w).1 in
  (sucesso total_stats + duplicado total_stats + erro total_stats
   = length xml_files)%nat.
Proof.
  assert (Heq : scan_and_process env xml_files w = process_batch env xml_files w).
  { unfold scan_and_process. destruct xml_files as [|p l]; [reflexivity|].
    rewrite process_batches_concat.
    destruct (batches_partition_aux BATCH_SIZE ltac:(unfold BATCH_SIZE; lia)
                (length (p :: l)) (p :: l) (Nat.le_refl _)) as [-> _].
    rewrite add_stats_no_stats_l. symmetry. apply surjective_pairing. }
  split; [exact Heq|]. rewrite Heq.
  apply (process_batch_counters env xml_files w).
Qed.

(** * More on the reconciler *)

Lemma reconcile_stuck_records_lookup w id :
  processing_audit (reconcile_stuck_records w) !! id
  = (fun row => if lost w row then mark_lost row else row)
      <$> processing_audit w !! id.
Proof.
  unfold reconcile_stuck_records. cbn [processing_audit set_processing_audit].
  rewrite reconcile_records_lookup.
  destruct (processing_audit w !! id) as [row|] eqn:Hrow;
    [|destruct (existsb _ _); reflexivity].
  cbn [fmap option_fmap option_map].
  match goal with |- (if ?b then _ else _) = _ => destruct b eqn:Hex end.
  - apply existsb_exists in Hex as ([i r] & Hin & Hp). cbn [fst snd] in Hp.
    apply andb_prop in Hp as [Hi Hnf]. apply Nat.eqb_eq in Hi. subst i.
    apply List.filter_In in Hin as [Hin Hst]. cbn [snd] in Hst.
    apply list_elem_of_In, elem_of_map_to_list in Hin.
    rewrite Hrow in Hin. injection Hin as <-.
    unfold lost. rewrite Hst, Hnf. reflexivity.
  - destruct (lost w row) eqn:Hl; [|reflexivity]. exfalso.
    unfold lost in Hl. apply andb_prop in Hl as [Hst Hnf].
    assert (Hex' : existsb (fun ir => Nat.eqb (fst ir) id
                     && negb (found_in_staging (a_filename (snd ir)) w))
                   (stuck_records w) = true).
    { apply existsb_exists. exists (id, row).
      split; [apply stuck_records_elem; assumption|].
      cbn [fst snd]. rewrite Nat.eqb_refl, Hnf. reflexivity. }
    congruence.
Qed.

Lemma is_stuck_mark_lost t row : is_stuck t (mark_lost row) = false.
Proof. reflexivity. Qed.

(** X24.  Step 2 of the reconciler spares every audit row that is not both
    stuck and lost: a row in a final status, a row that was never attempted
    (its [last_attempt_at] is NULL, so the comparison of the query is not
    true), a row attempted within the last ten minutes, and a row whose
    file name is found in a staging directory all stay exactly as they
    are. *)
Theorem reconcile_stuck_records_spares w id row :
  processing_audit w !! id = Some row ->
  (~ In (a_current_status row) intermediate_statuses \/
   a_last_attempt_at row = None \/
   (exists t, a_last_attempt_at row = Some t /\ (now w - 600 <= t)%Z) \/
   found_in_staging (a_filename row) w = true) ->
  processing_audit (reconcile_stuck_records w) !! id = Some row.
Proof.
  intros Hrow Hcase. rewrite reconcile_stuck_records_lookup, Hrow.
  cbn [fmap option_fmap option_map].
  assert (Hl : lost w row = false); [|rewrite Hl; reflexivity].
  unfold lost, is_stuck.
  destruct Hcase as [Hst | [Hnone | [(t & Ht & Hrecent) | Hfound]]].
  - rewrite bool_decide_eq_false_2; [reflexivity|].
    intros Hin. apply Hst, list_elem_of_In, Hin.
  - rewrite Hnone, andb_false_r. reflexivity.
  - rewrite Ht. apply Z.ltb_ge in Hrecent. rewrite Hrecent, andb_false_r.
    reflexivity.
  - rewrite Hfound, andb_false_r. reflexivity.
Qed.

Lemma reconcile_stuck_records_spares_witness :
  let w := set_processing_audit {[1%nat := stuck_row]} 1 empty_world in
  processing_audit w !! 1%nat = Some stuck_row /\
  processing_audit (reconcile_stuck_records w) !! 1%nat = Some stuck_row.
Proof.
  intros w.
  assert (Hrow : processing_audit w !! 1%nat = Some stuck_row)
    by (vm_compute; reflexivity).
  split; [exact Hrow|].
  refine (reconcile_stuck_records_spares w 1%nat stuck_row Hrow _).
  right; right; left. exists 0%Z. split; [reflexivity|]. cbn. lia.
Defined.

(** X25.  Step 2 of the reconciler is idempotent: run again on the world it
    has just left, it changes nothing (a row marked lost is in a final
    status, and the other rows are judged as before). *)
Theorem reconcile_stuck_records_idempotent w :
  reconcile_stuck_records (reconcile_stuck_records w) = reconcile_stuck_records w.
Proof.
  assert (Hm : processing_audit (reconcile_stuck_records (reconcile_stuck_records w))
               = processing_audit (reconcile_stuck_records w)).
  { apply map_eq. intros id.
    rewrite (reconcile_stuck_records_lookup (reconcile_stuck_records w)).
    rewrite reconcile_stuck_records_lookup.
    destruct (processing_audit w !! id) as [row|]; [|reflexivity].
    cbn [fmap option_fmap option_map]. f_equal.
    destruct (lost w row) eqn:Hl.
    - unfold lost. rewrite is_stuck_mark_lost. reflexivity.
    - change (lost (reconcile_stuck_records w) row) with (lost w row).
      rewrite Hl. reflexivity. }
  unfold reconcile_stuck_records at 1.
  unfold reconcile_stuck_records at 1 in Hm.
  cbn [processing_audit set_processing_audit] in Hm. rewrite Hm.
  reflexivity.
Qed.

(** * The reconciler and the quarantine *)

Lemma truediv_name (directory : Path) (name : str) :
  no_slash name -> (2 <= length name)%nat -> directory </> name = directory ++ [name].
Proof.
  intros Hn Hl. rewrite (truediv_relative _ _ Hn), (parts_of_single _ Hn Hl).
  reflexivity.
Qed.

(** None of the places in which the reconciler looks for the file of an
    audit row is the place where [move_to_quarantine] has put it. *)
Lemma quarantine_path_not_looked_up env source w directory :
  no_slash (path_name source) -> (2 <= length (path_name source))%nat ->
  directory </> path_name source <> quarantine_path env source w.
Proof.
  intros Hn Hl Heq. apply (f_equal path_name) in Heq.
  rewrite (quarantine_path_name env source w Hn), (truediv_name _ _ Hn Hl) in Heq.
  unfold path_name in Heq at 1. rewrite List.last_last in Heq.
  apply (f_equal (@length N)) in Heq. rewrite !length_app in Heq.
  change (lit "_") with [95] in Heq. cbn [length] in Heq. lia.
Qed.

(** X26.  The existence check of the reconciler does not see a file that is
    waiting in quarantine: it looks for the original file name, while
    [move_to_quarantine] stores the file under that name behind a time
    stamp.  So a stuck audit row whose file is in quarantine, and nowhere
    else, is set to FAILED_PERMANENT with the message that the file was
    lost, while the file stays where it is. *)
Theorem quarantined_file_is_declared_lost env source w0 w id row t f :
  no_slash (path_name source) -> (2 <= length (path_name source))%nat ->
  processing_audit w !! id = Some row ->
  a_filename row = path_name source ->
  In (a_current_status row) intermediate_statuses ->
  a_last_attempt_at row = Some t -> (t < now w - 600)%Z ->
  files w !! quarantine_path env source w0 = Some f ->
  (forall p, p <> quarantine_path env source w0 -> files w !! p = None) ->
  let w' := reconcile_stuck_records w in
  processing_audit w' !! id = Some (mark_lost row) /\
  a_current_status (mark_lost row) = FAILED_PERMANENT /\
  files w' !! quarantine_path env source w0 = Some f.
Proof.
  intros Hn Hl Hrow Hname Hst Ht Hold Hq Honly w'. subst w'.
  split; [|split; [reflexivity | exact Hq]].
  apply (reconcile_stuck_records_marks w id row t); try assumption.
  intros directory _. apply Honly. rewrite Hname.
  apply quarantine_path_not_looked_up; assumption.
Qed.

Lemma quarantined_file_is_declared_lost_witness :
  let w := world_stuck_in_quarantine in
  files w !! quarantined_file = Some sample_file /\
  processing_audit (reconcile_stuck_records w) !! 1%nat = Some (mark_lost stuck_row) /\
  a_current_status (mark_lost stuck_row) = FAILED_PERMANENT /\
  files (reconcile_stuck_records w) !! quarantined_file = Some sample_file.
Proof.
  intros w.
  assert (Hq : files w !! quarantine_path env0 inbox_file world_s1 = Some sample_file)
    by (vm_compute; reflexivity).
  split; [exact Hq|].
  refine (quarantined_file_is_declared_lost env0 inbox_file world_s1 w 1%nat
            stuck_row 0%Z sample_file _ _ _ _ _ _ _ Hq _).
  - exact inbox_file_name_no_slash.
  - vm_compute. lia.
  - vm_compute. reflexivity.
  - vm_compute. reflexivity.
  - vm_compute. tauto.
  - reflexivity.
  - vm_compute. reflexivity.
  - intros p Hp. unfold w, world_stuck_in_quarantine. cbn [files sleep set_files].
    apply lookup_singleton_ne. intros Heq. apply Hp. symmetry. exact Heq.
Defined.

(** * A failed rollback *)






(** * Staged files and the listings of the reconciler *)

Lemma startswith_app (p s t : str) :
  startswith p s = true -> startswith p (s ++ t) = true.
Proof.
  revert s. induction p as [|a p IH]; intros s; [reflexivity|].
  destruct s as [|b s]; cbn [startswith app]; [discriminate|].
  intros H. apply andb_prop in H as [-> H]. cbn [andb]. apply IH, H.
Qed.

Lemma endswith_app (p s t : str) :
  endswith p t = true -> endswith p (s ++ t) = true.
Proof.
  unfold endswith. intros H. rewrite rev_app_distr. apply startswith_app, H.
Qed.

Lemma glob_xml_elem (directory : Path) (name : str) w :
  is_Some (files w !! (directory ++ [name])) ->
  endswith (lit ".xml") name = true ->
  In (directory ++ [name]) (glob_xml directory w).
Proof.
  intros [f Hf] Hx. unfold glob_xml. apply List.filter_In. split.
  - apply in_map_iff. exists (directory ++ [name], f). split; [reflexivity|].
    apply list_elem_of_In, elem_of_map_to_list, Hf.
  - unfold path_parent, path_name. rewrite List.removelast_last, List.last_last, Hx.
    rewrite bool_decide_eq_true_2 by reflexivity.
    rewrite bool_decide_eq_false_2 by (destruct directory; discriminate).
    reflexivity.
Qed.

(** X28.  The files that the controller leaves behind are within reach of
    the reconciler: the quarantine name and the dead-letter name of a file
    keep its [.xml] suffix and lie directly in their directories, so a file
    stored under one of them is listed by the [glob("*.xml")] of that
    directory. *)
Theorem staged_files_are_listed env source w w' :
  no_slash (path_name source) ->
  endswith (lit ".xml") (path_name source) = true ->
  let q := quarantine_path env source w in
  let dead := DEAD_LETTER_DIRECTORY </> path_name q in
  (is_Some (files w' !! q) -> In q (glob_xml QUARANTINE_DIRECTORY w')) /\
  (is_Some (files w' !! dead) -> In dead (glob_xml DEAD_LETTER_DIRECTORY w')).
Proof.
  intros Hn Hx q dead. subst q dead.
  pose proof (quarantine_segment_no_slash env source w Hn) as Hseg.
  assert (Hlen : (2 <= length (fmt_stamp (localtime env (now w)) ++ lit "_"
                                 ++ path_name source))%nat).
  { rewrite length_app. pose proof (fmt_stamp_length (localtime env (now w))). lia. }
  assert (Hend : endswith (lit ".xml")
                   (fmt_stamp (localtime env (now w)) ++ lit "_" ++ path_name source)
                 = true).
  { apply endswith_app, endswith_app, Hx. }
  rewrite (quarantine_path_name env source w Hn).
  unfold quarantine_path. rewrite !(truediv_name _ _ Hseg Hlen).
  split; intros Hf; apply glob_xml_elem; assumption.
Qed.

Lemma staged_files_are_listed_witness :
  let q := quarantine_path env0 inbox_file world_s1 in
  is_Some (files world_stuck_in_quarantine !! q) /\
  In q (glob_xml QUARANTINE_DIRECTORY world_stuck_in_quarantine).
Proof.
  intros q.
  assert (Hf : is_Some (files world_stuck_in_quarantine !! q))
    by (exists sample_file; vm_compute; reflexivity).
  split; [exact Hf|].
  refine (proj1 (staged_files_are_listed env0 inbox_file world_s1
                   world_stuck_in_quarantine inbox_file_name_no_slash _) Hf).
  vm_compute. reflexivity.
Defined.

(** X29.  Step 1 of the reconciler leaves alone the quarantined files that
    are at most five minutes old: when every listed file exists and none is
    older than 300 seconds, the step changes nothing, finds no issue and
    fixes none. *)
Theorem reprocess_quarantine_leaves_fresh_files env (quarantine_files : list Path) w :
  (forall qfile, In qfile quarantine_files ->
     exists f, files w !! qfile = Some f /\ (now w - file_mtime f <= 300)%Z) ->
  forall issues_found issues_fixed,
  reprocess_quarantine env quarantine_files (w, issues_found, issues_fixed)
  = Some (w, issues_found, issues_fixed).
Proof.
  induction quarantine_files as [|qfile rest IH]; intros Hall found fixed;
    cbn [reprocess_quarantine]; [reflexivity|].
  destruct (Hall qfile (or_introl eq_refl)) as (f & -> & Hage).
  apply Z.ltb_ge in Hage. rewrite Hage.
  apply IH. intros q Hq. apply Hall. right. exact Hq.
Qed.

Lemma reprocess_quarantine_leaves_fresh_files_witness :
  let w := set_files {[quarantined_file := sample_file]} empty_world in
  reprocess_quarantine env0 (glob_xml QUARANTINE_DIRECTORY w) (w, [], 0%nat)
  = Some (w, [], 0%nat).
Proof.
  intros w.
  refine (reprocess_quarantine_leaves_fresh_files env0
            (glob_xml QUARANTINE_DIRECTORY w) w _ [] 0%nat).
  intros qfile Hin. exists sample_file.
  assert (Hg : glob_xml QUARANTINE_DIRECTORY w = [quarantined_file])
    by (vm_compute; reflexivity).
  rewrite Hg in Hin. destruct Hin as [<- | []].
  split; [vm_compute; reflexivity | cbn; lia].
Defined.

(** * The sample document of the test suite *)

(** X30.  The extractor accepts the document that the test suite builds:
    for every access key made of decimal digits, [get_xml_info] reads from
    [create_sample_xml] that key (the NFe prefix of the [Id] removed), the
    CNPJ 12345678000190, the issuer EMPRESA TESTE LTDA, the kind NFE for
    model 55 and the emission date 2024-11-06, the time of day and the zone
    cut off. *)
Theorem create_sample_xml_is_extracted env t (filename chave_acesso : str) dt :
  all_digits chave_acesso ->
  strptime env (lit "2024-11-06") = Some dt ->
  get_xml_info env t (Some (create_sample_xml filename chave_acesso))
  = Some {| data_processamento := fmt_date (localtime env t);
            data_emissao := fmt_date dt;
            chave_acesso := chave_acesso;
            empresa_nome_xml := lit "EMPRESA TESTE LTDA";
            empresa_nome_padronizado :=
              standardize_company_name (upper_char env) (lit "EMPRESA TESTE LTDA");
            cnpj := lit "12345678000190";
            tipo_documento := lit "NFE";
            ano_emissao := fmt_Y dt;
            mes_ano_emissao := fmt_m_Y dt;
            dia_emissao := fmt_d dt |}.
Proof.
  intros Hk Hdate. unfold get_xml_info.
  match goal with
  | |- context [find_infNFe ?doc] =>
      assert (Hinf : exists ide emit rest,
                find_infNFe doc
                = Some (Elem (nfe (lit "infNFe"))
                          [(lit "Id", lit "NFe" ++ chave_acesso); (lit "versao", lit "4.00")]
                          (Some (indent 6)) (ide :: emit :: rest)) /\
                tag ide = nfe (lit "ide") /\ tag emit = nfe (lit "emit") /\
                find_data_emissao ide = Some (Some (lit "2024-11-06")) /\
                find_modelo ide = Some (lit "55") /\
                find_cnpj_nome emit
                = (Some (lit "12345678000190"), Some (lit "EMPRESA TESTE LTDA")))
  end.
  { eexists _, _, _. split; [reflexivity|].
    split; [reflexivity|]. split; [reflexivity|].
    split; [vm_compute; reflexivity|]. split; vm_compute; reflexivity. }
  destruct Hinf as (ide & emit & rest & -> & Hide & Hemit & Hd & Hm & Hc).
  cbn [attrib get_attr]. 
  change (str_eqb (lit "Id") (lit "Id")) with true. cbn iota.
  rewrite (remove_all_NFe_prefix _ Hk).
  assert (Hie : find_ide_emit
                  (Elem (nfe (lit "infNFe"))
                     [(lit "Id", lit "NFe" ++ chave_acesso); (lit "versao", lit "4.00")]
                     (Some (indent 6)) (ide :: emit :: rest))
                = (Some ide, Some emit)).
  { unfold find_ide_emit, find_child. cbn [children List.find qname].
    rewrite Hide, Hemit.
    change (str_eqb (nfe (lit "ide")) (nfe (lit "ide"))) with true.
    change (str_eqb (nfe (lit "ide")) (nfe (lit "emit"))) with false.
    change (str_eqb (nfe (lit "emit")) (nfe (lit "emit"))) with true.
    reflexivity. }
  rewrite Hie, Hd. cbn [truthy_opt].
  change (truthy (lit "2024-11-06")) with true. cbn [negb].
  change (default [] (Some (lit "2024-11-06"))) with (lit "2024-11-06").
  rewrite Hdate, Hm, Hc.
  change (tipo_of_modelo (Some (lit "55"))) with (lit "NFE").
  reflexivity.
Qed.

Lemma create_sample_xml_is_extracted_witness :
  all_digits K1 /\
  get_xml_info env0 0 (Some (create_sample_xml (lit "nota.xml") K1))
  = Some {| data_processamento := lit "2024-11-06";
            data_emissao := lit "2024-11-06";
            chave_acesso := K1;
            empresa_nome_xml := lit "EMPRESA TESTE LTDA";
            empresa_nome_padronizado := lit "EMPRESA TESTE LTDA";
            cnpj := lit "12345678000190";
            tipo_documento := lit "NFE";
            ano_emissao := lit "2024";
            mes_ano_emissao := lit "11-2024";
            dia_emissao := lit "06" |}.
Proof.
  assert (Hk : all_digits K1).
  { refine (bool_decide_unpack _ _). vm_compute. exact I. }
  split; [exact Hk|].
  exact (create_sample_xml_is_extracted env0 0 (lit "nota.xml") K1
           {| dt_year := 2024; dt_month := 11; dt_day := 6; dt_hour := 0;
              dt_minute := 0; dt_second := 0; dt_micro := 0 |} Hk eq_refl).
Defined.
